(** * Cyclogon generator: a shallow embedding of the geometric core

    The development embeds the model classes of the cyclogon generator
    ([Polygon], [Circle], [DrawPoint], [Cyclogon]) and the calculation
    service ([CyclogonCalculator]) and proves properties of the curves
    they produce.

    Numbers.  The program computes with JavaScript numbers.  The inputs
    (radius, rotation offset, trace point, cycle count, sampling
    densities) are real numbers [R], the number of sides and the indices
    are integers [Z], and so are the values the program derives from them
    with [+], [-], [*], [Math.sin], [Math.cos], [Math.atan2],
    [Math.sqrt] of a sum of squares, [Math.ceil], and with a division
    whose divisor a constructor check or a test just before it keeps away
    from zero.  Rounding, overflow and the sign of zero are abstracted
    away.  Any other division produces a [JS.num], the reals extended
    with [Infinity], [-Infinity] and [NaN], and so do all values computed
    from it; the samples of a curve therefore carry [JS.num] coordinates.

    Errors.  A call that can throw returns a [JS.result].

    Part I translates the sources, file by file; Part II states and
    proves the properties. *)

From Stdlib Require Import Reals Machin Lra Lia ZArith List Sorted.
From stdpp Require Import base strings gmap list.

Local Open Scope R_scope.

(* ================================================================== *)
(** * Part I: the embedding *)
(* ================================================================== *)

(** Decidable comparisons of real numbers, as stdpp decision instances. *)

#[global] Instance Rlt_decision : RelDecision Rlt := Rlt_dec.
#[global] Instance Rle_decision : RelDecision Rle := Rle_dec.
#[global] Instance Req_decision : EqDecision R := Req_dec_T.

(** ** JavaScript numbers *)

Module JS.

(** A number is a real, one of the two infinities, or [NaN]. *)
Inductive num : Type :=
| Fin (r : R)
| PInf
| NInf
| NaN.

Definition is_finite (a : num) : Prop :=
  match a with Fin _ => True | _ => False end.

(** Unary minus. *)
Definition neg (a : num) : num :=
  match a with
  | Fin r => Fin (- r)
  | PInf => NInf
  | NInf => PInf
  | NaN => NaN
  end.

(** [a + b] *)
Definition add (a b : num) : num :=
  match a, b with
  | NaN, _ | _, NaN => NaN
  | Fin x, Fin y => Fin (x + y)
  | PInf, NInf | NInf, PInf => NaN
  | PInf, _ | _, PInf => PInf
  | NInf, _ | _, NInf => NInf
  end.

(** [a - b] *)
Definition sub (a b : num) : num := add a (neg b).

(** The infinity with the sign of the real [r] times [s], where [s] is
    [true] for a positive infinity; [NaN] when [r] is zero. *)
Definition signed_inf (s : bool) (r : R) : num :=
  if decide (r = 0) then NaN
  else if decide (0 < r) then (if s then PInf else NInf)
  else (if s then NInf else PInf).

(** [a * b] *)
Definition mul (a b : num) : num :=
  match a, b with
  | NaN, _ | _, NaN => NaN
  | Fin x, Fin y => Fin (x * y)
  | Fin x, PInf | PInf, Fin x => signed_inf true x
  | Fin x, NInf | NInf, Fin x => signed_inf false x
  | PInf, PInf | NInf, NInf => PInf
  | PInf, NInf | NInf, PInf => NInf
  end.

(** [a / b].  A finite number divided by zero is [NaN] for [0 / 0] and
    an infinity otherwise (every zero counts as [+0]). *)
Definition div (a b : num) : num :=
  match a, b with
  | NaN, _ | _, NaN => NaN
  | Fin x, Fin y =>
      if decide (y = 0) then signed_inf true x else Fin (x / y)
  | Fin _, (PInf | NInf) => Fin 0
  | PInf, Fin y => if decide (y < 0) then NInf else PInf
  | NInf, Fin y => if decide (y < 0) then PInf else NInf
  | (PInf | NInf), (PInf | NInf) => NaN
  end.

(** [Math.sqrt] *)
Definition sqrt (a : num) : num :=
  match a with
  | Fin r => if decide (r < 0) then NaN else Fin (R_sqrt.sqrt r)
  | PInf => PInf
  | NInf | NaN => NaN
  end.

(** [Math.cos] and [Math.sin] *)
Definition cos (a : num) : num :=
  match a with Fin r => Fin (Rtrigo_def.cos r) | _ => NaN end.

Definition sin (a : num) : num :=
  match a with Fin r => Fin (Rtrigo_def.sin r) | _ => NaN end.

(** [Math.atan2] on two reals. *)
Definition Ratan2 (y x : R) : R :=
  if decide (0 < x) then atan (y / x)
  else if decide (x < 0) then
    (if decide (y < 0) then atan (y / x) - PI else atan (y / x) + PI)
  else if decide (0 < y) then PI / 2
  else if decide (y < 0) then - (PI / 2)
  else 0.

(** [Math.atan2(y, x)] *)
Definition atan2 (y x : num) : num :=
  match y, x with
  | NaN, _ | _, NaN => NaN
  | Fin b, Fin a => Fin (Ratan2 b a)
  | Fin b, PInf => Fin 0
  | Fin b, NInf => if decide (b < 0) then Fin (- PI) else Fin PI
  | PInf, Fin _ => Fin (PI / 2)
  | NInf, Fin _ => Fin (- (PI / 2))
  | PInf, PInf => Fin (PI / 4)
  | NInf, PInf => Fin (- (PI / 4))
  | PInf, NInf => Fin (3 * PI / 4)
  | NInf, NInf => Fin (- (3 * PI / 4))
  end.

(** [a < b], [a <= b], [a > b], [a >= b]: false as soon as one side is
    [NaN]. *)
Definition lt (a b : num) : bool :=
  match a, b with
  | Fin x, Fin y => bool_decide (x < y)
  | NInf, (Fin _ | PInf) | Fin _, PInf => true
  | _, _ => false
  end.

Definition le (a b : num) : bool :=
  match a, b with
  | Fin x, Fin y => bool_decide (x <= y)
  | NInf, (Fin _ | PInf | NInf) | Fin _, PInf | PInf, PInf => true
  | _, _ => false
  end.

Definition gt (a b : num) : bool := lt b a.
Definition ge (a b : num) : bool := le b a.

(** [a === b] *)
Definition eq (a b : num) : bool :=
  match a, b with
  | Fin x, Fin y => bool_decide (x = y)
  | PInf, PInf | NInf, NInf => true
  | _, _ => false
  end.

(** [Math.min] and [Math.max] of two numbers. *)
Definition min (a b : num) : num :=
  match a, b with
  | NaN, _ | _, NaN => NaN
  | _, _ => if le a b then a else b
  end.

Definition max (a b : num) : num :=
  match a, b with
  | NaN, _ | _, NaN => NaN
  | _, _ => if le a b then b else a
  end.

(** [x % 1] on a real: the dividend minus its truncation towards
    zero. *)
Definition Rtrunc (r : R) : Z :=
  if decide (r < 0) then Zceil r else Zfloor r.

Definition mod1 (r : R) : R := r - IZR (Rtrunc r).

(** A thrown [Error] carries its message. *)
Inductive result (A : Type) : Type :=
| Ok (a : A)
| Throw (msg : string).
Arguments Ok {A} a.
Arguments Throw {A} msg.

Definition bind {A B : Type} (m : result A) (k : A -> result B) : result B :=
  match m with
  | Ok a => k a
  | Throw msg => Throw msg
  end.

(** The integers [lo, lo+1, ..., lo+n-1]: the values of a counting
    loop. *)
Definition range (lo : Z) (n : nat) : list Z :=
  map (fun k : nat => (lo + Z.of_nat k)%Z) (seq 0 n).

(** Message of the [TypeError] raised by a property access on
    [undefined]. *)
Definition TypeError : string := "TypeError: cannot read properties of undefined".

End JS.

Notation "a +j b" := (JS.add a b) (at level 50, left associativity).
Notation "a -j b" := (JS.sub a b) (at level 50, left associativity).
Notation "a *j b" := (JS.mul a b) (at level 40, left associativity).
Notation "a /j b" := (JS.div a b) (at level 40, left associativity).

(** Calls that may throw are sequenced with stdpp's [x ← m; k]. *)
#[global] Instance result_ret : MRet JS.result := @JS.Ok.
#[global] Instance result_bind : MBind JS.result :=
  fun A B k m => JS.bind m k.

(** ** config/constants.js *)

Module MATH.
Definition TWO_PI : R := PI * 2.
Definition HALF_PI : R := PI / 2.
Definition DEG_TO_RAD : R := PI / 180.
Definition RAD_TO_DEG : R := 180 / PI.
End MATH.

Module CONFIG.
Module DRAW_POINT.
Definition RADIUS : R := 8 / 100.
Definition COLOR : Z := 0xf72585.
Definition HOVER_COLOR : Z := 0xff5ca1.
End DRAW_POINT.
Module CYCLOGON.
Definition POINTS_PER_SIDE : R := 50.
Definition POINTS_PER_RADIAN : R := 30.
End CYCLOGON.
Module EXPORT.
Definition DECIMAL_PRECISION : R := 6.
End EXPORT.
End CONFIG.

(** A plain [{x, y}] object with real coordinates. *)
Record Point : Type := mkPoint { px : R; py : R }.


(** A plain [{x, y}] object whose coordinates come out of an unguarded
    division. *)
Record NPoint : Type := mkNPoint { nx : JS.num; ny : JS.num }.

(** ** models/Polygon.js *)

Module Polygon.

(** A vertex as [_calculateGeometry] stores it. *)
Record Vertex : Type := mkVertex { vx : R; vy : R; angle : R; vindex : Z }.

(** [class Edge]: [start] and [end] are spread copies of two vertices. *)
Record Edge : Type := mkEdge { start : Vertex; end_ : Vertex; index : Z }.

Definition getLength (e : Edge) : R :=
  let dx := vx (end_ e) - vx (start e) in
  let dy := vy (end_ e) - vy (start e) in
  sqrt (dx * dx + dy * dy).

Definition getMidpoint (e : Edge) : Point :=
  mkPoint ((vx (start e) + vx (end_ e)) / 2) ((vy (start e) + vy (end_ e)) / 2).

Definition getPointAt (e : Edge) (t : R) : Point :=
  let t := Rmax 0 (Rmin 1 t) in
  mkPoint (vx (start e) + t * (vx (end_ e) - vx (start e)))
          (vy (start e) + t * (vy (end_ e) - vy (start e))).

(** The object [{distance, closestPoint, t}]. *)
Record Distance : Type :=
  mkDistance { distance : R; closestPoint : Point; t_ : R }.

(** [Edge.distanceToPoint]: the division is guarded by the test of
    [lengthSquared] against zero. *)
Definition distanceToPoint (e : Edge) (point : Point) : Distance :=
  let dx := vx (end_ e) - vx (start e) in
  let dy := vy (end_ e) - vy (start e) in
  let lengthSquared := dx * dx + dy * dy in
  if decide (lengthSquared = 0) then
    let dist := sqrt ((px point - vx (start e)) ^ 2 + (py point - vy (start e)) ^ 2) in
    mkDistance dist (mkPoint (vx (start e)) (vy (start e))) 0
  else
    let t := ((px point - vx (start e)) * dx + (py point - vy (start e)) * dy)
             / lengthSquared in
    let t := Rmax 0 (Rmin 1 t) in
    let closestPoint := mkPoint (vx (start e) + t * dx) (vy (start e) + t * dy) in
    let distance := sqrt ((px point - px closestPoint) ^ 2
                          + (py point - py closestPoint) ^ 2) in
    mkDistance distance closestPoint t.

(** [Edge.getNormal]: the division by the edge length is not guarded. *)
Definition getNormal (e : Edge) : NPoint :=
  let dx := vx (end_ e) - vx (start e) in
  let dy := vy (end_ e) - vy (start e) in
  let length := sqrt (dx * dx + dy * dy) in
  mkNPoint (JS.Fin dy /j JS.Fin length) (JS.Fin (- dx) /j JS.Fin length).

(** [class Polygon].  The number of sides is an integer; the constructor
    and the setters keep it at 3 or more and the radius positive, so the
    divisions by [sides] below are real divisions. *)
Record t : Type := mk {
  sides : Z;
  radius : R;
  rotationOffset : R;
  vertices : list Vertex;
  edges : list Edge
}.

(** [_calculateGeometry]: the vertices, then one edge per vertex index
    from vertex [i] to vertex [(i + 1) % sides]. *)
Definition _calculateGeometry (p : t) : t :=
  let angleStep := MATH.TWO_PI / IZR (sides p) in
  let vs :=
    map (fun i : Z =>
           let angle := rotationOffset p + IZR i * angleStep in
           mkVertex (cos angle * radius p) (sin angle * radius p) angle i)
        (JS.range 0 (Z.to_nat (sides p))) in
  let es :=
    omap (fun i : Z =>
            start ← vs !! Z.to_nat i;
            end_ ← vs !! Z.to_nat (Z.rem (i + 1) (sides p));
            Some (mkEdge start end_ i))
         (JS.range 0 (Z.to_nat (sides p))) in
  mk (sides p) (radius p) (rotationOffset p) vs es.

(** [new Polygon(sides, radius, rotationOffset)] *)
Definition new (sides : Z) (radius rotationOffset : R) : JS.result t :=
  if decide (sides < 3)%Z then
    JS.Throw "Un polígono debe tener al menos 3 lados"
  else if decide (radius <= 0) then
    JS.Throw "El radio debe ser positivo"
  else
    JS.Ok (_calculateGeometry (mk sides radius rotationOffset [] [])).

(** The setters [sides] and [radius], and [rotate]. *)
Definition set_sides (p : t) (newSides : Z) : JS.result t :=
  if decide (newSides < 3)%Z then
    JS.Throw "Un polígono debe tener al menos 3 lados"
  else
    JS.Ok (_calculateGeometry
             (mk newSides (radius p) (rotationOffset p) (vertices p) (edges p))).

Definition set_radius (p : t) (newRadius : R) : JS.result t :=
  if decide (newRadius <= 0) then
    JS.Throw "El radio debe ser positivo"
  else
    JS.Ok (_calculateGeometry
             (mk (sides p) newRadius (rotationOffset p) (vertices p) (edges p))).

Definition rotate (p : t) (angle : R) : t :=
  _calculateGeometry
    (mk (sides p) (radius p) (rotationOffset p + angle) (vertices p) (edges p)).

Definition getSideLength (p : t) : R :=
  2 * radius p * sin (PI / IZR (sides p)).

Definition getPerimeter (p : t) : R := IZR (sides p) * getSideLength p.

Definition getApothem (p : t) : R :=
  radius p * cos (PI / IZR (sides p)).

Definition getInteriorAngle (p : t) : R :=
  (IZR (sides p - 2) * PI) / IZR (sides p).

Definition getExteriorAngle (p : t) : R :=
  MATH.TWO_PI / IZR (sides p).

(** [((index % sides) + sides) % sides], with the truncating remainder
    of JavaScript. *)
Definition normalizedIndex (p : t) (index : Z) : Z :=
  Z.rem (Z.rem index (sides p) + sides p) (sides p).

(** [getEdge]: [None] stands for [undefined]. *)
Definition getEdge (p : t) (index : Z) : option Edge :=
  edges p !! Z.to_nat (normalizedIndex p index).

(** [getTopVertex]: [None] when there is no vertex to copy. *)
Definition getTopVertex (p : t) : option Vertex :=
  topVertex ← vertices p !! 0%nat;
  Some (fold_left
          (fun topVertex vertex =>
             if decide (vy topVertex < vy vertex) then vertex else topVertex)
          (vertices p) topVertex).

(** The object [{edge, distance, closestPoint, t, edgeIndex}]. *)
Record ClosestEdge : Type := mkClosestEdge {
  edge : Edge;
  ce_distance : R;
  ce_closestPoint : Point;
  ce_t : R;
  edgeIndex : Z
}.

(** [findClosestEdge]: the loop state is [(minDistance, result)], with
    [minDistance] starting at [Infinity] and [result] at [null]. *)
Definition findClosestEdge (p : t) (point : Point) : option ClosestEdge :=
  snd (fold_left
         (fun (st : JS.num * option ClosestEdge) (ie : nat * Edge) =>
            let '(i, edge) := ie in
            let distResult := distanceToPoint edge point in
            if JS.lt (JS.Fin (distance distResult)) (fst st) then
              (JS.Fin (distance distResult),
               Some (mkClosestEdge edge (distance distResult)
                       (closestPoint distResult) (t_ distResult) (Z.of_nat i)))
            else st)
         (imap (fun i e => (i, e)) (edges p))
         (JS.PInf, None)).

(** [getVertex]: [None] stands for the empty copy of [undefined]. *)
Definition getVertex (p : t) (index : Z) : option Vertex :=
  vertices p !! Z.to_nat (normalizedIndex p index).

Definition getArea (p : t) : R := 5 / 10 * getPerimeter p * getApothem p.

(** [distanceToBorder]: reading [distance] of [null] throws. *)
Definition distanceToBorder (p : t) (point : Point) : JS.result R :=
  match findClosestEdge p point with
  | Some result => JS.Ok (ce_distance result)
  | None => JS.Throw JS.TypeError
  end.

(** [clone()] *)
Definition clone (p : t) : JS.result t :=
  new (sides p) (radius p) (rotationOffset p).

(** The plain object [toJSON()] returns. *)
Record JSON : Type := mkJSON {
  j_sides : Z;
  j_radius : R;
  j_rotationOffset : R;
  j_vertices : list Point;
  j_sideLength : R;
  j_apothem : R;
  j_perimeter : R;
  j_area : R
}.

Definition toJSON (p : t) : JSON :=
  mkJSON (sides p) (radius p) (rotationOffset p)
    (map (fun v => mkPoint (vx v) (vy v)) (vertices p))
    (getSideLength p) (getApothem p) (getPerimeter p) (getArea p).

(** [Polygon.fromJSON(json)] *)
Definition fromJSON (json : JSON) : JS.result t :=
  new (j_sides json) (j_radius json) (j_rotationOffset json).

End Polygon.

(** ** models/Circle.js *)

Module Circle.

Record t : Type := mk { radius : R; center : Point }.

(** [new Circle(radius, center)] *)
Definition new (radius : R) (center : Point) : JS.result t :=
  if decide (radius <= 0) then JS.Throw "El radio debe ser positivo"
  else JS.Ok (mk radius center).

Definition getPointOnCircle (c : t) (angle : R) : Point :=
  mkPoint (px (center c) + cos angle * radius c)
          (py (center c) + sin angle * radius c).

Definition getTopPoint (c : t) : Point := getPointOnCircle c MATH.HALF_PI.

Definition angleToPoint (c : t) (point : Point) : R :=
  JS.Ratan2 (py point - py (center c)) (px point - px (center c)).

(** [projectToBorder] returns [{x, y, angle}]. *)
Definition projectToBorder (c : t) (point : Point) : Point * R :=
  let angle := angleToPoint c point in
  let projected := getPointOnCircle c angle in
  (projected, angle).

Definition circumference (c : t) : R := MATH.TWO_PI * radius c.




(** [getCycloidPoint(theta, drawPoint)].  The radius is positive by the
    constructor, so [d] is a real quotient; [theta] may come out of an
    unguarded division. *)
Definition getCycloidPoint (c : t) (theta : JS.num) (drawPoint : Point) : NPoint :=
  let d := sqrt (px drawPoint ^ 2 + py drawPoint ^ 2) / radius c in
  let initialAngle := JS.Ratan2 (py drawPoint) (px drawPoint) in
  let centerX := JS.Fin (radius c) *j theta in
  let centerY := JS.Fin (radius c) in
  let pointAngle := JS.Fin initialAngle -j theta in
  let pointX := centerX +j JS.Fin (d * radius c) *j JS.cos pointAngle in
  let pointY := centerY +j JS.Fin (d * radius c) *j JS.sin pointAngle in
  mkNPoint pointX pointY.


End Circle.

(** What [instanceof] can tell about the [shape] argument of the
    polymorphic operations. *)
Inductive Shape : Type :=
| IsCircle (c : Circle.t)
| IsPolygon (p : Polygon.t)
| OtherShape.

(** ** models/DrawPoint.js *)

Module DrawPoint.

Inductive DrawPointState : Type :=
| IDLE
| HOVERED
| DRAGGING
| SNAPPED
| SNAP_DRAGGING.

(** An entry [{x, y, alpha}] of the drag trail. *)
Record TrailPoint : Type := mkTrailPoint { tx : R; ty : R; alpha : R }.

(** [class DrawPoint].  The per-state colour and scale tables, which no
    method writes, are left out. *)
Record t : Type := mk {
  _position : Point;
  _targetPosition : Point;
  _isSnappedToEdge : bool;
  _snappedEdgeIndex : option Z;
  _edgeParameter : R;
  _snappedAngle : option R;
  _radius : R;
  _color : Z;
  _hoverColor : Z;
  _isHovered : bool;
  _isDragging : bool;
  _visualState : DrawPointState;
  _animationProgress : R;
  _pulsePhase : R;
  _snapIndicatorVisible : bool;
  _trailPoints : list TrailPoint;
  _maxTrailPoints : nat
}.

(** [new DrawPoint(x, y)] *)
Definition new (x y : R) : t :=
  mk (mkPoint x y) (mkPoint x y) false None 0 None
     CONFIG.DRAW_POINT.RADIUS CONFIG.DRAW_POINT.COLOR
     CONFIG.DRAW_POINT.HOVER_COLOR false false IDLE 1 0 false [] 10.

(** Field updates. *)
Definition with_position (d : t) (p : Point) : t :=
  mk p (_targetPosition d) (_isSnappedToEdge d) (_snappedEdgeIndex d)
     (_edgeParameter d) (_snappedAngle d) (_radius d) (_color d)
     (_hoverColor d) (_isHovered d) (_isDragging d) (_visualState d)
     (_animationProgress d) (_pulsePhase d) (_snapIndicatorVisible d)
     (_trailPoints d) (_maxTrailPoints d).

Definition with_targetPosition (d : t) (p : Point) : t :=
  mk (_position d) p (_isSnappedToEdge d) (_snappedEdgeIndex d)
     (_edgeParameter d) (_snappedAngle d) (_radius d) (_color d)
     (_hoverColor d) (_isHovered d) (_isDragging d) (_visualState d)
     (_animationProgress d) (_pulsePhase d) (_snapIndicatorVisible d)
     (_trailPoints d) (_maxTrailPoints d).

(** The four snap fields written together. *)
Definition with_snap (d : t) (snapped : bool) (edgeIndex : option Z)
    (edgeParameter : R) (snappedAngle : option R) : t :=
  mk (_position d) (_targetPosition d) snapped edgeIndex edgeParameter
     snappedAngle (_radius d) (_color d) (_hoverColor d) (_isHovered d)
     (_isDragging d) (_visualState d) (_animationProgress d) (_pulsePhase d)
     (_snapIndicatorVisible d) (_trailPoints d) (_maxTrailPoints d).

Definition with_trailPoints (d : t) (trail : list TrailPoint) : t :=
  mk (_position d) (_targetPosition d) (_isSnappedToEdge d)
     (_snappedEdgeIndex d) (_edgeParameter d) (_snappedAngle d) (_radius d)
     (_color d) (_hoverColor d) (_isHovered d) (_isDragging d)
     (_visualState d) (_animationProgress d) (_pulsePhase d)
     (_snapIndicatorVisible d) trail (_maxTrailPoints d).

(** The visual fields written together. *)
Definition with_visual (d : t) (isHovered isDragging : bool)
    (visualState : DrawPointState) (animationProgress pulsePhase : R)
    (snapIndicatorVisible : bool) : t :=
  mk (_position d) (_targetPosition d) (_isSnappedToEdge d)
     (_snappedEdgeIndex d) (_edgeParameter d) (_snappedAngle d) (_radius d)
     (_color d) (_hoverColor d) isHovered isDragging visualState
     animationProgress pulsePhase snapIndicatorVisible (_trailPoints d)
     (_maxTrailPoints d).

(** [_updateVisualState] *)
Definition _updateVisualState (d : t) : t :=
  let visualState :=
    if _isDragging d && _isSnappedToEdge d then SNAP_DRAGGING
    else if _isDragging d then DRAGGING
    else if _isSnappedToEdge d && negb (_isHovered d) then SNAPPED
    else if _isHovered d then HOVERED
    else IDLE in
  with_visual d (_isHovered d) (_isDragging d) visualState 0 (_pulsePhase d)
    (_snapIndicatorVisible d).

(** The setters [isHovered], [isDragging] and [snapIndicatorVisible]. *)
Definition set_isHovered (d : t) (value : bool) : t :=
  _updateVisualState
    (with_visual d value (_isDragging d) (_visualState d)
       (_animationProgress d) (_pulsePhase d) (_snapIndicatorVisible d)).

Definition set_isDragging (d : t) (value : bool) : t :=
  let d :=
    _updateVisualState
      (with_visual d (_isHovered d) value (_visualState d)
         (_animationProgress d) (_pulsePhase d) (_snapIndicatorVisible d)) in
  if negb value then with_trailPoints d [] else d.

Definition set_snapIndicatorVisible (d : t) (value : bool) : t :=
  with_visual d (_isHovered d) (_isDragging d) (_visualState d)
    (_animationProgress d) (_pulsePhase d) value.

(** [updateAnimation(deltaTime)] *)
Definition updateAnimation (d : t) (deltaTime : R) : t :=
  let animationProgress :=
    if decide (_animationProgress d < 1)
    then Rmin 1 (_animationProgress d + deltaTime * 5)
    else _animationProgress d in
  let pulsePhase := _pulsePhase d + deltaTime * 3 in
  let pulsePhase :=
    if decide (PI * 2 < pulsePhase) then pulsePhase - PI * 2 else pulsePhase in
  let lerpFactor := Rmin 1 (deltaTime * 15) in
  let d :=
    with_visual d (_isHovered d) (_isDragging d) (_visualState d)
      animationProgress pulsePhase (_snapIndicatorVisible d) in
  with_position d
    (mkPoint
       (px (_position d)
        + (px (_targetPosition d) - px (_position d)) * lerpFactor)
       (py (_position d)
        + (py (_targetPosition d) - py (_position d)) * lerpFactor)).

(** [_addTrailPoint]: push, then [shift] once past the maximum. *)
Definition _addTrailPoint (d : t) : t :=
  if _isDragging d then
    let trail :=
      _trailPoints d ++ [mkTrailPoint (px (_position d)) (py (_position d)) 1] in
    if decide (_maxTrailPoints d < length trail)%nat
    then with_trailPoints d (tail trail)
    else with_trailPoints d trail
  else d.

(** [updateTrail(deltaTime)]: the backwards loop fades every entry once
    and splices out those whose alpha reached zero. *)
Definition updateTrail (d : t) (deltaTime : R) : t :=
  with_trailPoints d
    (filter (fun p => 0 < alpha p)
       (map (fun p => mkTrailPoint (tx p) (ty p) (alpha p - deltaTime * 3))
          (_trailPoints d))).

(** [_clearSnap] *)
Definition _clearSnap (d : t) : t := with_snap d false None 0 None.

(** [setPosition(x, y, immediate)] *)
Definition setPosition (d : t) (x y : R) (immediate : bool) : t :=
  let d := with_targetPosition d (mkPoint x y) in
  let d := if immediate then with_position d (mkPoint x y) else d in
  let d := if _isDragging d then _addTrailPoint d else d in
  _clearSnap d.

(** [moveBy(dx, dy, immediate)] *)
Definition moveBy (d : t) (dx dy : R) (immediate : bool) : t :=
  let d :=
    with_targetPosition d
      (mkPoint (px (_targetPosition d) + dx) (py (_targetPosition d) + dy)) in
  let d := if immediate then with_position d (_targetPosition d) else d in
  let d := if _isDragging d then _addTrailPoint d else d in
  _clearSnap d.

(** [snapToPolygonEdge(polygon, edgeIndex, t)]: reading the edge throws
    when [getEdge] returned [undefined]. *)
Definition snapToPolygonEdge (d : t) (polygon : Polygon.t) (edgeIndex : Z)
    (t : R) : JS.result DrawPoint.t :=
  match Polygon.getEdge polygon edgeIndex with
  | None => JS.Throw JS.TypeError
  | Some edge =>
      let point := Polygon.getPointAt edge t in
      JS.Ok (with_snap (with_position d point) true (Some edgeIndex) t None)
  end.

(** [snapToCircleBorder(circle, angle)] *)
Definition snapToCircleBorder (d : t) (circle : Circle.t) (angle : R) : t :=
  let point := Circle.getPointOnCircle circle angle in
  with_snap (with_position d point) true None 0 (Some angle).

(** [snapToNearestPolygonEdge(polygon)], with the returned
    [{edgeIndex, t, point}]; reading the result throws when
    [findClosestEdge] returned [null]. *)
Definition snapToNearestPolygonEdge (d : t) (polygon : Polygon.t)
    : JS.result (DrawPoint.t * (Z * R * Point)) :=
  match Polygon.findClosestEdge polygon (_position d) with
  | None => JS.Throw JS.TypeError
  | Some result =>
      JS.Ok (with_snap (with_position d (Polygon.ce_closestPoint result))
               true (Some (Polygon.edgeIndex result)) (Polygon.ce_t result) None,
             (Polygon.edgeIndex result, Polygon.ce_t result,
              Polygon.ce_closestPoint result))
  end.

(** [snapToCircle(circle)], with the returned [{angle, point}]. *)
Definition snapToCircle (d : t) (circle : Circle.t) : t * (R * Point) :=
  let projected := Circle.projectToBorder circle (_position d) in
  (with_snap (with_position d (fst projected)) true None 0
     (Some (snd projected)),
   (snd projected, fst projected)).

(** [snapToShape(shape)]; the returned snap information is dropped. *)
Definition snapToShape (d : t) (shape : Shape) : JS.result t :=
  match shape with
  | IsPolygon polygon => r ← snapToNearestPolygonEdge d polygon; JS.Ok (fst r)
  | IsCircle circle => JS.Ok (fst (snapToCircle d circle))
  | OtherShape => JS.Throw "Forma no soportada para snap"
  end.

(** [resetToCircleTop(circle)] *)
Definition resetToCircleTop (d : t) (circle : Circle.t) : t :=
  let topPoint := Circle.getTopPoint circle in
  with_snap (with_position d topPoint) true None 0 (Some (PI / 2)).

(** [resetToPolygonTop(polygon)].  A polygon without vertices, which no
    constructor builds, would hand out an empty object and leave
    [undefined] coordinates; the embedding has no such number and lets the
    call fail there. *)
Definition resetToPolygonTop (d : t) (polygon : Polygon.t) : JS.result t :=
  match Polygon.getTopVertex polygon with
  | None => JS.Throw JS.TypeError
  | Some topVertex =>
      JS.Ok (with_snap
               (with_position d
                  (mkPoint (Polygon.vx topVertex) (Polygon.vy topVertex)))
               true (Some (Polygon.vindex topVertex)) 0 None)
  end.

(** [resetToShapeTop(shape)] *)
Definition resetToShapeTop (d : t) (shape : Shape) : JS.result t :=
  match shape with
  | IsPolygon polygon => resetToPolygonTop d polygon
  | IsCircle circle => JS.Ok (resetToCircleTop d circle)
  | OtherShape => JS.Throw "Forma no soportada"
  end.

(** The tagged snap state the fields encode. *)
Inductive SnapState : Type :=
| Free
| SnappedToEdge (edgeIndex : option Z) (t : R)
| SnappedToAngle (angle : R).

Definition snapState (d : t) : SnapState :=
  if _isSnappedToEdge d then
    match _snappedAngle d with
    | Some angle => SnappedToAngle angle
    | None => SnappedToEdge (_snappedEdgeIndex d) (_edgeParameter d)
    end
  else Free.

(** The methods that write to a draw point, as the moves of a state
    machine. *)
Inductive Op : Type :=
| OpSetIsHovered (value : bool)
| OpSetIsDragging (value : bool)
| OpSetSnapIndicatorVisible (value : bool)
| OpUpdateAnimation (deltaTime : R)
| OpUpdateTrail (deltaTime : R)
| OpSetPosition (x y : R) (immediate : bool)
| OpMoveBy (dx dy : R) (immediate : bool)
| OpSnapToPolygonEdge (polygon : Polygon.t) (edgeIndex : Z) (t : R)
| OpSnapToCircleBorder (circle : Circle.t) (angle : R)
| OpSnapToNearestPolygonEdge (polygon : Polygon.t)
| OpSnapToCircle (circle : Circle.t)
| OpSnapToShape (shape : Shape)
| OpResetToCircleTop (circle : Circle.t)
| OpResetToPolygonTop (polygon : Polygon.t)
| OpResetToShapeTop (shape : Shape).

Definition step (op : Op) (d : t) : JS.result t :=
  match op with
  | OpSetIsHovered value => JS.Ok (set_isHovered d value)
  | OpSetIsDragging value => JS.Ok (set_isDragging d value)
  | OpSetSnapIndicatorVisible value => JS.Ok (set_snapIndicatorVisible d value)
  | OpUpdateAnimation deltaTime => JS.Ok (updateAnimation d deltaTime)
  | OpUpdateTrail deltaTime => JS.Ok (updateTrail d deltaTime)
  | OpSetPosition x y immediate => JS.Ok (setPosition d x y immediate)
  | OpMoveBy dx dy immediate => JS.Ok (moveBy d dx dy immediate)
  | OpSnapToPolygonEdge polygon edgeIndex t =>
      snapToPolygonEdge d polygon edgeIndex t
  | OpSnapToCircleBorder circle angle =>
      JS.Ok (snapToCircleBorder d circle angle)
  | OpSnapToNearestPolygonEdge polygon =>
      r ← snapToNearestPolygonEdge d polygon; JS.Ok (fst r)
  | OpSnapToCircle circle => JS.Ok (fst (snapToCircle d circle))
  | OpSnapToShape shape => snapToShape d shape
  | OpResetToCircleTop circle => JS.Ok (resetToCircleTop d circle)
  | OpResetToPolygonTop polygon => resetToPolygonTop d polygon
  | OpResetToShapeTop shape => resetToShapeTop d shape
  end.

(** The dedicated snap operations: the [snapTo...] family and the
    [resetTo...Top] family, which places the point on the shape and marks
    it snapped. *)
Definition is_snap_op (op : Op) : bool :=
  match op with
  | OpSnapToPolygonEdge _ _ _ | OpSnapToCircleBorder _ _
  | OpSnapToNearestPolygonEdge _ | OpSnapToCircle _ | OpSnapToShape _
  | OpResetToCircleTop _ | OpResetToPolygonTop _ | OpResetToShapeTop _ => true
  | _ => false
  end.

(** [getDistanceFromOrigin] and [getAngleFromOrigin] *)
Definition getDistanceFromOrigin (d : t) : R :=
  sqrt (px (_position d) ^ 2 + py (_position d) ^ 2).

Definition getAngleFromOrigin (d : t) : R :=
  JS.Ratan2 (py (_position d)) (px (_position d)).

(** The plain object [toJSON()] returns. *)
Record JSON : Type := mkJSON {
  position : Point;
  isSnappedToEdge : bool;
  snappedEdgeIndex : option Z;
  edgeParameter : R;
  snappedAngle : option R;
  distanceFromOrigin : R;
  angleFromOrigin : R
}.

Definition toJSON (d : t) : JSON :=
  mkJSON (_position d) (_isSnappedToEdge d) (_snappedEdgeIndex d)
    (_edgeParameter d) (_snappedAngle d) (getDistanceFromOrigin d)
    (getAngleFromOrigin d).

(** [DrawPoint.fromJSON(json)] and [clone()] *)
Definition fromJSON (json : JSON) : t :=
  with_snap (new (px (position json)) (py (position json)))
    (isSnappedToEdge json) (snappedEdgeIndex json) (edgeParameter json)
    (snappedAngle json).

Definition clone (d : t) : t :=
  with_snap (new (px (_position d)) (py (_position d)))
    (_isSnappedToEdge d) (_snappedEdgeIndex d) (_edgeParameter d)
    (_snappedAngle d).

End DrawPoint.

(** ** models/Cyclogon.js *)

Module Cyclogon.

(** The properties a sample carries besides [x] and [y]: those of a
    cycloid sample, those of a cyclogon sample, or none. *)
Inductive SampleMeta : Type :=
| CycloidMeta (theta : JS.num) (center : NPoint)
| CyclogonMeta (sideIndex : Z) (rotation : JS.num) (pivot center : NPoint)
| PlainMeta.

Record Sample : Type := mkSample { x : JS.num; y : JS.num; meta : SampleMeta }.

(** The parameter a sample was computed at: [theta] on a cycloid,
    [rotation] on a cyclogon. *)
Definition parameter (s : Sample) : option JS.num :=
  match meta s with
  | CycloidMeta theta _ => Some theta
  | CyclogonMeta _ rotation _ _ => Some rotation
  | PlainMeta => None
  end.

(** [class Cyclogon]; [_timestamp] holds the reading of [Date.now()]
    handed to the constructor. *)
Record t : Type := mk {
  _type : string;
  _sourceShape : option Shape;
  _points : list Sample;
  _metadata : gmap string JS.num;
  _timestamp : Z
}.

Definition new (now : Z) (type : string) (sourceShape : option Shape) : t :=
  mk type sourceShape [] ∅ now.

Definition pointCount (c : t) : Z := Z.of_nat (length (_points c)).

Definition isEmpty (c : t) : bool := bool_decide (length (_points c) = 0%nat).

Definition with_points (c : t) (points : list Sample) : t :=
  mk (_type c) (_sourceShape c) points (_metadata c) (_timestamp c).

(** [addPoint(point)] pushes a copy of the point. *)
Definition addPoint (c : t) (point : Sample) : t :=
  with_points c (_points c ++ [mkSample (x point) (y point) (meta point)]).

Definition addPoints (c : t) (points : list Sample) : t :=
  fold_left addPoint points c.

Definition getPoints (c : t) : list Sample := _points c.

(** [getPoint(index)]: [None] is [null]. *)
Definition getPoint (c : t) (index : Z) : option Sample :=
  if decide (index < 0 \/ index >= Z.of_nat (length (_points c)))%Z then None
  else _points c !! Z.to_nat index.

Definition getFirstPoint (c : t) : option Sample := getPoint c 0.

Definition getLastPoint (c : t) : option Sample :=
  getPoint c (Z.of_nat (length (_points c)) - 1).

Definition clear (c : t) : t :=
  mk (_type c) (_sourceShape c) [] ∅ (_timestamp c).

(** [setMetadata(metadata)]: the new entries win over the stored ones. *)
Definition setMetadata (c : t) (metadata : gmap string JS.num) : t :=
  mk (_type c) (_sourceShape c) (_points c) (metadata ∪ _metadata c)
     (_timestamp c).

Definition getMetadataValue (c : t) (key : string) : option JS.num :=
  _metadata c !! key.

(** The object [{minX, maxX, minY, maxY, width, height, center}]. *)
Record BoundingBox : Type := mkBoundingBox {
  minX : JS.num;
  maxX : JS.num;
  minY : JS.num;
  maxY : JS.num;
  width : JS.num;
  height : JS.num;
  center : NPoint
}.

(** [getBoundingBox()]: [None] is [null]. *)
Definition getBoundingBox (c : t) : option BoundingBox :=
  if decide (length (_points c) = 0%nat) then None
  else
    let '(minX, maxX, minY, maxY) :=
      fold_left
        (fun (b : JS.num * JS.num * JS.num * JS.num) p =>
           let '(minX, maxX, minY, maxY) := b in
           (JS.min minX (x p), JS.max maxX (x p),
            JS.min minY (y p), JS.max maxY (y p)))
        (_points c) (JS.PInf, JS.NInf, JS.PInf, JS.NInf) in
    Some (mkBoundingBox minX maxX minY maxY (maxX -j minX) (maxY -j minY)
            (mkNPoint ((minX +j maxX) /j JS.Fin 2) ((minY +j maxY) /j JS.Fin 2))).

(** [translate(dx, dy)] and [scale(scale)] *)
Definition translate (c : t) (dx dy : JS.num) : t :=
  with_points c
    (map (fun p => mkSample (x p +j dx) (y p +j dy) (meta p)) (_points c)).

Definition scale (c : t) (scale : JS.num) : t :=
  with_points c
    (map (fun p => mkSample (x p *j scale) (y p *j scale) (meta p)) (_points c)).

(** The object [{offsetX, offsetY, scale}]. *)
Record Normalization : Type :=
  mkNormalization { offsetX : JS.num; offsetY : JS.num; scale_ : JS.num }.

(** [normalize()]: the returned factors ([None] is [null]) and the curve
    afterwards. *)
Definition normalize (c : t) : option Normalization * t :=
  match getBoundingBox c with
  | None => (None, c)
  | Some bbox =>
      let scale := JS.max (width bbox) (height bbox) in
      (Some (mkNormalization (minX bbox) (minY bbox) scale),
       with_points c
         (map (fun p =>
                 mkSample ((x p -j minX bbox) /j scale)
                          ((y p -j minY bbox) /j scale) (meta p))
              (_points c)))
  end.

(** [getCoordinates()] *)
Definition getCoordinates (c : t) : list NPoint :=
  map (fun p => mkNPoint (x p) (y p)) (_points c).

(** [a ** 2] *)
Definition pow2 (a : JS.num) : JS.num := a *j a.

(** The length of the stretch from [p0] to [p1], as the arc-length loops
    compute it. *)
Definition stretch (p0 p1 : Sample) : JS.num :=
  JS.sqrt (pow2 (x p1 -j x p0) +j pow2 (y p1 -j y p0)).

(** The loop of [getArcLength]: for [i = 1, 2, ...] it adds the stretch
    from [points[i - 1]] to [points[i]]. *)
Fixpoint arcLength_loop (points : list Sample) (length : JS.num) : JS.num :=
  match points with
  | p0 :: rest =>
      match rest with
      | p1 :: _ => arcLength_loop rest (length +j stretch p0 p1)
      | [] => length
      end
  | [] => length
  end.

(** [getArcLength()] *)
Definition getArcLength (c : t) : JS.num :=
  if decide (length (_points c) < 2)%nat then JS.Fin 0
  else arcLength_loop (_points c) (JS.Fin 0).

(** The object [{point, index, distance}]. *)
Record Closest : Type :=
  mkClosest { cl_point : Sample; cl_index : nat; cl_distance : JS.num }.

(** [findClosestPoint(position)]: [None] is [null]; the loop state is
    [(closestIndex, minDistance)]. *)
Definition findClosestPoint (c : t) (position : NPoint) : option Closest :=
  if decide (length (_points c) = 0%nat) then None
  else
    let '(closestIndex, minDistance) :=
      fold_left
        (fun (st : nat * JS.num) (ip : nat * Sample) =>
           let '(i, p) := ip in
           let distance :=
             JS.sqrt (pow2 (x p -j nx position) +j pow2 (y p -j ny position)) in
           if JS.lt distance (snd st) then (i, distance) else st)
        (imap (fun i p => (i, p)) (_points c))
        (0%nat, JS.PInf) in
    point ← _points c !! closestIndex;
    Some (mkClosest point closestIndex minDistance).

(** [{ ...points[i] }]: the copy of a sample, or the empty object [None]
    when [points[i]] is [undefined]. *)
Definition copy_at (points : list Sample) (i : Z) : option Sample :=
  if decide (i < 0)%Z then None else points !! Z.to_nat i.

(** The loop of [subsample]: [for (i = 0; i < length; i += step)].  With
    a step of zero or less it does not stop on a curve with points, so the
    embedding counts its passes down from [fuel]; [None] says the count
    ran out. *)
Fixpoint subsample_loop (fuel : nat) (points : list Sample) (step i : Z)
    (result : list (option Sample)) : option (list (option Sample)) :=
  if decide (i < Z.of_nat (length points))%Z then
    match fuel with
    | O => None
    | S fuel =>
        subsample_loop fuel points step (i + step) (result ++ [copy_at points i])
    end
  else Some result.

(** [subsample(step)] for a whole number [step]: the remainder by a
    step of zero is [NaN], which differs from 0. *)
Definition subsample (fuel : nat) (c : t) (step : Z)
    : option (list (option Sample)) :=
  result ← subsample_loop fuel (_points c) step 0 [];
  let len := Z.of_nat (length (_points c)) in
  if decide (step = 0 \/ Z.rem (len - 1) step <> 0)%Z
  then Some (result ++ [copy_at (_points c) (len - 1)])
  else Some result.

(** The plain object [toJSON()] returns; [fromJSON] also accepts one
    whose [metadata] or [timestamp] is missing. *)
Record JSON : Type := mkJSON {
  j_type : string;
  j_pointCount : Z;
  j_points : list NPoint;
  j_metadata : option (gmap string JS.num);
  j_timestamp : option Z;
  j_boundingBox : option BoundingBox;
  j_arcLength : JS.num
}.

Definition toJSON (c : t) : JSON :=
  mkJSON (_type c) (Z.of_nat (length (_points c)))
    (map (fun p => mkNPoint (x p) (y p)) (_points c))
    (Some (_metadata c)) (Some (_timestamp c))
    (getBoundingBox c) (getArcLength c).

(** [Cyclogon.fromJSON(json)]; [now] is the clock reading a curve
    without a usable timestamp is stamped with. *)
Definition fromJSON (now : Z) (json : JSON) : t :=
  mk (j_type json) None
    (map (fun p => mkSample (nx p) (ny p) PlainMeta) (j_points json))
    (match j_metadata json with Some m => m | None => ∅ end)
    (match j_timestamp json with
     | Some ts => if decide (ts = 0)%Z then now else ts
     | None => now
     end).

(** [Cyclogon.merge(cyclogons)] *)
Definition merge (now : Z) (cyclogons : list t) : t :=
  if decide (length cyclogons = 0%nat) then new now "merged" None
  else
    fold_left (fun merged c => addPoints merged (getPoints c)) cyclogons
      (new now "merged" None).

End Cyclogon.

(** ** services/CyclogonCalculator.js *)

Module CyclogonCalculator.

Module CurveType.
Definition CYCLOID : string := "cycloid".
Definition CYCLOGON : string := "cyclogon".
Definition EPITROCHOID : string := "epitrochoid".
Definition HYPOTROCHOID : string := "hypotrochoid".
End CurveType.

(** The [options] argument of the constructor: every entry may be
    missing. *)
Record Options : Type := mkOptions {
  opt_pointsPerSide : option R;
  opt_pointsPerRadian : option R;
  opt_precision : option R
}.

(** [value || fallback]: a missing entry and zero are both falsy. *)
Definition or_default (value : option R) (fallback : R) : R :=
  match value with
  | Some v => if decide (v = 0) then fallback else v
  | None => fallback
  end.

(** [class CyclogonCalculator]: the object holds [this.options]. *)
Record t : Type := mk {
  pointsPerSide : R;
  pointsPerRadian : R;
  precision : R
}.

Definition new (options : Options) : t :=
  mk (or_default (opt_pointsPerSide options) CONFIG.CYCLOGON.POINTS_PER_SIDE)
     (or_default (opt_pointsPerRadian options) CONFIG.CYCLOGON.POINTS_PER_RADIAN)
     (or_default (opt_precision options) CONFIG.EXPORT.DECIMAL_PRECISION).

(** [new CyclogonCalculator()] *)
Definition default : t := new (mkOptions None None None).

(** [x ** 2] *)
Definition sq (a : JS.num) : JS.num := a *j a.

(** One pass of the sampling loop of [generateCycloid]. *)
Definition cycloidSample (R d alpha totalAngle : R) (numPoints i : Z)
    : Cyclogon.Sample :=
  let theta := (JS.Fin (IZR i) /j JS.Fin (IZR numPoints)) *j JS.Fin totalAngle in
  let centerX := JS.Fin R *j theta in
  let centerY := JS.Fin R in
  let pointAngle := JS.Fin alpha -j theta in
  let x := centerX +j JS.Fin d *j JS.cos pointAngle in
  let y := centerY +j JS.Fin d *j JS.sin pointAngle in
  Cyclogon.mkSample x y (Cyclogon.CycloidMeta theta (mkNPoint centerX centerY)).

(** [generateCycloid(circle, drawPoint, cycles)]; [now] is the clock
    reading the new curve is stamped with. *)
Definition generateCycloid (calc : t) (now : Z) (circle : Circle.t)
    (drawPoint : Point) (cycles : R) : Cyclogon.t :=
  let cyclogon := Cyclogon.new now CurveType.CYCLOID (Some (IsCircle circle)) in
  let R := Circle.radius circle in
  let d := sqrt (px drawPoint ^ 2 + py drawPoint ^ 2) in
  let alpha := JS.Ratan2 (py drawPoint) (px drawPoint) in
  let totalAngle := cycles * MATH.TWO_PI in
  let numPoints := Zceil (totalAngle * pointsPerRadian calc) in
  let cyclogon :=
    fold_left
      (fun cyclogon i =>
         Cyclogon.addPoint cyclogon (cycloidSample R d alpha totalAngle numPoints i))
      (JS.range 0 (Z.to_nat (numPoints + 1))) cyclogon in
  Cyclogon.setMetadata cyclogon
    (<["cycles" := JS.Fin cycles]>
       (<["totalDistance" := JS.Fin (R * totalAngle)]>
          (<["drawPointDistance" := JS.Fin d]>
             (<["drawPointAngle" := JS.Fin alpha]> ∅)))).

(** [_findBottomSideIndex(polygon)]: the loop over the edge indices,
    with its state [bestIndex], [maxDot]. *)
Fixpoint _findBottomSideIndex_loop (polygon : Polygon.t) (indices : list Z)
    (bestIndex : Z) (maxDot : JS.num) : JS.result Z :=
  match indices with
  | [] => JS.Ok bestIndex
  | i :: indices =>
      match Polygon.getEdge polygon i with
      | None => JS.Throw JS.TypeError
      | Some edge =>
          let normal := Polygon.getNormal edge in
          let dot := JS.neg (ny normal) in
          if JS.gt dot maxDot
          then _findBottomSideIndex_loop polygon indices i dot
          else _findBottomSideIndex_loop polygon indices bestIndex maxDot
      end
  end.

Definition _findBottomSideIndex (polygon : Polygon.t) : JS.result Z :=
  _findBottomSideIndex_loop polygon
    (JS.range 0 (Z.to_nat (Polygon.sides polygon))) 0 JS.NInf.

(** [_getEdgeNormalAngle(polygon, edgeIndex)] *)
Definition _getEdgeNormalAngle (polygon : Polygon.t) (edgeIndex : Z)
    : JS.result JS.num :=
  match Polygon.getEdge polygon edgeIndex with
  | None => JS.Throw JS.TypeError
  | Some edge =>
      let normal := Polygon.getNormal edge in
      JS.Ok (JS.atan2 (ny normal) (nx normal))
  end.

(** [_getDistancePivotToCenter(polygon, sideIndex)] *)
Definition _getDistancePivotToCenter (polygon : Polygon.t) (sideIndex : Z) : R :=
  Polygon.radius polygon.

(** [_getCenterAngleFromPivot(polygon, sideIndex)] *)
Definition _getCenterAngleFromPivot (polygon : Polygon.t) (sideIndex : Z) : R :=
  let interiorAngle := Polygon.getInteriorAngle polygon in
  let baseAngle := MATH.HALF_PI + (PI - interiorAngle) / 2 in
  baseAngle.

(** [_rotatePoint(point, pivot, angle)] *)
Definition _rotatePoint (point pivot : NPoint) (angle : JS.num) : NPoint :=
  let cos := JS.cos angle in
  let sin := JS.sin angle in
  let dx := nx point -j nx pivot in
  let dy := ny point -j ny pivot in
  mkNPoint (nx pivot +j dx *j cos -j dy *j sin)
           (ny pivot +j dx *j sin +j dy *j cos).

(** The number of sub-samples of side [sideIndex]: the final side of a
    run with a fractional [cycles * n] gets its share only. *)
Definition pointsThisSide (calc : t) (cycles : R) (n totalSides sideIndex : Z) : Z :=
  let isLastSide := bool_decide (sideIndex = totalSides - 1)%Z in
  let fractionOfLastSide :=
    if isLastSide && negb (bool_decide (JS.mod1 (cycles * IZR n) = 0))
    then JS.mod1 (cycles * IZR n)
    else 1 in
  Zceil (pointsPerSide calc * fractionOfLastSide).

(** One pass of the inner loop of [generateCyclogon] that reaches
    [addPoint]. *)
Definition cyclogonSample (calc : t) (polygon : Polygon.t)
    (adjustedDrawPoint : NPoint) (exteriorAngle pivotX polygonRotation : R)
    (sideIndex p : Z) : Cyclogon.Sample :=
  let pivot := mkNPoint (JS.Fin pivotX) (JS.Fin 0) in
  let t := JS.Fin (IZR p) /j JS.Fin (pointsPerSide calc) in
  let localRotation := t *j JS.Fin exteriorAngle in
  let currentTotalRotation := JS.Fin polygonRotation +j localRotation in
  let centerDistance := _getDistancePivotToCenter polygon sideIndex in
  let centerAngleFromPivot := _getCenterAngleFromPivot polygon sideIndex in
  let rotatedCenterAngle := JS.Fin centerAngleFromPivot -j localRotation in
  let centerX := nx pivot +j JS.Fin centerDistance *j JS.cos rotatedCenterAngle in
  let centerY := ny pivot +j JS.Fin centerDistance *j JS.sin rotatedCenterAngle in
  let rotatedDrawPointAngle :=
    JS.atan2 (ny adjustedDrawPoint) (nx adjustedDrawPoint) -j currentTotalRotation in
  let drawPointDist :=
    JS.sqrt (sq (nx adjustedDrawPoint) +j sq (ny adjustedDrawPoint)) in
  let x := centerX +j drawPointDist *j JS.cos rotatedDrawPointAngle in
  let y := centerY +j drawPointDist *j JS.sin rotatedDrawPointAngle in
  Cyclogon.mkSample x y
    (Cyclogon.CyclogonMeta sideIndex currentTotalRotation pivot
       (mkNPoint centerX centerY)).

(** The inner loop over [p] for one side; the pass with
    [p === pointsThisSide] is skipped on every side but the last. *)
Definition sideLoop (calc : t) (polygon : Polygon.t) (adjustedDrawPoint : NPoint)
    (cycles exteriorAngle : R) (totalSides : Z)
    (cyclogon : Cyclogon.t) (pivotX polygonRotation : R) (sideIndex : Z)
    : Cyclogon.t :=
  let pointsThisSide :=
    pointsThisSide calc cycles (Polygon.sides polygon) totalSides sideIndex in
  fold_left
    (fun cyclogon p =>
       if bool_decide (p = pointsThisSide)%Z
          && bool_decide (sideIndex < totalSides - 1)%Z
       then cyclogon
       else
         Cyclogon.addPoint cyclogon
           (cyclogonSample calc polygon adjustedDrawPoint exteriorAngle
              pivotX polygonRotation sideIndex p))
    (JS.range 0 (Z.to_nat (pointsThisSide + 1))) cyclogon.

(** [generateCyclogon(polygon, drawPoint, cycles)].  The state of the
    loop over the sides is [(cyclogon, pivotX, polygonRotation)]. *)
Definition generateCyclogon (calc : t) (now : Z) (polygon : Polygon.t)
    (drawPoint : Point) (cycles : R) : JS.result Cyclogon.t :=
  let cyclogon := Cyclogon.new now CurveType.CYCLOGON (Some (IsPolygon polygon)) in
  let n := Polygon.sides polygon in
  let sideLength := Polygon.getSideLength polygon in
  let apothem := Polygon.getApothem polygon in
  let exteriorAngle := Polygon.getExteriorAngle polygon in
  bottomSideIndex ← _findBottomSideIndex polygon;
  currentNormalAngle ← _getEdgeNormalAngle polygon bottomSideIndex;
  let targetNormalAngle := - PI / 2 in
  let adjustmentRotation := JS.Fin targetNormalAngle -j currentNormalAngle in
  let adjustedDrawPoint :=
    _rotatePoint (mkNPoint (JS.Fin (px drawPoint)) (JS.Fin (py drawPoint)))
      (mkNPoint (JS.Fin 0) (JS.Fin 0)) adjustmentRotation in
  let totalSides := Zceil (cycles * IZR n) in
  let '(cyclogon, _, _) :=
    fold_left
      (fun (st : Cyclogon.t * R * R) sideIndex =>
         let '(cyclogon, pivotX, polygonRotation) := st in
         (sideLoop calc polygon adjustedDrawPoint cycles exteriorAngle
            totalSides cyclogon pivotX polygonRotation sideIndex,
          pivotX + sideLength,
          polygonRotation + exteriorAngle))
      (JS.range 0 (Z.to_nat totalSides))
      (cyclogon, sideLength, 0) in
  JS.Ok
    (Cyclogon.setMetadata cyclogon
       (<["cycles" := JS.Fin cycles]>
          (<["sides" := JS.Fin (IZR n)]>
             (<["totalDistance" := JS.Fin (IZR totalSides * sideLength)]>
                (<["sideLength" := JS.Fin sideLength]>
                   (<["exteriorAngle" := JS.Fin exteriorAngle]>
                      (<["adjustmentRotation" := adjustmentRotation]> ∅))))))).

(** [generate(shape, drawPoint, cycles)] *)
Definition generate (calc : t) (now : Z) (shape : Shape) (drawPoint : Point)
    (cycles : R) : JS.result Cyclogon.t :=
  match shape with
  | IsCircle circle => JS.Ok (generateCycloid calc now circle drawPoint cycles)
  | IsPolygon polygon => generateCyclogon calc now polygon drawPoint cycles
  | OtherShape => JS.Throw "Forma no soportada. Use Circle o Polygon."
  end.

(** [_perpendicularDistance(point, lineStart, lineEnd)] *)
Definition _perpendicularDistance (point lineStart lineEnd : Cyclogon.Sample)
    : JS.num :=
  let dx := Cyclogon.x lineEnd -j Cyclogon.x lineStart in
  let dy := Cyclogon.y lineEnd -j Cyclogon.y lineStart in
  let lengthSquared := dx *j dx +j dy *j dy in
  if JS.eq lengthSquared (JS.Fin 0) then
    JS.sqrt (sq (Cyclogon.x point -j Cyclogon.x lineStart)
             +j sq (Cyclogon.y point -j Cyclogon.y lineStart))
  else
    let t :=
      JS.max (JS.Fin 0)
        (JS.min (JS.Fin 1)
           (((Cyclogon.x point -j Cyclogon.x lineStart) *j dx
             +j (Cyclogon.y point -j Cyclogon.y lineStart) *j dy)
            /j lengthSquared)) in
    let projX := Cyclogon.x lineStart +j t *j dx in
    let projY := Cyclogon.y lineStart +j t *j dy in
    JS.sqrt (sq (Cyclogon.x point -j projX) +j sq (Cyclogon.y point -j projY)).

(** The search loop of [_douglasPeucker] over the inner indices, with its
    state [(maxDistance, maxIndex)]. *)
Definition farthest (points : list Cyclogon.Sample)
    (first last : Cyclogon.Sample) : JS.num * nat :=
  fold_left
    (fun (st : JS.num * nat) (i : nat) =>
       match points !! i with
       | Some point =>
           let distance := _perpendicularDistance point first last in
           if JS.gt distance (fst st) then (distance, i) else st
       | None => st
       end)
    (seq 1 (length points - 2)) (JS.Fin 0, 0%nat).

(** [_douglasPeucker(points, tolerance)].  The recursion runs on slices
    and need not stop (with a negative tolerance and inner points that all
    lie on the segment it calls itself on the whole array again), so the
    embedding counts the nesting of the calls down from [fuel]; [None]
    says the count ran out. *)
Fixpoint _douglasPeucker (fuel : nat) (points : list Cyclogon.Sample)
    (tolerance : JS.num) : option (list Cyclogon.Sample) :=
  match fuel with
  | O => None
  | S fuel =>
      if decide (length points < 3)%nat then Some points
      else
        match points !! 0%nat, points !! (length points - 1)%nat with
        | Some first, Some last =>
            let '(maxDistance, maxIndex) := farthest points first last in
            if JS.gt maxDistance tolerance then
              left ← _douglasPeucker fuel (take (maxIndex + 1) points) tolerance;
              right ← _douglasPeucker fuel (drop maxIndex points) tolerance;
              Some (take (length left - 1) left ++ right)
            else Some [first; last]
        | _, _ => None
        end
  end.

(** [simplify(cyclogon, tolerance)] *)
Definition simplify (fuel : nat) (cyclogon : Cyclogon.t) (tolerance : JS.num)
    : option (list Cyclogon.Sample) :=
  let points := Cyclogon.getPoints cyclogon in
  if decide (length points < 3)%nat then Some points
  else _douglasPeucker fuel points tolerance.

(** The objects [analyzeShape] returns. *)
Record AnalysisBox : Type := mkAnalysisBox {
  a_minX : JS.num;
  a_maxX : JS.num;
  a_minY : JS.num;
  a_maxY : JS.num;
  a_width : JS.num;
  a_height : JS.num
}.

Record Analysis : Type := mkAnalysis {
  boundingBox : AnalysisBox;
  arcLength : JS.num;
  pointCount : Z
}.

(** The loop of [analyzeShape]: [prev] is [points[i - 1]], missing at
    [i = 0]; the state is [(minX, maxX, minY, maxY, totalArcLength)]. *)
Fixpoint analyzeShape_loop (points : list Cyclogon.Sample)
    (prev : option Cyclogon.Sample)
    (st : JS.num * JS.num * JS.num * JS.num * JS.num)
    : JS.num * JS.num * JS.num * JS.num * JS.num :=
  match points with
  | [] => st
  | p :: points =>
      let '(minX, maxX, minY, maxY, totalArcLength) := st in
      let minX := JS.min minX (Cyclogon.x p) in
      let maxX := JS.max maxX (Cyclogon.x p) in
      let minY := JS.min minY (Cyclogon.y p) in
      let maxY := JS.max maxY (Cyclogon.y p) in
      let totalArcLength :=
        match prev with
        | Some prev =>
            totalArcLength
            +j JS.sqrt (sq (Cyclogon.x p -j Cyclogon.x prev)
                        +j sq (Cyclogon.y p -j Cyclogon.y prev))
        | None => totalArcLength
        end in
      analyzeShape_loop points (Some p) (minX, maxX, minY, maxY, totalArcLength)
  end.

(** [analyzeShape(cyclogon)]: [None] is [null]. *)
Definition analyzeShape (cyclogon : Cyclogon.t) : option Analysis :=
  let points := Cyclogon.getPoints cyclogon in
  if decide (length points < 2)%nat then None
  else
    let '(minX, maxX, minY, maxY, totalArcLength) :=
      analyzeShape_loop points None
        (JS.PInf, JS.NInf, JS.PInf, JS.NInf, JS.Fin 0) in
    Some (mkAnalysis
            (mkAnalysisBox minX maxX minY maxY (maxX -j minX) (maxY -j minY))
            totalArcLength (Z.of_nat (length points))).

End CyclogonCalculator.

(** ** Notions the properties are stated with *)

(** The number of samples side [sideIndex] contributes: the passes
    [p = 0, ..., pointsThisSide], less the skipped last one on every side
    but the final. *)
Definition sideCount (calc : CyclogonCalculator.t) (cycles : R)
    (n totalSides sideIndex : Z) : nat :=
  let pointsThisSide :=
    CyclogonCalculator.pointsThisSide calc cycles n totalSides sideIndex in
  Z.to_nat (if bool_decide (sideIndex < totalSides - 1)%Z
            then pointsThisSide else pointsThisSide + 1)%Z.

(** The samples of side [sideIndex], whose pivot sits at
    [(sideIndex + 1) * sideLength] after [sideIndex] exterior angles of
    rotation. *)
Definition sideSamples (calc : CyclogonCalculator.t) (polygon : Polygon.t)
    (adjustedDrawPoint : NPoint) (cycles : R) (totalSides sideIndex : Z)
    : list Cyclogon.Sample :=
  map (CyclogonCalculator.cyclogonSample calc polygon adjustedDrawPoint
         (Polygon.getExteriorAngle polygon)
         ((IZR sideIndex + 1) * Polygon.getSideLength polygon)
         (IZR sideIndex * Polygon.getExteriorAngle polygon)
         sideIndex)
      (JS.range 0 (sideCount calc cycles (Polygon.sides polygon) totalSides
                     sideIndex)).

(** Sample [a] was computed at a smaller finite parameter than [b]. *)
Definition param_lt (a b : Cyclogon.Sample) : Prop :=
  exists u v : R,
    Cyclogon.parameter a = Some (JS.Fin u)
    /\ Cyclogon.parameter b = Some (JS.Fin v) /\ u < v.

(** A sample with finite coordinates. *)
Definition finite_sample (s : Cyclogon.Sample) : Prop :=
  JS.is_finite (Cyclogon.x s) /\ JS.is_finite (Cyclogon.y s).

(** [a] and [b] are consecutive in [l]: a segment of the polyline [l]. *)
Definition segment_of {A : Type} (a b : A) (l : list A) : Prop :=
  exists l1 l2 : list A, l = l1 ++ a :: b :: l2.

(** The shapes of radius 1 the examples run on: the circle at the
    origin, and the triangle and the square with a vertex at the top. *)
Definition unitCircle : Circle.t := Circle.mk 1 (mkPoint 0 0).

Definition unitTriangle : Polygon.t :=
  Polygon._calculateGeometry (Polygon.mk 3 1 (- MATH.HALF_PI) [] []).

Definition unitSquare : Polygon.t :=
  Polygon._calculateGeometry (Polygon.mk 4 1 (- MATH.HALF_PI) [] []).

(** [_perpendicularDistance] on real coordinates: the distance from
    [(u, v)] to the segment from [(sx, sy)] to [(ex, ey)]. *)
Definition perpR (u v sx sy ex ey : R) : R :=
  let dx := ex - sx in
  let dy := ey - sy in
  let lengthSquared := dx * dx + dy * dy in
  if decide (lengthSquared = 0) then
    sqrt ((u - sx) * (u - sx) + (v - sy) * (v - sy))
  else
    let t := Rmax 0 (Rmin 1 (((u - sx) * dx + (v - sy) * dy) / lengthSquared)) in
    let projX := sx + t * dx in
    let projY := sy + t * dy in
    sqrt ((u - projX) * (u - projX) + (v - projY) * (v - projY)).

(** Sample [p] lies within [tolerance] of the segment from [a] to [b],
    by the program's own measure. *)
Definition within (tolerance : R) (p a b : Cyclogon.Sample) : Prop :=
  JS.le (CyclogonCalculator._perpendicularDistance p a b) (JS.Fin tolerance)
  = true.

(** [out] simplifies [points] within [tolerance]: it keeps the first and
    the last point, keeps a subsequence of the points in between, and
    every point lies within [tolerance] of a segment of [out]. *)
Definition simplifies (tolerance : R) (points out : list Cyclogon.Sample)
    : Prop :=
  exists first mid final mid',
    points = first :: mid ++ [final]
    /\ out = first :: mid' ++ [final]
    /\ mid' `sublist_of` mid
    /\ forall p, p ∈ points ->
         exists a b, segment_of a b out /\ within tolerance p a b.

(** The draw point after a sequence of method calls, the first call
    first; a call that throws ends the run. *)
Fixpoint run (ops : list DrawPoint.Op) (d : DrawPoint.t)
    : JS.result DrawPoint.t :=
  match ops with
  | [] => JS.Ok d
  | op :: ops => d ← DrawPoint.step op d; run ops d
  end.

(** A stored curve of two points, five apart. *)
Definition twoPointCurve : Cyclogon.t :=
  Cyclogon.addPoints (Cyclogon.new 0 "cycloid" None)
    [Cyclogon.mkSample (JS.Fin 0) (JS.Fin 0) Cyclogon.PlainMeta;
     Cyclogon.mkSample (JS.Fin 3) (JS.Fin 4) Cyclogon.PlainMeta].

(** The distance from a sample to [position], as [findClosestPoint]
    measures it. *)
Definition distanceTo (p : Cyclogon.Sample) (position : NPoint) : JS.num :=
  JS.sqrt (Cyclogon.pow2 (Cyclogon.x p -j nx position)
           +j Cyclogon.pow2 (Cyclogon.y p -j ny position)).

(** The vertex [_calculateGeometry] stores at index [i] of a polygon of
    [sides] sides with the given radius and rotation offset. *)
Definition vertexAt (sides : Z) (radius rotationOffset : R) (i : Z)
    : Polygon.Vertex :=
  Polygon.mkVertex
    (cos (rotationOffset + IZR i * (MATH.TWO_PI / IZR sides)) * radius)
    (sin (rotationOffset + IZR i * (MATH.TWO_PI / IZR sides)) * radius)
    (rotationOffset + IZR i * (MATH.TWO_PI / IZR sides)) i.

(** The shape a snap operation is handed. *)
Definition op_shape (op : DrawPoint.Op) : option Shape :=
  match op with
  | DrawPoint.OpSnapToPolygonEdge polygon _ _
  | DrawPoint.OpSnapToNearestPolygonEdge polygon
  | DrawPoint.OpResetToPolygonTop polygon => Some (IsPolygon polygon)
  | DrawPoint.OpSnapToCircleBorder circle _
  | DrawPoint.OpSnapToCircle circle
  | DrawPoint.OpResetToCircleTop circle => Some (IsCircle circle)
  | DrawPoint.OpSnapToShape shape | DrawPoint.OpResetToShapeTop shape =>
      Some shape
  | _ => None
  end.

(** The snap fields of [d] say where on [shape] the point sits: at the
    stored angle of the circle, or at the stored parameter of the stored
    edge of the polygon. *)
Definition snapped_on (shape : Shape) (d : DrawPoint.t) : Prop :=
  DrawPoint._isSnappedToEdge d = true
  /\ match shape with
     | IsCircle circle =>
         exists angle,
           DrawPoint._snappedAngle d = Some angle
           /\ DrawPoint._snappedEdgeIndex d = None
           /\ DrawPoint._position d = Circle.getPointOnCircle circle angle
     | IsPolygon polygon =>
         exists edgeIndex edge,
           DrawPoint._snappedEdgeIndex d = Some edgeIndex
           /\ DrawPoint._snappedAngle d = None
           /\ Polygon.getEdge polygon edgeIndex = Some edge
           /\ DrawPoint._position d
              = Polygon.getPointAt edge (DrawPoint._edgeParameter d)
     | OtherShape => False
     end.

(** The distance between two points of the plane. *)
Definition dist (a b : Point) : R :=
  sqrt ((px a - px b) ^ 2 + (py a - py b) ^ 2).

(* ================================================================== *)
(** * Part II: properties *)
(* ================================================================== *)

(** ** Reading points of a curve *)

Section CurveAccess.

Import Cyclogon.

(** An index inside the range reads the stored sample. *)
Lemma getPoint_inside (c : Cyclogon.t) (i : Z) :
  (0 <= i < pointCount c)%Z -> is_Some (getPoint c i).
Proof.
  unfold getPoint, pointCount. intros Hi.
  destruct (decide _) as [Hout | _]; [lia |].
  apply lookup_lt_is_Some. lia.
Qed.

(** C10: [getPoint] answers [null] for every index outside
    [0, pointCount): below zero or at or above the number of points.
    Hence [getFirstPoint] and [getLastPoint] answer [null] on a curve
    without points. *)
Theorem getPoint_outside_null (c : Cyclogon.t) (i : Z) :
  (i < 0 \/ pointCount c <= i)%Z ->
  getPoint c i = None
  /\ (_points c = [] -> getFirstPoint c = None /\ getLastPoint c = None).
Proof.
  intros Hout. split.
  - unfold getPoint, pointCount in *.
    destruct (decide _) as [_ | Hin]; [reflexivity | lia].
  - intros Hempty. unfold getFirstPoint, getLastPoint, getPoint.
    rewrite Hempty. simpl. split; reflexivity.
Qed.

Lemma getPoint_outside_null_witness :
  getPoint (addPoint (new 0 "cycloid" None)
              (mkSample (JS.Fin 1) (JS.Fin 2) PlainMeta)) 1 = None
  /\ getFirstPoint (new 0 "cycloid" None) = None.
Proof.
  split.
  - apply (getPoint_outside_null
             (addPoint (new 0 "cycloid" None)
                (mkSample (JS.Fin 1) (JS.Fin 2) PlainMeta)) 1).
    right. unfold pointCount. simpl. lia.
  - apply (getPoint_outside_null (new 0 "cycloid" None) 0);
      [right; unfold pointCount; simpl; lia | reflexivity].
Defined.

End CurveAccess.

(** ** The snap state of the draw point *)

Section SnapStateMachine.

Import DrawPoint.

(** The snap state is [Free] exactly when the snapped flag is off. *)
Lemma snapState_Free (d : DrawPoint.t) :
  snapState d = Free <-> _isSnappedToEdge d = false.
Proof.
  unfold snapState. destruct (_isSnappedToEdge d); [| tauto].
  destruct (_snappedAngle d); split; discriminate.
Qed.

(** Every method outside the snap and reset families leaves the four snap
    fields as they are or clears them. *)
Lemma step_other_keeps_or_clears (op : Op) (d d' : DrawPoint.t) :
  is_snap_op op = false ->
  step op d = JS.Ok d' ->
  _isSnappedToEdge d' = _isSnappedToEdge d \/ _isSnappedToEdge d' = false.
Proof.
  intros Hop Hstep. destruct op; simpl in Hop; try discriminate;
    simpl in Hstep; injection Hstep as <-.
  - left. reflexivity.
  - left. unfold set_isDragging. destruct value; reflexivity.
  - left. reflexivity.
  - left. reflexivity.
  - left. reflexivity.
  - right. reflexivity.
  - right. reflexivity.
Qed.

(** C9: whatever the snap state before, [setPosition] and [moveBy] leave
    the draw point free: the snapped flag is off, the snapped edge index
    and the snapped angle are [null] and the edge parameter is 0.  A
    successful method call that takes a free point to a snapped one is one
    of the dedicated snap operations: a [snapTo...] method or a
    [resetTo...Top] method. *)
Theorem position_write_frees_snap :
  (forall (d : DrawPoint.t) (x y : R) (immediate : bool),
      let d' := setPosition d x y immediate in
      _isSnappedToEdge d' = false /\ _snappedEdgeIndex d' = None
      /\ _snappedAngle d' = None /\ _edgeParameter d' = 0
      /\ snapState d' = Free)
  /\ (forall (d : DrawPoint.t) (dx dy : R) (immediate : bool),
      let d' := moveBy d dx dy immediate in
      _isSnappedToEdge d' = false /\ _snappedEdgeIndex d' = None
      /\ _snappedAngle d' = None /\ _edgeParameter d' = 0
      /\ snapState d' = Free)
  /\ (forall (op : Op) (d d' : DrawPoint.t),
      step op d = JS.Ok d' ->
      snapState d = Free -> snapState d' <> Free ->
      is_snap_op op = true).
Proof.
  split; [| split].
  - intros d x y immediate. simpl. repeat split.
  - intros d dx dy immediate. simpl. repeat split.
  - intros op d d' Hstep Hfree Hsnapped.
    destruct (is_snap_op op) eqn:Hop; [reflexivity | exfalso].
    apply Hsnapped. apply snapState_Free.
    apply snapState_Free in Hfree.
    destruct (step_other_keeps_or_clears op d d' Hop Hstep) as [H | H];
      congruence.
Qed.

Lemma position_write_frees_snap_witness :
  is_snap_op (OpSnapToCircleBorder unitCircle 0) = true.
Proof.
  apply (proj2 (proj2 position_write_frees_snap)
           (OpSnapToCircleBorder unitCircle 0)
           (DrawPoint.new 0 0)
           (snapToCircleBorder (DrawPoint.new 0 0) unitCircle 0)).
  - reflexivity.
  - reflexivity.
  - simpl. discriminate.
Defined.

End SnapStateMachine.

(** ** Counting loops, finite arithmetic and ceilings *)

Section Basics.

Lemma range_length (lo : Z) (n : nat) : length (JS.range lo n) = n.
Proof. unfold JS.range. rewrite length_map. apply length_seq. Qed.

Lemma range_lookup (lo : Z) (n k : nat) :
  (k < n)%nat -> JS.range lo n !! k = Some (lo + Z.of_nat k)%Z.
Proof.
  intros Hk. unfold JS.range. rewrite list_lookup_fmap.
  rewrite lookup_seq_lt by exact Hk. reflexivity.
Qed.

Lemma range_elem_of (lo : Z) (n : nat) (i : Z) :
  i ∈ JS.range lo n <-> (lo <= i < lo + Z.of_nat n)%Z.
Proof.
  unfold JS.range. rewrite list_elem_of_fmap. split.
  - intros (k & -> & Hk). apply elem_of_seq in Hk. lia.
  - intros Hi. exists (Z.to_nat (i - lo)). split; [lia |].
    apply elem_of_seq. lia.
Qed.

Lemma range_snoc (lo : Z) (n : nat) :
  JS.range lo (S n) = JS.range lo n ++ [(lo + Z.of_nat n)%Z].
Proof.
  unfold JS.range. rewrite seq_S, map_app. reflexivity.
Qed.

(** A division of finite numbers by a divisor other than zero is the
    real division. *)
Lemma div_fin (a b : R) : b <> 0 -> JS.Fin a /j JS.Fin b = JS.Fin (a / b).
Proof.
  intros Hb. unfold JS.div. destruct (decide (b = 0)); [contradiction | reflexivity].
Qed.

Lemma Zceil_pos (r : R) : 0 < r -> (1 <= Zceil r)%Z.
Proof.
  intros Hr. destruct (Zceil_bound r) as [_ Hup].
  assert (0 < IZR (Zceil r)) as H by lra.
  apply lt_IZR in H. lia.
Qed.

Lemma Zceil_nonpos (r : R) : r <= 0 -> (Zceil r <= 0)%Z.
Proof.
  intros Hr. destruct (Zceil_bound r) as [Hlow _].
  assert (IZR (Zceil r) < 1) as H by lra.
  apply lt_IZR in H. lia.
Qed.

Lemma Zceil_IZR (z : Z) : Zceil (IZR z) = z.
Proof. apply Zceil_eq. lra. Qed.

(** A curve after a loop of [addPoint] calls: only the points change. *)
Lemma with_points_id (c : Cyclogon.t) :
  Cyclogon.with_points c (Cyclogon._points c ++ []) = c.
Proof. destruct c. unfold Cyclogon.with_points. simpl. rewrite app_nil_r. reflexivity. Qed.

Lemma fold_addPoint_skip {A : Type} (f : A -> Cyclogon.Sample)
    (skip : A -> bool) (l : list A) (c : Cyclogon.t) :
  (forall a, a ∈ l -> skip a = false) ->
  fold_left (fun c a => if skip a then c else Cyclogon.addPoint c (f a)) l c
  = Cyclogon.with_points c (Cyclogon._points c ++ map f l).
Proof.
  revert c. induction l as [| a l IH]; intros c Hall; simpl.
  - symmetry. apply with_points_id.
  - rewrite (Hall a (list_elem_of_here a l)).
    rewrite IH by (intros a' Ha'; apply Hall, list_elem_of_further, Ha').
    unfold Cyclogon.addPoint, Cyclogon.with_points. simpl.
    rewrite <- app_assoc. destruct (f a); reflexivity.
Qed.

Lemma fold_addPoint {A : Type} (f : A -> Cyclogon.Sample) (l : list A)
    (c : Cyclogon.t) :
  Cyclogon._points (fold_left (fun c a => Cyclogon.addPoint c (f a)) l c)
  = Cyclogon._points c ++ map f l.
Proof.
  rewrite (fold_addPoint_skip f (fun _ => false) l c) by reflexivity.
  reflexivity.
Qed.

End Basics.

(** ** The cycloid *)

Section Cycloid.

Import Cyclogon CyclogonCalculator.

(** The samples of [generateCycloid] are the passes of its loop, in
    order. *)
Lemma generateCycloid_points (calc : CyclogonCalculator.t) (now : Z)
    (circle : Circle.t) (drawPoint : Point) (cycles : R) :
  _points (generateCycloid calc now circle drawPoint cycles)
  = map (cycloidSample (Circle.radius circle)
           (sqrt (px drawPoint ^ 2 + py drawPoint ^ 2))
           (JS.Ratan2 (py drawPoint) (px drawPoint))
           (cycles * MATH.TWO_PI)
           (Zceil (cycles * MATH.TWO_PI * pointsPerRadian calc)))
        (JS.range 0
           (Z.to_nat (Zceil (cycles * MATH.TWO_PI * pointsPerRadian calc) + 1))).
Proof.
  unfold generateCycloid, setMetadata. simpl.
  rewrite fold_addPoint. reflexivity.
Qed.

Lemma numPoints_pos (calc : CyclogonCalculator.t) (cycles : R) :
  0 < cycles -> 0 < pointsPerRadian calc ->
  (1 <= Zceil (cycles * MATH.TWO_PI * pointsPerRadian calc))%Z.
Proof.
  intros Hc Hp. apply Zceil_pos. unfold MATH.TWO_PI.
  pose proof PI_RGT_0.
  apply Rmult_lt_0_compat; [| exact Hp].
  apply Rmult_lt_0_compat; lra.
Qed.

(** With a divisor other than zero a pass of the loop computes the
    closed form at [theta = i / numPoints * totalAngle]. *)
Lemma cycloidSample_fin (R d alpha totalAngle : R) (numPoints i : Z) :
  numPoints <> 0%Z ->
  let theta := IZR i / IZR numPoints * totalAngle in
  cycloidSample R d alpha totalAngle numPoints i
  = mkSample (JS.Fin (R * theta + d * cos (alpha - theta)))
             (JS.Fin (R + d * sin (alpha - theta)))
             (CycloidMeta (JS.Fin theta) (mkNPoint (JS.Fin (R * theta)) (JS.Fin R))).
Proof.
  intros Hn. unfold cycloidSample.
  rewrite div_fin by (apply not_0_IZR; exact Hn).
  reflexivity.
Qed.

(** The trace point at the top of the unit circle. *)
Lemma top_point_polar :
  sqrt (0 ^ 2 + 1 ^ 2) = 1 /\ JS.Ratan2 1 0 = PI / 2.
Proof.
  split.
  - replace (0 ^ 2 + 1 ^ 2) with 1 by ring. apply sqrt_1.
  - unfold JS.Ratan2.
    destruct (decide (0 < 0)); [lra |].
    destruct (decide (0 < 1)); [reflexivity | lra].
Qed.

(** An approximation of [PI], good enough to count the steps of one
    cycle at the default density. *)
Lemma PI_bounds : 314 / 100 < PI < 315 / 100.
Proof.
  pose proof (PI_2_3_7_ineq 1) as [Hlow Hup].
  unfold sum_f_R0, tg_alt, PI_2_3_7_tg, Ratan_seq in Hlow, Hup.
  simpl in Hlow, Hup. lra.
Qed.

Lemma default_pointsPerRadian : pointsPerRadian CyclogonCalculator.default = 30.
Proof.
  unfold CyclogonCalculator.default, CyclogonCalculator.new. simpl.
  reflexivity.
Qed.

(** One cycle at the default density takes 189 steps. *)
Lemma default_one_cycle_steps :
  Zceil (1 * MATH.TWO_PI * pointsPerRadian CyclogonCalculator.default) = 189%Z.
Proof.
  rewrite default_pointsPerRadian. unfold MATH.TWO_PI.
  pose proof PI_bounds. apply Zceil_eq. lra.
Qed.

(** A sample of one cycle is recorded at [theta = PI] exactly when it is
    the middle one of an even number of steps. *)
Lemma half_turn_step (numPoints i : Z) :
  (1 <= numPoints)%Z ->
  IZR i / IZR numPoints * (1 * MATH.TWO_PI) = PI <-> (2 * i = numPoints)%Z.
Proof.
  intros HN. assert (0 < IZR numPoints) as HNr by (apply IZR_lt; lia).
  pose proof PI_RGT_0 as Hpi. unfold MATH.TWO_PI. split.
  - intros Heq. apply eq_IZR. rewrite mult_IZR.
    assert (IZR i / IZR numPoints * 2 = 1) as H2.
    { apply Rmult_eq_reg_r with PI; [| lra]. lra. }
    apply Rmult_eq_compat_r with (r := IZR numPoints) in H2.
    unfold Rdiv in H2.
    replace (IZR i * / IZR numPoints * 2 * IZR numPoints)
      with (2 * IZR i * (/ IZR numPoints * IZR numPoints)) in H2 by ring.
    rewrite Rinv_l in H2 by lra. lra.
  - intros <-. rewrite mult_IZR.
    assert (IZR i <> 0) by (apply not_0_IZR; lia).
    field. exact H.
Qed.

(** C1 as stated fails: one cycle of the unit circle with the trace
    point [(0, 1)], sampled at the default density, has no sample recorded
    at [theta = PI]. *)
Lemma generateCycloid_half_turn_counterexample :
  ~ exists s,
      s ∈ _points (generateCycloid CyclogonCalculator.default 0 unitCircle
                     (mkPoint 0 1) 1)
      /\ parameter s = Some (JS.Fin PI).
Proof.
  intros (s & Hs & Hpar).
  rewrite generateCycloid_points, default_one_cycle_steps in Hs.
  apply list_elem_of_fmap in Hs as (i & -> & _).
  rewrite cycloidSample_fin in Hpar by lia.
  unfold parameter in Hpar. cbn [meta] in Hpar. injection Hpar as Hpar.
  apply half_turn_step in Hpar; lia.
Qed.

(** C1, amended: with a positive cycle count (and a positive sampling
    density) every sample of [generateCycloid] records a rotation angle
    [theta] and lies at [x = R * theta + d * cos (alpha - theta)],
    [y = R + d * sin (alpha - theta)], where [d] is the distance of the
    trace point from the centre and [alpha = atan2 (p.y, p.x)].  For
    [R = 1], [p = (0, 1)] and one cycle, the first sample has [theta = 0]
    and is [(0, 2)], and a sample recorded at [theta = PI] is [(PI, 0)];
    there is such a sample exactly when the number of steps
    [ceil (totalAngle * pointsPerRadian)] is even. *)
Theorem generateCycloid_closed_form (calc : CyclogonCalculator.t) (now : Z)
    (circle : Circle.t) (drawPoint : Point) (cycles : R) :
  0 < cycles -> 0 < pointsPerRadian calc ->
  let radius := Circle.radius circle in
  let d := sqrt (px drawPoint ^ 2 + py drawPoint ^ 2) in
  let alpha := JS.Ratan2 (py drawPoint) (px drawPoint) in
  let curve := generateCycloid calc now circle drawPoint cycles in
  (forall s, s ∈ _points curve ->
     exists theta : R,
       meta s = CycloidMeta (JS.Fin theta)
                  (mkNPoint (JS.Fin (radius * theta)) (JS.Fin radius))
       /\ x s = JS.Fin (radius * theta + d * cos (alpha - theta))
       /\ y s = JS.Fin (radius + d * sin (alpha - theta)))
  /\ (radius = 1 -> drawPoint = mkPoint 0 1 -> cycles = 1 ->
      d = 1 /\ alpha = PI / 2
      /\ (exists s, _points curve !! 0%nat = Some s
                    /\ parameter s = Some (JS.Fin 0)
                    /\ x s = JS.Fin 0 /\ y s = JS.Fin 2)
      /\ (forall s, s ∈ _points curve -> parameter s = Some (JS.Fin PI) ->
             x s = JS.Fin PI /\ y s = JS.Fin 0)
      /\ ((exists s, s ∈ _points curve /\ parameter s = Some (JS.Fin PI))
          <-> Z.even (Zceil (cycles * MATH.TWO_PI * pointsPerRadian calc)) = true)).
Proof.
  intros Hc Hp radius d alpha curve.
  pose proof (numPoints_pos calc cycles Hc Hp) as HN.
  assert (Hgen : forall s, s ∈ _points curve ->
     exists theta : R,
       meta s = CycloidMeta (JS.Fin theta)
                  (mkNPoint (JS.Fin (radius * theta)) (JS.Fin radius))
       /\ x s = JS.Fin (radius * theta + d * cos (alpha - theta))
       /\ y s = JS.Fin (radius + d * sin (alpha - theta))).
  { intros s Hs. unfold curve in Hs. rewrite generateCycloid_points in Hs.
    apply list_elem_of_fmap in Hs as (i & -> & _).
    rewrite cycloidSample_fin by lia.
    eexists. repeat split. }
  split; [exact Hgen |].
  intros HR Hdp Hcy.
  destruct top_point_polar as [Hd Halpha].
  assert (d = 1) as Hd1 by (unfold d; rewrite Hdp; exact Hd).
  assert (alpha = PI / 2) as Ha1 by (unfold alpha; rewrite Hdp; exact Halpha).
  split; [exact Hd1 |]. split; [exact Ha1 |]. split; [| split].
  - exists (cycloidSample radius d alpha (cycles * MATH.TWO_PI)
              (Zceil (cycles * MATH.TWO_PI * pointsPerRadian calc)) 0).
    split.
    + unfold curve. rewrite generateCycloid_points.
      rewrite list_lookup_fmap, range_lookup by lia. reflexivity.
    + rewrite cycloidSample_fin by lia. unfold parameter. cbn [x y meta].
      rewrite HR, Hd1, Ha1.
      replace (IZR 0 / IZR (Zceil (cycles * MATH.TWO_PI * pointsPerRadian calc))
               * (cycles * MATH.TWO_PI)) with 0 by (unfold Rdiv; ring).
      replace (PI / 2 - 0) with (PI / 2) by ring.
      rewrite cos_PI2, sin_PI2.
      repeat split; repeat f_equal; ring.
  - intros s Hs Hpar. destruct (Hgen s Hs) as (theta & Hm & Hx & Hy).
    unfold parameter in Hpar. rewrite Hm in Hpar. injection Hpar as ->.
    rewrite Hx, Hy, HR, Hd1, Ha1.
    replace (PI / 2 - PI) with (- (PI / 2)) by field.
    rewrite cos_neg, sin_neg, cos_PI2, sin_PI2.
    split; f_equal; ring.
  - set (N := Zceil (cycles * MATH.TWO_PI * pointsPerRadian calc)) in *.
    split.
    + intros (s & Hs & Hpar). unfold curve in Hs.
      rewrite generateCycloid_points in Hs. fold N in Hs.
      apply list_elem_of_fmap in Hs as (i & -> & _).
      rewrite cycloidSample_fin in Hpar by lia.
      unfold parameter in Hpar. cbn [meta] in Hpar. injection Hpar as Hpar.
      rewrite Hcy in Hpar. apply half_turn_step in Hpar; [| exact HN].
      apply Z.even_spec. exists i. lia.
    + intros Heven. apply Z.even_spec in Heven as [m Hm].
      exists (cycloidSample radius d alpha (cycles * MATH.TWO_PI) N m). split.
      * unfold curve. rewrite generateCycloid_points.
        apply list_elem_of_fmap. exists m. split; [reflexivity |].
        apply range_elem_of. fold N. lia.
      * rewrite cycloidSample_fin by lia. unfold parameter. cbn [meta].
        do 2 f_equal. rewrite Hcy. apply half_turn_step; lia.
Qed.

(** The calculator [new CyclogonCalculator({pointsPerRadian: 1 / Math.PI})]. *)
Lemma custom_density_calculator :
  CyclogonCalculator.new (mkOptions None (Some (/ PI)) None)
  = CyclogonCalculator.mk 50 (/ PI) 6.
Proof.
  unfold CyclogonCalculator.new, or_default.
  cbn [opt_pointsPerSide opt_pointsPerRadian opt_precision].
  destruct (decide (/ PI = 0)) as [Hz | _]; [| reflexivity].
  pose proof (Rinv_0_lt_compat PI PI_RGT_0). lra.
Qed.

(** At a density of [1 / PI] points per radian one cycle takes two steps,
    and the middle sample is the one at [theta = PI]. *)
Lemma generateCycloid_closed_form_witness :
  exists s,
    s ∈ _points (generateCycloid
                   (CyclogonCalculator.mk 50 (/ PI) 6) 0 unitCircle
                   (mkPoint 0 1) 1)
    /\ parameter s = Some (JS.Fin PI)
    /\ x s = JS.Fin PI /\ y s = JS.Fin 0.
Proof.
  assert (H1 : 0 < 1) by lra.
  assert (Hp : 0 < pointsPerRadian (CyclogonCalculator.mk 50 (/ PI) 6))
    by (simpl; apply Rinv_0_lt_compat, PI_RGT_0).
  assert (Heven : Z.even (Zceil (1 * MATH.TWO_PI
                    * pointsPerRadian (CyclogonCalculator.mk 50 (/ PI) 6)))
                  = true).
  { simpl pointsPerRadian. unfold MATH.TWO_PI.
    replace (1 * (PI * 2) * / PI) with (IZR 2)
      by (field; apply PI_neq0).
    rewrite Zceil_IZR. reflexivity. }
  destruct (proj2 (generateCycloid_closed_form
                     (CyclogonCalculator.mk 50 (/ PI) 6) 0 unitCircle
                     (mkPoint 0 1) 1 H1 Hp) eq_refl eq_refl eq_refl)
    as (_ & _ & _ & Hat & Hex).
  destruct (proj2 Hex Heven) as (s & Hs & Hpar).
  exists s. split; [exact Hs |]. split; [exact Hpar |].
  exact (Hat s Hs Hpar).
Defined.

(** The loop of [generateCycloid] runs for [i = 0, ..., numPoints]. *)
Lemma generateCycloid_length (calc : CyclogonCalculator.t) (now : Z)
    (circle : Circle.t) (drawPoint : Point) (cycles : R) :
  length (_points (generateCycloid calc now circle drawPoint cycles))
  = Z.to_nat (Zceil (cycles * MATH.TWO_PI * pointsPerRadian calc) + 1).
Proof.
  rewrite generateCycloid_points, length_map. apply range_length.
Qed.

(** C3 as stated fails: one cycle around the unit circle at the default
    density yields 190 samples, while
    [ceil (totalAngle * pointsPerRadian)] is 189. *)
Lemma generateCycloid_count_counterexample :
  length (_points (generateCycloid CyclogonCalculator.default 0 unitCircle
                     (mkPoint 0 1) 1)) = 190%nat
  /\ Zceil (1 * MATH.TWO_PI * pointsPerRadian CyclogonCalculator.default)
     = 189%Z
  /\ Z.of_nat (length (_points (generateCycloid CyclogonCalculator.default 0
                                  unitCircle (mkPoint 0 1) 1)))
     <> Zceil (1 * MATH.TWO_PI * pointsPerRadian CyclogonCalculator.default).
Proof.
  rewrite generateCycloid_length, default_one_cycle_steps.
  split; [reflexivity |]. split; [reflexivity | discriminate].
Qed.

(** C3, amended: with a positive cycle count (and a positive sampling
    density) [generateCycloid] yields [numPoints + 1] samples, one for
    each [i] from 0 to [numPoints = ceil (totalAngle * pointsPerRadian)]
    inclusive, where [totalAngle = cycles * 2 * PI]. *)
Theorem generateCycloid_sample_count (calc : CyclogonCalculator.t) (now : Z)
    (circle : Circle.t) (drawPoint : Point) (cycles : R) :
  0 < cycles -> 0 < pointsPerRadian calc ->
  let totalAngle := cycles * MATH.TWO_PI in
  Z.of_nat (length (_points (generateCycloid calc now circle drawPoint cycles)))
  = (Zceil (totalAngle * pointsPerRadian calc) + 1)%Z.
Proof.
  intros Hc Hp totalAngle. rewrite generateCycloid_length.
  pose proof (numPoints_pos calc cycles Hc Hp). unfold totalAngle. lia.
Qed.

Lemma generateCycloid_sample_count_witness :
  Z.of_nat (length (_points (generateCycloid CyclogonCalculator.default 0
                               unitCircle (mkPoint 0 1) 1)))
  = (Zceil (1 * MATH.TWO_PI * pointsPerRadian CyclogonCalculator.default) + 1)%Z.
Proof.
  apply (generateCycloid_sample_count CyclogonCalculator.default 0
           unitCircle (mkPoint 0 1) 1).
  - lra.
  - unfold CyclogonCalculator.default, CyclogonCalculator.new. simpl.
    unfold CONFIG.CYCLOGON.POINTS_PER_RADIAN. lra.
Defined.

End Cycloid.

(** ** Polygons built by the constructor *)

Section PolygonFacts.

Lemma omap_all_Some_length {A B : Type} (f : A -> option B) (l : list A) :
  (forall a, a ∈ l -> is_Some (f a)) -> length (omap f l) = length l.
Proof.
  induction l as [| a l IH]; intros Hall; [reflexivity |].
  destruct (Hall a (list_elem_of_here a l)) as [b Hb].
  simpl. rewrite Hb. simpl. f_equal. apply IH.
  intros a' Ha'. apply Hall. apply list_elem_of_further. exact Ha'.
Qed.

(** The constructor checks its arguments, stores them and derives one
    edge per side. *)
Lemma Polygon_new_inv (n : Z) (r off : R) (polygon : Polygon.t) :
  Polygon.new n r off = JS.Ok polygon ->
  (3 <= n)%Z /\ 0 < r
  /\ Polygon.sides polygon = n /\ Polygon.radius polygon = r
  /\ Polygon.rotationOffset polygon = off
  /\ length (Polygon.vertices polygon) = Z.to_nat n
  /\ length (Polygon.edges polygon) = Z.to_nat n.
Proof.
  unfold Polygon.new.
  destruct (decide (n < 3)%Z) as [| Hn]; [discriminate |].
  destruct (decide (r <= 0)) as [| Hr]; [discriminate |].
  intros [= <-]. simpl.
  assert (Hvs : forall g : Z -> Polygon.Vertex,
             length (map g (JS.range 0 (Z.to_nat n))) = Z.to_nat n).
  { intros g. rewrite length_map. apply range_length. }
  repeat split; try lia; try lra.
  - apply Hvs.
  - rewrite omap_all_Some_length; [apply range_length |].
    intros i Hi. apply range_elem_of in Hi.
    pose proof (Z.rem_bound_pos (i + 1) n ltac:(lia) ltac:(lia)) as Hrem.
    match goal with
    | |- is_Some (?vs !! _ ≫= _) =>
        destruct (lookup_lt_is_Some_2 vs (Z.to_nat i)) as [v1 Hv1];
        [rewrite Hvs; lia |];
        destruct (lookup_lt_is_Some_2 vs (Z.to_nat (Z.rem (i + 1) n))) as [v2 Hv2];
        [rewrite Hvs; lia |]
    end.
    rewrite Hv1. simpl. rewrite Hv2. simpl. eauto.
Qed.

Lemma normalizedIndex_bounds (polygon : Polygon.t) (index : Z) :
  (0 < Polygon.sides polygon)%Z ->
  (0 <= Polygon.normalizedIndex polygon index < Polygon.sides polygon)%Z.
Proof.
  intros Hn. unfold Polygon.normalizedIndex.
  pose proof (Z.rem_bound_abs index (Polygon.sides polygon) ltac:(lia)).
  apply Z.rem_bound_pos; lia.
Qed.

(** A constructed polygon has an edge at every index. *)
Lemma getEdge_is_Some (n : Z) (r off : R) (polygon : Polygon.t) (index : Z) :
  Polygon.new n r off = JS.Ok polygon ->
  is_Some (Polygon.getEdge polygon index).
Proof.
  intros Hnew.
  destruct (Polygon_new_inv n r off polygon Hnew)
    as (Hn & _ & Hs & _ & _ & _ & He).
  unfold Polygon.getEdge. apply lookup_lt_is_Some.
  pose proof (normalizedIndex_bounds polygon index ltac:(lia)). lia.
Qed.

Lemma exteriorAngle_pos (n : Z) (r off : R) (polygon : Polygon.t) :
  Polygon.new n r off = JS.Ok polygon ->
  0 < Polygon.getExteriorAngle polygon.
Proof.
  intros Hnew.
  destruct (Polygon_new_inv n r off polygon Hnew) as (Hn & _ & Hs & _).
  unfold Polygon.getExteriorAngle, MATH.TWO_PI. rewrite Hs.
  assert (0 < IZR n) by (apply IZR_lt; lia).
  pose proof PI_RGT_0.
  apply Rdiv_lt_0_compat; lra.
Qed.

End PolygonFacts.

(** ** The cyclogon *)

Section CyclogonCurve.

Import Cyclogon CyclogonCalculator.

(** The inner loop adds the samples of its side, in order, and touches
    nothing else. *)
Lemma sideLoop_points (calc : CyclogonCalculator.t) (polygon : Polygon.t)
    (adj : NPoint) (cycles : R) (totalSides : Z) (cyclogon : Cyclogon.t)
    (pivotX polygonRotation : R) (sideIndex : Z) :
  sideLoop calc polygon adj cycles (Polygon.getExteriorAngle polygon)
    totalSides cyclogon pivotX polygonRotation sideIndex
  = with_points cyclogon
      (_points cyclogon
       ++ map (cyclogonSample calc polygon adj (Polygon.getExteriorAngle polygon)
                 pivotX polygonRotation sideIndex)
            (JS.range 0 (sideCount calc cycles (Polygon.sides polygon)
                           totalSides sideIndex))).
Proof.
  unfold sideLoop, sideCount.
  set (P := pointsThisSide calc cycles (Polygon.sides polygon) totalSides sideIndex).
  destruct (bool_decide (sideIndex < totalSides - 1)%Z) eqn:Hlast.
  - destruct (decide (P < 0)%Z) as [Hneg | Hpos].
    + replace (Z.to_nat (P + 1)) with 0%nat by lia.
      replace (Z.to_nat P) with 0%nat by lia.
      simpl. symmetry. apply with_points_id.
    + replace (Z.to_nat (P + 1)) with (S (Z.to_nat P)) by lia.
      rewrite range_snoc, fold_left_app. cbn [fold_left].
      rewrite (bool_decide_true (_ = P)) by lia. cbn [andb].
      rewrite (fold_addPoint_skip _
                 (fun p => bool_decide (p = P) && true)).
      * reflexivity.
      * intros p Hp. apply range_elem_of in Hp.
        rewrite bool_decide_false by lia. reflexivity.
  - rewrite (fold_addPoint_skip _ (fun p => bool_decide (p = P) && false)).
    + reflexivity.
    + intros p _. apply andb_false_r.
Qed.

(** The loop over the sides: after [k] sides the pivot sits at
    [(k + 1) * sideLength], the polygon has turned by [k] exterior angles
    and the curve holds the samples of the sides [0, ..., k - 1]. *)
Lemma sides_fold (calc : CyclogonCalculator.t) (polygon : Polygon.t)
    (adj : NPoint) (cycles : R) (totalSides : Z) (cyclogon : Cyclogon.t)
    (k : nat) :
  fold_left
    (fun (st : Cyclogon.t * R * R) sideIndex =>
       let '(cyclogon, pivotX, polygonRotation) := st in
       (sideLoop calc polygon adj cycles (Polygon.getExteriorAngle polygon)
          totalSides cyclogon pivotX polygonRotation sideIndex,
        pivotX + Polygon.getSideLength polygon,
        polygonRotation + Polygon.getExteriorAngle polygon))
    (JS.range 0 k)
    (cyclogon, Polygon.getSideLength polygon, 0)
  = (with_points cyclogon
       (_points cyclogon
        ++ flat_map (sideSamples calc polygon adj cycles totalSides) (JS.range 0 k)),
     (IZR (Z.of_nat k) + 1) * Polygon.getSideLength polygon,
     IZR (Z.of_nat k) * Polygon.getExteriorAngle polygon).
Proof.
  induction k as [| k IH].
  - simpl. rewrite with_points_id. repeat f_equal; ring.
  - rewrite range_snoc, fold_left_app, IH. simpl fold_left.
    rewrite sideLoop_points. rewrite Z.add_0_l.
    rewrite flat_map_app. simpl flat_map. rewrite app_nil_r.
    unfold with_points at 1 2. simpl _points.
    rewrite <- app_assoc. unfold sideSamples at 3.
    rewrite Nat2Z.inj_succ, succ_IZR.
    repeat f_equal; ring.
Qed.

Lemma _findBottomSideIndex_loop_ok (polygon : Polygon.t) (indices : list Z)
    (bestIndex : Z) (maxDot : JS.num) :
  (forall i, is_Some (Polygon.getEdge polygon i)) ->
  exists k, _findBottomSideIndex_loop polygon indices bestIndex maxDot = JS.Ok k.
Proof.
  intros Hedges. revert bestIndex maxDot.
  induction indices as [| i indices IH]; intros bestIndex maxDot; simpl.
  - eauto.
  - destruct (Hedges i) as [edge ->].
    destruct (JS.gt _ _); apply IH.
Qed.

(** On a constructed polygon [generateCyclogon] returns a curve: the
    samples of the sides [0, ..., totalSides - 1] one after the other,
    with the metadata of the run. *)
Lemma generateCyclogon_ok (calc : CyclogonCalculator.t) (now : Z) (n : Z)
    (r off : R) (polygon : Polygon.t) (drawPoint : Point) (cycles : R) :
  Polygon.new n r off = JS.Ok polygon ->
  let totalSides := Zceil (cycles * IZR (Polygon.sides polygon)) in
  exists (adj : NPoint) (adjustmentRotation : JS.num),
    generateCyclogon calc now polygon drawPoint cycles
    = JS.Ok
        (Cyclogon.mk CurveType.CYCLOGON (Some (IsPolygon polygon))
           (flat_map (sideSamples calc polygon adj cycles totalSides)
              (JS.range 0 (Z.to_nat totalSides)))
           (<["cycles" := JS.Fin cycles]>
              (<["sides" := JS.Fin (IZR (Polygon.sides polygon))]>
                 (<["totalDistance" :=
                      JS.Fin (IZR totalSides * Polygon.getSideLength polygon)]>
                    (<["sideLength" := JS.Fin (Polygon.getSideLength polygon)]>
                       (<["exteriorAngle" :=
                            JS.Fin (Polygon.getExteriorAngle polygon)]>
                          (<["adjustmentRotation" := adjustmentRotation]> ∅)))))
            ∪ ∅)
           now).
Proof.
  intros Hnew totalSides.
  assert (Hedges : forall i, is_Some (Polygon.getEdge polygon i))
    by (intros i; exact (getEdge_is_Some n r off polygon i Hnew)).
  unfold generateCyclogon, _findBottomSideIndex, _getEdgeNormalAngle.
  destruct (_findBottomSideIndex_loop_ok polygon
              (JS.range 0 (Z.to_nat (Polygon.sides polygon))) 0 JS.NInf Hedges)
    as [bottom ->].
  cbn [mbind result_bind JS.bind].
  destruct (Hedges bottom) as [edge ->].
  cbn [mbind result_bind JS.bind].
  rewrite sides_fold.
  eexists _, _. unfold setMetadata, new, with_points. simpl. reflexivity.
Qed.

(** The triangle and the square of radius 1 with a vertex at the top, as
    the constructor builds them. *)
Lemma triangle_new :
  Polygon.new 3 1 (- MATH.HALF_PI)
  = JS.Ok unitTriangle.
Proof.
  unfold Polygon.new.
  destruct (decide (3 < 3)%Z); [lia |].
  destruct (decide (1 <= 0)); [lra | reflexivity].
Qed.

Lemma square_new :
  Polygon.new 4 1 (- MATH.HALF_PI)
  = JS.Ok unitSquare.
Proof.
  unfold Polygon.new.
  destruct (decide (4 < 3)%Z); [lia |].
  destruct (decide (1 <= 0)); [lra | reflexivity].
Qed.

(** C5: for a polygon with [n >= 3] sides and a positive radius, as the
    constructor accepts it, and a positive whole number [k] of cycles,
    [generateCyclogon] returns a curve whose metadata [totalDistance] is
    [k * n * sideLength] with [sideLength = 2 * radius * sin (PI / n)]. *)
Theorem generateCyclogon_totalDistance (calc : CyclogonCalculator.t) (now : Z)
    (n : Z) (r off : R) (polygon : Polygon.t) (drawPoint : Point) (k : Z) :
  Polygon.new n r off = JS.Ok polygon ->
  (0 < k)%Z ->
  let sideLength := 2 * r * sin (PI / IZR n) in
  Polygon.getSideLength polygon = sideLength
  /\ exists curve,
      generateCyclogon calc now polygon drawPoint (IZR k) = JS.Ok curve
      /\ getMetadataValue curve "totalDistance"
         = Some (JS.Fin (IZR k * IZR n * sideLength)).
Proof.
  intros Hnew Hk sideLength.
  destruct (Polygon_new_inv n r off polygon Hnew)
    as (Hn & Hr & Hs & Hrad & _).
  assert (HL : Polygon.getSideLength polygon = sideLength).
  { unfold Polygon.getSideLength, sideLength. rewrite Hs, Hrad. reflexivity. }
  split; [exact HL |].
  destruct (generateCyclogon_ok calc now n r off polygon drawPoint (IZR k) Hnew)
    as (adj & rot & ->).
  eexists. split; [reflexivity |].
  unfold getMetadataValue. cbn [_metadata].
  rewrite (right_id_L ∅ (∪)).
  rewrite lookup_insert_ne by discriminate.
  rewrite lookup_insert_ne by discriminate.
  rewrite lookup_insert_eq.
  rewrite Hs, HL, <- mult_IZR, Zceil_IZR. reflexivity.
Qed.

Lemma generateCyclogon_totalDistance_witness :
  exists curve,
    generateCyclogon CyclogonCalculator.default 0 unitTriangle
      (mkPoint 0 1) (IZR 2) = JS.Ok curve
    /\ getMetadataValue curve "totalDistance"
       = Some (JS.Fin (IZR 2 * IZR 3 * (2 * 1 * sin (PI / IZR 3)))).
Proof.
  apply (generateCyclogon_totalDistance CyclogonCalculator.default 0 3 1
           (- MATH.HALF_PI) _ (mkPoint 0 1) 2 triangle_new).
  lia.
Defined.

(** With a density other than zero a pass of the inner loop records the
    side, the rotation [polygonRotation + p / pointsPerSide * exteriorAngle]
    and the pivot [(pivotX, 0)]. *)
Lemma cyclogonSample_meta (calc : CyclogonCalculator.t) (polygon : Polygon.t)
    (adj : NPoint) (exteriorAngle pivotX polygonRotation : R) (sideIndex p : Z) :
  pointsPerSide calc <> 0 ->
  exists center,
    meta (cyclogonSample calc polygon adj exteriorAngle pivotX polygonRotation
            sideIndex p)
    = CyclogonMeta sideIndex
        (JS.Fin (polygonRotation + IZR p / pointsPerSide calc * exteriorAngle))
        (mkNPoint (JS.Fin pivotX) (JS.Fin 0)) center.
Proof.
  intros Hpps. unfold cyclogonSample. rewrite div_fin by exact Hpps.
  eexists. reflexivity.
Qed.

(** The fractional part of a positive number lies in [0, 1). *)
Lemma mod1_bounds (r : R) : 0 <= r -> 0 <= JS.mod1 r < 1.
Proof.
  intros Hr. unfold JS.mod1, JS.Rtrunc.
  destruct (decide (r < 0)); [lra |].
  pose proof (Zfloor_bound r). lra.
Qed.

Lemma pointsThisSide_pos (calc : CyclogonCalculator.t) (cycles : R)
    (n totalSides sideIndex : Z) :
  0 < pointsPerSide calc -> 0 <= cycles * IZR n ->
  (1 <= pointsThisSide calc cycles n totalSides sideIndex)%Z.
Proof.
  intros Hpps Hc. unfold pointsThisSide. apply Zceil_pos.
  pose proof (mod1_bounds (cycles * IZR n) Hc) as Hm.
  destruct (bool_decide (sideIndex = totalSides - 1)%Z); cbn [andb];
    [| lra].
  case_bool_decide as Hz; cbn [negb]; [lra |].
  apply Rmult_lt_0_compat; lra.
Qed.

(** The last sample of a run with at least one side: the final pass of
    the final side. *)
Lemma cyclogon_last_sample (calc : CyclogonCalculator.t) (now : Z) (n : Z)
    (r off : R) (polygon : Polygon.t) (drawPoint : Point) (cycles : R) :
  Polygon.new n r off = JS.Ok polygon ->
  0 < pointsPerSide calc -> 0 < cycles ->
  let totalSides := Zceil (cycles * IZR n) in
  let pointsLastSide := pointsThisSide calc cycles n totalSides (totalSides - 1) in
  (1 <= totalSides)%Z /\ (1 <= pointsLastSide)%Z
  /\ exists curve s center,
      generateCyclogon calc now polygon drawPoint cycles = JS.Ok curve
      /\ last (_points curve) = Some s
      /\ meta s
         = CyclogonMeta (totalSides - 1)
             (JS.Fin (IZR (totalSides - 1) * Polygon.getExteriorAngle polygon
                      + IZR pointsLastSide / pointsPerSide calc
                        * Polygon.getExteriorAngle polygon))
             (mkNPoint
                (JS.Fin ((IZR (totalSides - 1) + 1) * Polygon.getSideLength polygon))
                (JS.Fin 0))
             center.
Proof.
  intros Hnew Hpps Hc N P.
  destruct (Polygon_new_inv n r off polygon Hnew) as (Hn & _ & Hs & _).
  assert (0 < cycles * IZR n) as Hcn.
  { apply Rmult_lt_0_compat; [exact Hc | apply IZR_lt; lia]. }
  assert (1 <= N)%Z as HN by (apply Zceil_pos; exact Hcn).
  assert (1 <= P)%Z as HP by (apply pointsThisSide_pos; lra).
  split; [exact HN |]. split; [exact HP |].
  destruct (generateCyclogon_ok calc now n r off polygon drawPoint cycles Hnew)
    as (adj & rot & ->).
  rewrite Hs. fold N.
  destruct (cyclogonSample_meta calc polygon adj
              (Polygon.getExteriorAngle polygon)
              ((IZR (N - 1) + 1) * Polygon.getSideLength polygon)
              (IZR (N - 1) * Polygon.getExteriorAngle polygon) (N - 1) P
              ltac:(lra)) as [center Hmeta].
  eexists _, _, center. split; [reflexivity |]. split; [| exact Hmeta].
  cbn [_points].
  replace (Z.to_nat N) with (S (Z.to_nat (N - 1))) by lia.
  rewrite range_snoc, flat_map_app. cbn [flat_map]. rewrite app_nil_r.
  replace (0 + Z.of_nat (Z.to_nat (N - 1)))%Z with (N - 1)%Z by lia.
  unfold sideSamples at 2. unfold sideCount.
  rewrite bool_decide_false by lia. rewrite Hs. fold P.
  replace (Z.to_nat (P + 1)) with (S (Z.to_nat P)) by lia.
  rewrite range_snoc, map_app, app_assoc. cbn [map].
  rewrite last_snoc.
  replace (0 + Z.of_nat (Z.to_nat P))%Z with P by lia.
  reflexivity.
Qed.

(** One and a half cycles of a square are six whole sides; one cycle and
    an eighth are four sides and a half. *)
Lemma square_six_sides :
  Zceil (3 / 2 * IZR 4) = 6%Z /\ JS.mod1 (3 / 2 * IZR 4) = 0.
Proof.
  split.
  - apply Zceil_eq. lra.
  - unfold JS.mod1, JS.Rtrunc.
    destruct (decide (3 / 2 * IZR 4 < 0)); [lra |].
    rewrite (Zfloor_eq 6) by lra. lra.
Qed.

Lemma square_four_sides_and_a_half :
  Zceil (9 / 8 * IZR 4) = 5%Z /\ JS.mod1 (9 / 8 * IZR 4) = 1 / 2.
Proof.
  split.
  - apply Zceil_eq. lra.
  - unfold JS.mod1, JS.Rtrunc.
    destruct (decide (9 / 8 * IZR 4 < 0)); [lra |].
    rewrite (Zfloor_eq 4) by lra. lra.
Qed.

Lemma square_six_sides_points (calc : CyclogonCalculator.t) :
  pointsPerSide calc = 50 ->
  pointsThisSide calc (3 / 2) 4 6 5 = 50%Z.
Proof.
  intros Hpps. unfold pointsThisSide.
  rewrite (proj2 square_six_sides), Hpps.
  rewrite (bool_decide_true (0 = 0)) by reflexivity.
  rewrite andb_false_r. apply Zceil_eq. lra.
Qed.

Lemma square_half_side_points (calc : CyclogonCalculator.t) :
  pointsPerSide calc = 50 ->
  pointsThisSide calc (9 / 8) 4 5 4 = 25%Z.
Proof.
  intros Hpps. unfold pointsThisSide.
  rewrite (proj2 square_four_sides_and_a_half), Hpps.
  rewrite (bool_decide_true (4 = 5 - 1)%Z) by lia.
  rewrite (bool_decide_false (1 / 2 = 0)) by lra.
  cbn [andb negb]. apply Zceil_eq. lra.
Qed.

Lemma default_pointsPerSide : pointsPerSide CyclogonCalculator.default = 50.
Proof.
  unfold CyclogonCalculator.default, CyclogonCalculator.new. simpl.
  reflexivity.
Qed.

(** C4 as stated fails: on the unit square with one and a half cycles the
    final side is not scaled down and the last sample has swept the whole
    exterior angle around its pivot, not half of it. *)
Lemma square_final_side_counterexample :
  let beta := Polygon.getExteriorAngle unitSquare in
  exists curve s rotation pivot center,
    generateCyclogon CyclogonCalculator.default 0 unitSquare (mkPoint 0 1) (3 / 2)
    = JS.Ok curve
    /\ last (_points curve) = Some s
    /\ meta s = CyclogonMeta 5 (JS.Fin rotation) pivot center
    /\ pointsThisSide CyclogonCalculator.default (3 / 2) 4 6 5
       = Zceil (pointsPerSide CyclogonCalculator.default * 1)
    /\ rotation - 5 * beta = beta
    /\ rotation - 5 * beta <> beta / 2.
Proof.
  intros beta.
  pose proof (exteriorAngle_pos 4 1 (- MATH.HALF_PI) unitSquare square_new)
    as Hbeta. fold beta in Hbeta.
  pose proof (square_six_sides_points CyclogonCalculator.default
                default_pointsPerSide) as HP.
  destruct (cyclogon_last_sample CyclogonCalculator.default 0 4 1
              (- MATH.HALF_PI) unitSquare (mkPoint 0 1) (3 / 2) square_new)
    as (_ & _ & curve & s & center & Hgen & Hlast & Hmeta).
  { rewrite default_pointsPerSide. lra. }
  { lra. }
  rewrite (proj1 square_six_sides) in Hmeta.
  change (6 - 1)%Z with 5%Z in Hmeta.
  rewrite HP, default_pointsPerSide in Hmeta. fold beta in Hmeta.
  eexists curve, s, _, _, center.
  split; [exact Hgen |]. split; [exact Hlast |]. split; [exact Hmeta |].
  split.
  { rewrite HP, default_pointsPerSide. symmetry. apply Zceil_eq. lra. }
  split; lra.
Qed.

(** C4, amended: on a square with the default 50 points per side, one and
    a half cycles are six whole sides ([cycles * n = 6] has no fractional
    part), so the final side gets all its 50 sub-samples and the last
    sample has swept the whole exterior angle around the pivot at
    [6 * sideLength].  A final partial arc comes with a fractional
    [cycles * n]: with [cycles = 9 / 8] the fifth side is the final one,
    its sub-samples are scaled by the fractional part [1 / 2] to 25, and
    the last sample has swept half the exterior angle around the pivot at
    [5 * sideLength]. *)
Theorem generateCyclogon_square_final_side (calc : CyclogonCalculator.t)
    (now : Z) (r off : R) (polygon : Polygon.t) (drawPoint : Point) :
  Polygon.new 4 r off = JS.Ok polygon ->
  pointsPerSide calc = 50 ->
  let beta := Polygon.getExteriorAngle polygon in
  let sideLength := Polygon.getSideLength polygon in
  (JS.mod1 (3 / 2 * IZR 4) = 0
   /\ pointsThisSide calc (3 / 2) 4 6 5 = 50%Z
   /\ exists curve s center,
       generateCyclogon calc now polygon drawPoint (3 / 2) = JS.Ok curve
       /\ last (_points curve) = Some s
       /\ meta s = CyclogonMeta 5 (JS.Fin (5 * beta + beta))
                     (mkNPoint (JS.Fin (6 * sideLength)) (JS.Fin 0)) center)
  /\ (JS.mod1 (9 / 8 * IZR 4) = 1 / 2
      /\ pointsThisSide calc (9 / 8) 4 5 4 = 25%Z
      /\ exists curve s center,
          generateCyclogon calc now polygon drawPoint (9 / 8) = JS.Ok curve
          /\ last (_points curve) = Some s
          /\ meta s = CyclogonMeta 4 (JS.Fin (4 * beta + beta / 2))
                        (mkNPoint (JS.Fin (5 * sideLength)) (JS.Fin 0)) center).
Proof.
  intros Hnew Hpps beta sideLength. split.
  - split; [exact (proj2 square_six_sides) |].
    split; [exact (square_six_sides_points calc Hpps) |].
    destruct (cyclogon_last_sample calc now 4 r off polygon drawPoint (3 / 2) Hnew)
      as (_ & _ & curve & s & center & Hgen & Hlast & Hmeta); [lra | lra |].
    rewrite (proj1 square_six_sides) in Hmeta.
    change (6 - 1)%Z with 5%Z in Hmeta.
    rewrite (square_six_sides_points calc Hpps), Hpps in Hmeta.
    fold beta sideLength in Hmeta.
    exists curve, s, center.
    split; [exact Hgen |]. split; [exact Hlast |].
    rewrite Hmeta. repeat f_equal; lra.
  - split; [exact (proj2 square_four_sides_and_a_half) |].
    split; [exact (square_half_side_points calc Hpps) |].
    destruct (cyclogon_last_sample calc now 4 r off polygon drawPoint (9 / 8) Hnew)
      as (_ & _ & curve & s & center & Hgen & Hlast & Hmeta); [lra | lra |].
    rewrite (proj1 square_four_sides_and_a_half) in Hmeta.
    change (5 - 1)%Z with 4%Z in Hmeta.
    rewrite (square_half_side_points calc Hpps), Hpps in Hmeta.
    fold beta sideLength in Hmeta.
    exists curve, s, center.
    split; [exact Hgen |]. split; [exact Hlast |].
    rewrite Hmeta. repeat f_equal; lra.
Qed.

Lemma generateCyclogon_square_final_side_witness :
  exists curve s center,
    generateCyclogon CyclogonCalculator.default 0 unitSquare (mkPoint 0 1) (9 / 8)
    = JS.Ok curve
    /\ last (_points curve) = Some s
    /\ meta s
       = CyclogonMeta 4
           (JS.Fin (4 * Polygon.getExteriorAngle unitSquare
                    + Polygon.getExteriorAngle unitSquare / 2))
           (mkNPoint (JS.Fin (5 * Polygon.getSideLength unitSquare)) (JS.Fin 0))
           center.
Proof.
  exact (proj2 (proj2 (proj2
           (generateCyclogon_square_final_side CyclogonCalculator.default 0 1
              (- MATH.HALF_PI) unitSquare (mkPoint 0 1) square_new
              default_pointsPerSide)))).
Defined.

End CyclogonCurve.

(** ** Cycle counts that are not positive *)

Section CycleCount.

Import Cyclogon CyclogonCalculator.

(** C2 as stated fails: with zero cycles [generate] raises nothing; on the
    unit circle it returns a curve holding one sample, on the unit square
    a curve. *)
Lemma generate_zero_cycles_counterexample :
  (exists curve,
      generate CyclogonCalculator.default 0 (IsCircle unitCircle) (mkPoint 0 1) 0
      = JS.Ok curve
      /\ length (_points curve) = 1%nat)
  /\ (exists curve,
      generate CyclogonCalculator.default 0 (IsPolygon unitSquare) (mkPoint 0 1) 0
      = JS.Ok curve)
  /\ (forall msg,
      generate CyclogonCalculator.default 0 (IsCircle unitCircle) (mkPoint 0 1) 0
      <> JS.Throw msg).
Proof.
  split; [| split; [| discriminate]].
  - eexists. split; [reflexivity |].
    rewrite generateCycloid_length.
    replace (0 * MATH.TWO_PI * pointsPerRadian CyclogonCalculator.default)
      with (IZR 0) by ring.
    rewrite Zceil_IZR. reflexivity.
  - destruct (generateCyclogon_ok CyclogonCalculator.default 0 4 1
                (- MATH.HALF_PI) unitSquare (mkPoint 0 1) 0 square_new)
      as (adj & rot & Hgen).
    eexists. exact Hgen.
Qed.

(** C2, amended: [generate] does not check the cycle count.  For a cycle
    count of zero or less it raises no error on a circle or on a polygon
    the constructor built, and returns a curve: on a polygon a curve
    without points, on a circle (with a positive sampling density) a curve
    of at most one sample. *)
Theorem generate_nonpositive_cycles (calc : CyclogonCalculator.t) (now : Z)
    (drawPoint : Point) (cycles : R) :
  cycles <= 0 ->
  (forall circle,
      exists curve,
        generate calc now (IsCircle circle) drawPoint cycles = JS.Ok curve
        /\ (0 < pointsPerRadian calc -> (length (_points curve) <= 1)%nat))
  /\ (forall n r off polygon,
      Polygon.new n r off = JS.Ok polygon ->
      exists curve,
        generate calc now (IsPolygon polygon) drawPoint cycles = JS.Ok curve
        /\ _points curve = []).
Proof.
  intros Hc. split.
  - intros circle. eexists. split; [reflexivity |].
    intros Hp. rewrite generateCycloid_length.
    assert (Zceil (cycles * MATH.TWO_PI * pointsPerRadian calc) <= 0)%Z; [| lia].
    apply Zceil_nonpos. unfold MATH.TWO_PI. pose proof PI_RGT_0.
    assert (0 <= - cycles * (PI * 2) * pointsPerRadian calc); [| lra].
    apply Rmult_le_pos; [| lra]. apply Rmult_le_pos; lra.
  - intros n r off polygon Hnew. cbn [generate].
    destruct (generateCyclogon_ok calc now n r off polygon drawPoint cycles Hnew)
      as (adj & rot & ->).
    eexists. split; [reflexivity |]. cbn [_points].
    destruct (Polygon_new_inv n r off polygon Hnew) as (Hn & _ & Hs & _).
    assert (Zceil (cycles * IZR (Polygon.sides polygon)) <= 0)%Z as HN.
    { apply Zceil_nonpos. rewrite Hs.
      assert (0 < IZR n) by (apply IZR_lt; lia).
      assert (0 <= - cycles * IZR n); [| lra].
      apply Rmult_le_pos; lra. }
    replace (Z.to_nat (Zceil (cycles * IZR (Polygon.sides polygon)))) with 0%nat
      by lia.
    reflexivity.
Qed.

Lemma generate_nonpositive_cycles_witness :
  exists curve,
    generate CyclogonCalculator.default 0 (IsPolygon unitSquare) (mkPoint 0 1) (-1)
    = JS.Ok curve
    /\ _points curve = [].
Proof.
  assert (H : -1 <= 0) by lra.
  exact (proj2 (generate_nonpositive_cycles CyclogonCalculator.default 0
                  (mkPoint 0 1) (-1) H)
           4%Z 1 (- MATH.HALF_PI) unitSquare square_new).
Defined.

End CycleCount.

(** ** Parametric order of the samples *)

Section ParametricOrder.

Import Cyclogon CyclogonCalculator.

Lemma StronglySorted_app {A : Type} (R : A -> A -> Prop) (l1 l2 : list A) :
  StronglySorted R l1 -> StronglySorted R l2 ->
  (forall a b, a ∈ l1 -> b ∈ l2 -> R a b) ->
  StronglySorted R (l1 ++ l2).
Proof.
  induction l1 as [| a l1 IH]; intros H1 H2 Hcross; [exact H2 |].
  apply StronglySorted_inv in H1 as [H1 Ha].
  simpl. constructor.
  - apply IH; [exact H1 | exact H2 |].
    intros a' b Ha' Hb. apply Hcross; [right; exact Ha' | exact Hb].
  - apply Forall_app. split; [exact Ha |].
    apply Forall_forall. intros b Hb.
    apply Hcross; [left | exact Hb].
Qed.

(** The passes of a counting loop are sorted when later passes yield
    larger values. *)
Lemma StronglySorted_map_range {A : Type} (R : A -> A -> Prop) (g : Z -> A)
    (lo : Z) (n : nat) :
  (forall i j, (lo <= i < j)%Z -> (j < lo + Z.of_nat n)%Z -> R (g i) (g j)) ->
  StronglySorted R (map g (JS.range lo n)).
Proof.
  induction n as [| n IH]; intros Hmono; [constructor |].
  rewrite range_snoc, map_app. apply StronglySorted_app.
  - apply IH. intros i j Hij Hj. apply Hmono; lia.
  - repeat constructor.
  - intros a b Ha Hb.
    apply list_elem_of_fmap in Ha as (i & -> & Hi).
    apply range_elem_of in Hi.
    apply list_elem_of_singleton in Hb as ->.
    apply Hmono; lia.
Qed.

(** The rotation angles of a cycloid grow from sample to sample. *)
Lemma generateCycloid_sorted (calc : CyclogonCalculator.t) (now : Z)
    (circle : Circle.t) (drawPoint : Point) (cycles : R) :
  0 < pointsPerRadian calc ->
  StronglySorted param_lt
    (_points (generateCycloid calc now circle drawPoint cycles)).
Proof.
  intros Hp. rewrite generateCycloid_points.
  set (N := Zceil (cycles * MATH.TWO_PI * pointsPerRadian calc)).
  apply StronglySorted_map_range. intros i j Hij Hj.
  assert (1 <= N)%Z as HN by lia.
  assert (0 < cycles * MATH.TWO_PI) as HT.
  { destruct (Zceil_bound (cycles * MATH.TWO_PI * pointsPerRadian calc))
      as [Hlow _]. fold N in Hlow.
    assert (1 <= IZR N) by (apply IZR_le; exact HN).
    assert (0 < cycles * MATH.TWO_PI * pointsPerRadian calc) as Hprod by lra.
    destruct (Rle_or_lt (cycles * MATH.TWO_PI) 0) as [Hneg | Hpos];
      [| exact Hpos].
    exfalso.
    assert (0 <= - (cycles * MATH.TWO_PI) * pointsPerRadian calc)
      by (apply Rmult_le_pos; lra).
    lra. }
  rewrite !cycloidSample_fin by lia.
  unfold param_lt, parameter. cbn [meta].
  eexists _, _. split; [reflexivity |]. split; [reflexivity |].
  assert (0 < IZR N) by (apply IZR_lt; lia).
  assert (IZR i < IZR j) by (apply IZR_lt; lia).
  apply Rmult_lt_compat_r; [exact HT |].
  apply Rmult_lt_compat_r; [apply Rinv_0_lt_compat; assumption | assumption].
Qed.

(** A sample of side [sideIndex] records the rotation of pass [p]. *)
Lemma sideSamples_elem_of (calc : CyclogonCalculator.t) (polygon : Polygon.t)
    (adj : NPoint) (cycles : R) (totalSides sideIndex : Z) (a : Sample) :
  pointsPerSide calc <> 0 ->
  a ∈ sideSamples calc polygon adj cycles totalSides sideIndex ->
  exists p : Z,
    (0 <= p < Z.of_nat (sideCount calc cycles (Polygon.sides polygon)
                          totalSides sideIndex))%Z
    /\ parameter a
       = Some (JS.Fin (IZR sideIndex * Polygon.getExteriorAngle polygon
                       + IZR p / pointsPerSide calc
                         * Polygon.getExteriorAngle polygon)).
Proof.
  intros Hpps Ha. unfold sideSamples in Ha.
  apply list_elem_of_fmap in Ha as (p & -> & Hp).
  apply range_elem_of in Hp. exists p. split; [lia |].
  destruct (cyclogonSample_meta calc polygon adj
              (Polygon.getExteriorAngle polygon)
              ((IZR sideIndex + 1) * Polygon.getSideLength polygon)
              (IZR sideIndex * Polygon.getExteriorAngle polygon) sideIndex p Hpps)
    as [center Hmeta].
  unfold parameter. rewrite Hmeta. reflexivity.
Qed.

(** Within one side the rotation grows with the pass. *)
Lemma sideSamples_sorted (calc : CyclogonCalculator.t) (polygon : Polygon.t)
    (adj : NPoint) (cycles : R) (totalSides sideIndex : Z) :
  0 < pointsPerSide calc -> 0 < Polygon.getExteriorAngle polygon ->
  StronglySorted param_lt
    (sideSamples calc polygon adj cycles totalSides sideIndex).
Proof.
  intros Hpps Hbeta. unfold sideSamples.
  apply StronglySorted_map_range. intros i j Hij _.
  destruct (cyclogonSample_meta calc polygon adj
              (Polygon.getExteriorAngle polygon)
              ((IZR sideIndex + 1) * Polygon.getSideLength polygon)
              (IZR sideIndex * Polygon.getExteriorAngle polygon) sideIndex i
              ltac:(lra)) as [ci Hi].
  destruct (cyclogonSample_meta calc polygon adj
              (Polygon.getExteriorAngle polygon)
              ((IZR sideIndex + 1) * Polygon.getSideLength polygon)
              (IZR sideIndex * Polygon.getExteriorAngle polygon) sideIndex j
              ltac:(lra)) as [cj Hj].
  unfold param_lt, parameter. rewrite Hi, Hj.
  eexists _, _. split; [reflexivity |]. split; [reflexivity |].
  assert (IZR i < IZR j) by (apply IZR_lt; lia).
  apply Rplus_lt_compat_l. apply Rmult_lt_compat_r; [exact Hbeta |].
  apply Rmult_lt_compat_r; [apply Rinv_0_lt_compat; exact Hpps | assumption].
Qed.

(** A side before the final one stops short of the next side's first
    rotation. *)
Lemma sideCount_inner (calc : CyclogonCalculator.t) (cycles : R)
    (n totalSides sideIndex p : Z) :
  0 < pointsPerSide calc ->
  (sideIndex < totalSides - 1)%Z ->
  (p < Z.of_nat (sideCount calc cycles n totalSides sideIndex))%Z ->
  IZR p / pointsPerSide calc < 1.
Proof.
  intros Hpps Hs Hp. unfold sideCount, pointsThisSide in Hp.
  rewrite (bool_decide_true (sideIndex < totalSides - 1)%Z) in Hp by exact Hs.
  rewrite (bool_decide_false (sideIndex = totalSides - 1)%Z) in Hp by lia.
  cbn [andb] in Hp.
  destruct (Zceil_bound (pointsPerSide calc * 1)) as [Hlow _].
  pose proof (Zceil_pos (pointsPerSide calc * 1) ltac:(lra)) as HP1.
  set (P := Zceil (pointsPerSide calc * 1)) in *.
  assert (p <= P - 1)%Z as HpP by lia.
  apply IZR_le in HpP. rewrite minus_IZR in HpP.
  apply Rmult_lt_reg_r with (pointsPerSide calc); [exact Hpps |].
  unfold Rdiv. rewrite Rmult_assoc, Rinv_l by lra. lra.
Qed.

(** The rotations grow along the sides already rolled over, and stay
    below the rotation the next side starts with. *)
Lemma sides_sorted (calc : CyclogonCalculator.t) (polygon : Polygon.t)
    (adj : NPoint) (cycles : R) (totalSides : Z) (k : nat) :
  0 < pointsPerSide calc -> 0 < Polygon.getExteriorAngle polygon ->
  (Z.of_nat k <= totalSides)%Z ->
  StronglySorted param_lt
    (flat_map (sideSamples calc polygon adj cycles totalSides) (JS.range 0 k))
  /\ ((Z.of_nat k < totalSides)%Z ->
      forall a,
        a ∈ flat_map (sideSamples calc polygon adj cycles totalSides)
              (JS.range 0 k) ->
        exists u : R,
          parameter a = Some (JS.Fin u)
          /\ u < IZR (Z.of_nat k) * Polygon.getExteriorAngle polygon).
Proof.
  intros Hpps Hbeta. set (beta := Polygon.getExteriorAngle polygon) in *.
  induction k as [| k IH]; intros Hk.
  - split; [constructor |]. intros _ a Ha. cbn in Ha. inversion Ha.
  - destruct IH as [IHsorted IHbound]; [lia |].
    specialize (IHbound ltac:(lia)).
    rewrite range_snoc, flat_map_app. cbn [flat_map]. rewrite app_nil_r.
    rewrite Z.add_0_l. split.
    + apply StronglySorted_app; [exact IHsorted | |].
      * apply sideSamples_sorted; assumption.
      * intros a b Ha Hb.
        destruct (IHbound a Ha) as (u & Hu & Hlt).
        destruct (sideSamples_elem_of calc polygon adj cycles totalSides
                    (Z.of_nat k) b ltac:(lra) Hb) as (p & Hp & Hv).
        exists u. eexists. split; [exact Hu |]. split; [exact Hv |].
        fold beta.
        assert (0 <= IZR p) by (apply IZR_le; lia).
        assert (0 <= IZR p / pointsPerSide calc * beta); [| lra].
        apply Rmult_le_pos; [| lra].
        apply Rmult_le_pos; [assumption |].
        apply Rlt_le, Rinv_0_lt_compat. exact Hpps.
    + intros Hnext a Ha. rewrite Nat2Z.inj_succ, succ_IZR.
      apply elem_of_app in Ha as [Ha | Ha].
      * destruct (IHbound a Ha) as (u & Hu & Hlt).
        exists u. split; [exact Hu | lra].
      * destruct (sideSamples_elem_of calc polygon adj cycles totalSides
                    (Z.of_nat k) a ltac:(lra) Ha) as (p & Hp & Hv).
        eexists. split; [exact Hv |]. fold beta.
        pose proof (sideCount_inner calc cycles (Polygon.sides polygon)
                      totalSides (Z.of_nat k) p Hpps ltac:(lia) ltac:(lia)).
        assert (IZR p / pointsPerSide calc * beta < 1 * beta); [| lra].
        apply Rmult_lt_compat_r; assumption.
Qed.

(** The transformations of a curve rewrite coordinates in place: the
    samples keep their order and their parameters. *)
Lemma transformations_keep_parameters (c : Cyclogon.t) :
  (forall dx dy,
      map parameter (_points (translate c dx dy)) = map parameter (_points c))
  /\ (forall k,
      map parameter (_points (scale c k)) = map parameter (_points c))
  /\ map parameter (_points (snd (normalize c))) = map parameter (_points c).
Proof.
  split; [| split].
  - intros dx dy. unfold translate. cbn [_points with_points].
    rewrite map_map. reflexivity.
  - intros k. unfold scale. cbn [_points with_points].
    rewrite map_map. reflexivity.
  - unfold normalize. destruct (getBoundingBox c); [| reflexivity].
    cbn [snd _points with_points]. rewrite map_map. reflexivity.
Qed.

(** C6: a curve returned by [generate] (for a circle, or for a polygon
    the constructor built, with positive sampling densities) has its
    samples in strictly increasing order of the recorded parameter: the
    rotation angle [theta] of a cycloid, the cumulative [rotation] of a
    cyclogon, where the sample two consecutive sides share appears once.
    [translate], [scale] and [normalize] leave the order of the samples
    and their parameters as they are. *)
Theorem generate_parametric_order (calc : CyclogonCalculator.t) (now : Z)
    (shape : Shape) (drawPoint : Point) (cycles : R) (curve : Cyclogon.t) :
  0 < pointsPerSide calc -> 0 < pointsPerRadian calc ->
  (forall polygon, shape = IsPolygon polygon ->
     exists n r off, Polygon.new n r off = JS.Ok polygon) ->
  generate calc now shape drawPoint cycles = JS.Ok curve ->
  StronglySorted param_lt (_points curve)
  /\ (forall dx dy,
      map parameter (_points (translate curve dx dy))
      = map parameter (_points curve))
  /\ (forall k,
      map parameter (_points (scale curve k)) = map parameter (_points curve))
  /\ map parameter (_points (snd (normalize curve)))
     = map parameter (_points curve).
Proof.
  intros Hpps Hppr Hvalid Hgen.
  split; [| apply transformations_keep_parameters].
  destruct shape as [circle | polygon |]; cbn [generate] in Hgen.
  - injection Hgen as <-. apply generateCycloid_sorted. exact Hppr.
  - destruct (Hvalid polygon eq_refl) as (n & r & off & Hnew).
    destruct (generateCyclogon_ok calc now n r off polygon drawPoint cycles Hnew)
      as (adj & rot & Hok).
    rewrite Hok in Hgen. injection Hgen as <-. cbn [_points].
    destruct (decide (Zceil (cycles * IZR (Polygon.sides polygon)) < 0)%Z)
      as [Hneg | Hpos].
    { replace (Z.to_nat (Zceil (cycles * IZR (Polygon.sides polygon))))
        with 0%nat by lia.
      constructor. }
    apply sides_sorted; [exact Hpps | | lia].
    exact (exteriorAngle_pos n r off polygon Hnew).
  - discriminate.
Qed.

Lemma generate_parametric_order_witness :
  StronglySorted param_lt
    (_points (generateCycloid CyclogonCalculator.default 0 unitCircle
                (mkPoint 0 1) 1)).
Proof.
  assert (Hpps : 0 < pointsPerSide CyclogonCalculator.default).
  { unfold CyclogonCalculator.default, CyclogonCalculator.new. simpl.
    unfold CONFIG.CYCLOGON.POINTS_PER_SIDE. lra. }
  assert (Hppr : 0 < pointsPerRadian CyclogonCalculator.default).
  { unfold CyclogonCalculator.default, CyclogonCalculator.new. simpl.
    unfold CONFIG.CYCLOGON.POINTS_PER_RADIAN. lra. }
  assert (Hvalid : forall polygon, IsCircle unitCircle = IsPolygon polygon ->
            exists n r off, Polygon.new n r off = JS.Ok polygon).
  { intros polygon H. discriminate H. }
  exact (proj1 (generate_parametric_order CyclogonCalculator.default 0
                  (IsCircle unitCircle) (mkPoint 0 1) 1 _ Hpps Hppr Hvalid
                  eq_refl)).
Defined.

End ParametricOrder.

(** ** Normalising a curve *)

Section Normalize.

Import Cyclogon.

(** The bounding-box loop over samples with finite coordinates, once its
    state is finite, stays finite. *)
Lemma bbox_fold_finite (l : list Sample) (a b c d : R) :
  Forall finite_sample l ->
  exists a' b' c' d' : R,
    fold_left
      (fun (bx : JS.num * JS.num * JS.num * JS.num) p =>
         let '(minX, maxX, minY, maxY) := bx in
         (JS.min minX (x p), JS.max maxX (x p),
          JS.min minY (y p), JS.max maxY (y p)))
      l (JS.Fin a, JS.Fin b, JS.Fin c, JS.Fin d)
    = (JS.Fin a', JS.Fin b', JS.Fin c', JS.Fin d').
Proof.
  intros Hfin. revert a b c d.
  induction Hfin as [| p l [Hx Hy] _ IH]; intros a b c d.
  - eexists _, _, _, _. reflexivity.
  - destruct p as [[u | | |] [v | | |] m]; cbn in Hx, Hy; try contradiction.
    cbn [fold_left x y]. unfold JS.min, JS.max, JS.le.
    destruct (bool_decide (a <= u)), (bool_decide (b <= u)),
      (bool_decide (c <= v)), (bool_decide (d <= v)); apply IH.
Qed.

(** The bounding box of a curve with finite samples is finite. *)
Lemma getBoundingBox_finite (c : Cyclogon.t) (bbox : BoundingBox) :
  Forall finite_sample (_points c) ->
  getBoundingBox c = Some bbox ->
  exists a b c0 d : R,
    minX bbox = JS.Fin a /\ maxX bbox = JS.Fin b
    /\ minY bbox = JS.Fin c0 /\ maxY bbox = JS.Fin d
    /\ width bbox = JS.Fin (b - a) /\ height bbox = JS.Fin (d - c0).
Proof.
  intros Hfin Hbox. unfold getBoundingBox in Hbox.
  destruct (decide (length (_points c) = 0%nat)) as [| Hne]; [discriminate |].
  destruct (_points c) as [| p l]; [contradiction |].
  apply Forall_cons in Hfin as [[Hx Hy] Hfin].
  destruct p as [[u | | |] [v | | |] m]; cbn in Hx, Hy; try contradiction.
  cbn [fold_left x y] in Hbox.
  change (JS.min JS.PInf (JS.Fin u)) with (JS.Fin u) in Hbox.
  change (JS.max JS.NInf (JS.Fin u)) with (JS.Fin u) in Hbox.
  change (JS.min JS.PInf (JS.Fin v)) with (JS.Fin v) in Hbox.
  change (JS.max JS.NInf (JS.Fin v)) with (JS.Fin v) in Hbox.
  destruct (bbox_fold_finite l u u v v Hfin) as (a & b & c0 & d & Hfold).
  rewrite Hfold in Hbox. injection Hbox as <-.
  exists a, b, c0, d. repeat split.
Qed.

(** Undoing the normalisation sample by sample. *)
Lemma round_trip_points (l : list Sample) (a c0 s : R) :
  s <> 0 ->
  Forall finite_sample l ->
  map (fun p => mkSample (x p +j JS.Fin a) (y p +j JS.Fin c0) (meta p))
    (map (fun p => mkSample (x p *j JS.Fin s) (y p *j JS.Fin s) (meta p))
       (map (fun p => mkSample ((x p -j JS.Fin a) /j JS.Fin s)
                               ((y p -j JS.Fin c0) /j JS.Fin s) (meta p))
          l))
  = l.
Proof.
  intros Hs Hfin. induction Hfin as [| q l [Hqx Hqy] _ IH]; [reflexivity |].
  cbn [map]. rewrite IH. f_equal.
  destruct q as [[qx | | |] [qy | | |] qm]; cbn in Hqx, Hqy; try contradiction.
  cbn [x y meta]. unfold JS.sub, JS.neg, JS.add.
  rewrite !div_fin by exact Hs. unfold JS.mul.
  f_equal; f_equal; field; exact Hs.
Qed.

(** On a curve with finite samples whose bounding box is not a single
    point, scaling the normalised curve by the returned scale and
    translating it by the returned offsets gives the points back. *)
Lemma normalize_round_trip (c c' : Cyclogon.t) (f : Normalization) :
  Forall finite_sample (_points c) ->
  normalize c = (Some f, c') ->
  scale_ f <> JS.Fin 0 ->
  _points (translate (scale c' (scale_ f)) (offsetX f) (offsetY f))
  = _points c.
Proof.
  intros Hfin Hnorm Hscale. unfold normalize in Hnorm.
  destruct (getBoundingBox c) as [bbox |] eqn:Hbox; [| discriminate].
  destruct (getBoundingBox_finite c bbox Hfin Hbox)
    as (a & b & c0 & d & Ha & Hb & Hc0 & Hd & Hw & Hh).
  rewrite Ha, Hc0, Hw, Hh in Hnorm.
  assert (exists s : R, JS.max (JS.Fin (b - a)) (JS.Fin (d - c0)) = JS.Fin s)
    as [s Hs].
  { unfold JS.max, JS.le. destruct (bool_decide _); eexists; reflexivity. }
  rewrite Hs in Hnorm. injection Hnorm as <- <-.
  cbn [scale_ offsetX offsetY] in *.
  assert (s <> 0) as Hs0 by (intros ->; apply Hscale; reflexivity).
  unfold translate, scale. cbn [_points with_points].
  apply round_trip_points; assumption.
Qed.

(** C8 at the input it fails on: a curve holding the single sample
    [(a, b)].  [normalize] returns the offsets [(a, b)] and the scale 0
    and leaves the sample at [(NaN, NaN)]; scaling by the returned scale
    and translating by the returned offsets keeps it there, so the
    original sample is not reconstructed. *)
Theorem normalize_single_point (now : Z) (a b : R) (m : SampleMeta) :
  let c := addPoint (new now "cycloid" None)
             (mkSample (JS.Fin a) (JS.Fin b) m) in
  exists f c',
    normalize c = (Some f, c')
    /\ offsetX f = JS.Fin a /\ offsetY f = JS.Fin b /\ scale_ f = JS.Fin 0
    /\ _points c' = [mkSample JS.NaN JS.NaN m]
    /\ _points (translate (scale c' (scale_ f)) (offsetX f) (offsetY f))
       = [mkSample JS.NaN JS.NaN m]
    /\ _points (translate (scale c' (scale_ f)) (offsetX f) (offsetY f))
       <> _points c.
Proof.
  intros c. unfold normalize, getBoundingBox. subst c.
  cbn [addPoint new with_points _points app length x y meta].
  destruct (decide (1%nat = 0%nat)) as [| _]; [discriminate |].
  cbn [fold_left x y].
  change (JS.min JS.PInf (JS.Fin a)) with (JS.Fin a).
  change (JS.max JS.NInf (JS.Fin a)) with (JS.Fin a).
  change (JS.min JS.PInf (JS.Fin b)) with (JS.Fin b).
  change (JS.max JS.NInf (JS.Fin b)) with (JS.Fin b).
  cbn [minX minY width height].
  assert (Hmax : JS.max (JS.Fin a -j JS.Fin a) (JS.Fin b -j JS.Fin b) = JS.Fin 0).
  { unfold JS.max, JS.sub, JS.neg, JS.add, JS.le.
    destruct (bool_decide _); f_equal; lra. }
  assert (Hdiv : forall u : R, (JS.Fin u -j JS.Fin u) /j JS.Fin 0 = JS.NaN).
  { intros u. unfold JS.sub, JS.neg, JS.add, JS.div, JS.signed_inf.
    destruct (decide (0 = 0)) as [_ | H]; [| contradiction].
    destruct (decide (u + - u = 0)) as [_ | H]; [reflexivity | lra]. }
  rewrite Hmax. eexists _, _. split; [reflexivity |].
  cbn [offsetX offsetY scale_ _points with_points map x y meta translate scale].
  rewrite !Hdiv. cbn.
  repeat split. discriminate.
Qed.

End Normalize.

(** ** Simplifying a curve *)

Section Simplify.

Import Cyclogon CyclogonCalculator.

Lemma finite_sample_inv (s : Sample) :
  finite_sample s -> exists u v, s = mkSample (JS.Fin u) (JS.Fin v) (meta s).
Proof.
  destruct s as [[u | | |] [v | | |] m]; intros [Hx Hy]; cbn in Hx, Hy;
    try contradiction.
  exists u, v. reflexivity.
Qed.

Lemma min_fin (a b : R) : JS.min (JS.Fin a) (JS.Fin b) = JS.Fin (Rmin a b).
Proof.
  unfold JS.min, JS.le, Rmin. case_bool_decide; destruct (Rle_dec a b);
    try reflexivity; contradiction.
Qed.

Lemma max_fin (a b : R) : JS.max (JS.Fin a) (JS.Fin b) = JS.Fin (Rmax a b).
Proof.
  unfold JS.max, JS.le, Rmax. case_bool_decide; destruct (Rle_dec a b);
    try reflexivity; contradiction.
Qed.

Lemma sqrt_sum_squares_fin (a b : R) :
  JS.sqrt (sq (JS.Fin a) +j sq (JS.Fin b)) = JS.Fin (sqrt (a * a + b * b)).
Proof.
  unfold sq, JS.mul, JS.add, JS.sqrt.
  destruct (decide (a * a + b * b < 0)); [nra | reflexivity].
Qed.

(** On finite samples the program's distance is the real one. *)
Lemma perp_fin (u v sx sy ex ey : R) (m1 m2 m3 : SampleMeta) :
  _perpendicularDistance (mkSample (JS.Fin u) (JS.Fin v) m1)
    (mkSample (JS.Fin sx) (JS.Fin sy) m2) (mkSample (JS.Fin ex) (JS.Fin ey) m3)
  = JS.Fin (perpR u v sx sy ex ey).
Proof.
  unfold _perpendicularDistance, perpR. cbn [x y].
  unfold JS.sub, JS.neg. cbn [JS.add JS.mul]. unfold JS.eq, Rminus.
  destruct (decide ((ex + - sx) * (ex + - sx) + (ey + - sy) * (ey + - sy) = 0))
    as [Hz | Hnz].
  - rewrite bool_decide_true by exact Hz. apply sqrt_sum_squares_fin.
  - rewrite bool_decide_false by exact Hnz.
    rewrite div_fin by exact Hnz. rewrite min_fin, max_fin.
    cbn [JS.add JS.mul JS.neg]. apply sqrt_sum_squares_fin.
Qed.

Lemma perpR_nonneg (u v sx sy ex ey : R) : 0 <= perpR u v sx sy ex ey.
Proof. unfold perpR. destruct (decide _); apply sqrt_pos. Qed.

(** The two ends of a segment lie on it. *)
Lemma perpR_start (sx sy ex ey : R) : perpR sx sy sx sy ex ey = 0.
Proof.
  unfold perpR. destruct (decide _) as [Hz | Hnz].
  - replace ((sx - sx) * (sx - sx) + (sy - sy) * (sy - sy)) with 0 by ring.
    apply sqrt_0.
  - replace (((sx - sx) * (ex - sx) + (sy - sy) * (ey - sy))
             / ((ex - sx) * (ex - sx) + (ey - sy) * (ey - sy)))
      with 0 by (field; exact Hnz).
    replace (Rmax 0 (Rmin 1 0)) with 0.
    + match goal with |- sqrt ?e = 0 => replace e with 0 by ring end.
      apply sqrt_0.
    + unfold Rmax, Rmin. destruct (Rle_dec 1 0); [lra |].
      destruct (Rle_dec 0 0); reflexivity.
Qed.

Lemma perpR_end (sx sy ex ey : R) : perpR ex ey sx sy ex ey = 0.
Proof.
  unfold perpR. destruct (decide _) as [Hz | Hnz].
  - rewrite Hz. apply sqrt_0.
  - replace (((ex - sx) * (ex - sx) + (ey - sy) * (ey - sy))
             / ((ex - sx) * (ex - sx) + (ey - sy) * (ey - sy)))
      with 1 by (field; exact Hnz).
    replace (Rmax 0 (Rmin 1 1)) with 1.
    + match goal with |- sqrt ?e = 0 => replace e with 0 by ring end.
      apply sqrt_0.
    + unfold Rmax, Rmin. destruct (Rle_dec 1 1); [| lra].
      destruct (Rle_dec 0 1); [reflexivity | lra].
Qed.

Lemma within_start (tolerance : R) (a b : Sample) :
  0 <= tolerance -> finite_sample a -> finite_sample b ->
  within tolerance a a b.
Proof.
  intros Htol Ha Hb.
  destruct (finite_sample_inv a Ha) as (ax & ay & Hae).
  destruct (finite_sample_inv b Hb) as (bx & b_y & Hbe).
  unfold within. rewrite Hae, Hbe, perp_fin, perpR_start.
  unfold JS.le. apply bool_decide_true. exact Htol.
Qed.

Lemma within_end (tolerance : R) (a b : Sample) :
  0 <= tolerance -> finite_sample a -> finite_sample b ->
  within tolerance b a b.
Proof.
  intros Htol Ha Hb.
  destruct (finite_sample_inv a Ha) as (ax & ay & Hae).
  destruct (finite_sample_inv b Hb) as (bx & b_y & Hbe).
  unfold within. rewrite Hae, Hbe, perp_fin, perpR_end.
  unfold JS.le. apply bool_decide_true. exact Htol.
Qed.

Lemma perp_finite (p a b : Sample) :
  finite_sample p -> finite_sample a -> finite_sample b ->
  exists d : R, 0 <= d /\ _perpendicularDistance p a b = JS.Fin d.
Proof.
  intros Hp Ha Hb.
  destruct (finite_sample_inv p Hp) as (u & v & Hpe).
  destruct (finite_sample_inv a Ha) as (ax & ay & Hae).
  destruct (finite_sample_inv b Hb) as (bx & b_y & Hbe).
  rewrite Hpe, Hae, Hbe, perp_fin. eexists. split; [| reflexivity].
  apply perpR_nonneg.
Qed.

(** The search loop returns a finite distance that bounds the distance
    of every inner point it looked at; the index it returns is the
    starting one, or one it looked at whose distance beats the starting
    distance. *)
Lemma farthest_fold (points : list Sample) (first final : Sample)
    (indices : list nat) (m0 : R) (idx0 : nat) :
  Forall finite_sample points -> finite_sample first -> finite_sample final ->
  exists (m : R) (idx : nat),
    fold_left
      (fun (st : JS.num * nat) (i : nat) =>
         match points !! i with
         | Some point =>
             let distance := _perpendicularDistance point first final in
             if JS.gt distance (fst st) then (distance, i) else st
         | None => st
         end)
      indices (JS.Fin m0, idx0)
    = (JS.Fin m, idx)
    /\ m0 <= m
    /\ (forall i p, i ∈ indices -> points !! i = Some p ->
        exists d, _perpendicularDistance p first final = JS.Fin d /\ d <= m)
    /\ ((idx = idx0 /\ m = m0) \/ (idx ∈ indices /\ m0 < m)).
Proof.
  intros Hfin Hfirst Hfinal. revert m0 idx0.
  induction indices as [| i indices IH]; intros m0 idx0.
  - exists m0, idx0. split; [reflexivity |]. split; [lra |].
    split; [| left; split; reflexivity].
    intros i p Hi. inversion Hi.
  - cbn [fold_left]. destruct (points !! i) as [q |] eqn:Hq.
    + assert (finite_sample q) as Hqfin.
      { eapply Forall_lookup_1; [exact Hfin | exact Hq]. }
      destruct (perp_finite q first final Hqfin Hfirst Hfinal) as (d & Hd & Hperp).
      rewrite Hperp. cbn [fst]. unfold JS.gt, JS.lt.
      case_bool_decide as Hcmp.
      * destruct (IH d i) as (m & idx & Hfold & Hle & Hall & Hidx).
        exists m, idx. split; [exact Hfold |]. split; [lra |]. split.
        -- intros j p Hj Hp. apply elem_of_cons in Hj as [-> | Hj].
           ++ rewrite Hq in Hp. injection Hp as <-.
              exists d. split; [exact Hperp | exact Hle].
           ++ exact (Hall j p Hj Hp).
        -- right. destruct Hidx as [[-> ->] | [Hin Hlt]].
           ++ split; [left | exact Hcmp].
           ++ split; [right; exact Hin | lra].
      * destruct (IH m0 idx0) as (m & idx & Hfold & Hle & Hall & Hidx).
        exists m, idx. split; [exact Hfold |]. split; [exact Hle |]. split.
        -- intros j p Hj Hp. apply elem_of_cons in Hj as [-> | Hj].
           ++ rewrite Hq in Hp. injection Hp as <-.
              exists d. split; [exact Hperp | lra].
           ++ exact (Hall j p Hj Hp).
        -- destruct Hidx as [Hsame | [Hin Hlt]]; [left; exact Hsame |].
           right. split; [right; exact Hin | exact Hlt].
    + destruct (IH m0 idx0) as (m & idx & Hfold & Hle & Hall & Hidx).
      exists m, idx. split; [exact Hfold |]. split; [exact Hle |]. split.
      * intros j p Hj Hp. apply elem_of_cons in Hj as [-> | Hj].
        -- rewrite Hq in Hp. discriminate.
        -- exact (Hall j p Hj Hp).
      * destruct Hidx as [Hsame | [Hin Hlt]]; [left; exact Hsame |].
        right. split; [right; exact Hin | exact Hlt].
Qed.

Lemma farthest_spec (points : list Sample) (first final : Sample) :
  Forall finite_sample points -> finite_sample first -> finite_sample final ->
  exists (m : R) (idx : nat),
    farthest points first final = (JS.Fin m, idx)
    /\ 0 <= m
    /\ (forall i p, (1 <= i <= length points - 2)%nat -> points !! i = Some p ->
        exists d, _perpendicularDistance p first final = JS.Fin d /\ d <= m)
    /\ (0 < m -> (1 <= idx <= length points - 2)%nat).
Proof.
  intros Hfin Hfirst Hfinal. unfold farthest.
  destruct (farthest_fold points first final (seq 1 (length points - 2)) 0 0%nat
              Hfin Hfirst Hfinal) as (m & idx & Hfold & Hle & Hall & Hidx).
  exists m, idx. split; [exact Hfold |]. split; [exact Hle |]. split.
  - intros i p Hi Hp. apply (Hall i p); [| exact Hp].
    apply elem_of_seq. lia.
  - intros Hm. destruct Hidx as [[_ ->] | [Hin _]]; [lra |].
    apply elem_of_seq in Hin. lia.
Qed.

Lemma list_ends {A : Type} (l : list A) :
  (2 <= length l)%nat -> exists first mid final, l = first :: mid ++ [final].
Proof.
  destruct l as [| a l]; [simpl; lia |].
  destruct l as [| b l _] using rev_ind; [simpl; lia |].
  intros _. exists a, l, b. reflexivity.
Qed.

Lemma segment_of_app_r {A : Type} (a b : A) (l k : list A) :
  segment_of a b l -> segment_of a b (l ++ k).
Proof.
  intros (l1 & l2 & ->). exists l1, (l2 ++ k).
  rewrite <- app_assoc. reflexivity.
Qed.

Lemma segment_of_app_l {A : Type} (a b : A) (l k : list A) :
  segment_of a b l -> segment_of a b (k ++ l).
Proof.
  intros (l1 & l2 & ->). exists (k ++ l1), l2.
  rewrite <- app_assoc. reflexivity.
Qed.

(** Two points are their own simplification. *)
Lemma simplifies_two (tolerance : R) (a b : Sample) :
  0 <= tolerance -> finite_sample a -> finite_sample b ->
  simplifies tolerance [a; b] [a; b].
Proof.
  intros Htol Ha Hb. exists a, [], b, [].
  split; [reflexivity |]. split; [reflexivity |].
  split; [apply sublist_nil_l |].
  intros p Hp. exists a, b. split; [exists [], []; reflexivity |].
  apply elem_of_cons in Hp as [-> | Hp].
  - apply within_start; assumption.
  - apply list_elem_of_singleton in Hp as ->. apply within_end; assumption.
Qed.

(** With a tolerance of zero or more and as much fuel as there are
    points, [_douglasPeucker] returns, and what it returns simplifies the
    points within the tolerance. *)
Lemma _douglasPeucker_simplifies (tolerance : R) (fuel : nat)
    (points : list Sample) :
  0 <= tolerance ->
  Forall finite_sample points ->
  (2 <= length points <= fuel + 1)%nat ->
  exists out,
    _douglasPeucker fuel points (JS.Fin tolerance) = Some out
    /\ simplifies tolerance points out.
Proof.
  intros Htol. revert points.
  induction fuel as [| fuel IH]; intros points Hfin Hlen; [lia |].
  cbn [_douglasPeucker].
  destruct (decide (length points < 3)%nat) as [Hshort | Hlong].
  - exists points. split; [reflexivity |].
    destruct points as [| a [| b [| c points]]]; simpl in Hlen, Hshort; try lia.
    apply Forall_cons in Hfin as [Ha Hfin].
    apply Forall_cons in Hfin as [Hb _].
    apply simplifies_two; assumption.
  - destruct (list_ends points ltac:(lia)) as (first & mid & final & Hpts).
    assert (points !! 0%nat = Some first) as H0 by (rewrite Hpts; reflexivity).
    assert (points !! (length points - 1)%nat = Some final) as Hn.
    { rewrite Nat.sub_1_r, <- last_lookup, Hpts, app_comm_cons.
      apply last_snoc. }
    rewrite H0, Hn.
    assert (finite_sample first) as Hfirst
      by (eapply Forall_lookup_1; [exact Hfin | exact H0]).
    assert (finite_sample final) as Hfinal
      by (eapply Forall_lookup_1; [exact Hfin | exact Hn]).
    destruct (farthest_spec points first final Hfin Hfirst Hfinal)
      as (m & idx & -> & Hm & Hall & Hidx).
    unfold JS.gt, JS.lt. case_bool_decide as Hcmp.
    + (* the farthest inner point is kept and both sides are simplified *)
      specialize (Hidx ltac:(lra)).
      destruct (lookup_lt_is_Some_2 points idx ltac:(lia)) as [pv Hpv].
      assert (take (idx + 1) points = take idx points ++ [pv]) as Htake
        by (rewrite Nat.add_1_r; apply take_S_r; exact Hpv).
      assert (drop idx points = pv :: drop (S idx) points) as Hdrop
        by (apply drop_S; exact Hpv).
      destruct (IH (take (idx + 1) points)) as (out1 & -> & Hs1).
      { apply Forall_take. exact Hfin. }
      { rewrite length_take. lia. }
      destruct (IH (drop idx points)) as (out2 & -> & Hs2).
      { apply Forall_drop. exact Hfin. }
      { rewrite length_drop. lia. }
      cbn [mbind option_bind].
      eexists. split; [reflexivity |].
      destruct Hs1 as (f1 & m1 & l1 & m1' & Hin1 & Hout1 & Hsub1 & Hcov1).
      destruct Hs2 as (f2 & m2 & l2 & m2' & Hin2 & Hout2 & Hsub2 & Hcov2).
      rewrite Htake in Hin1. rewrite app_comm_cons in Hin1.
      apply app_inj_tail in Hin1 as [Hhead <-].
      rewrite Hdrop in Hin2. injection Hin2 as <- Htail.
      assert (out1 = (f1 :: m1') ++ [pv]) as Hout1' by exact Hout1.
      assert (take (length out1 - 1) out1 = f1 :: m1') as Hinit.
      { rewrite Hout1'. apply take_app_length'.
        rewrite length_app. simpl. lia. }
      rewrite Hinit.
      exists f1, (m1 ++ pv :: m2), l2, (m1' ++ pv :: m2').
      split.
      { rewrite <- (take_drop idx points), Hhead, Hdrop, Htail.
        simpl. rewrite <- app_assoc. reflexivity. }
      split.
      { rewrite Hout2. simpl. rewrite <- app_assoc. reflexivity. }
      split.
      { apply sublist_app; [exact Hsub1 | apply sublist_skip; exact Hsub2]. }
      intros p Hp.
      rewrite <- (take_drop (S idx) points) in Hp.
      apply elem_of_app in Hp as [Hp | Hp].
      * destruct (Hcov1 p) as (a & b & Hseg & Hwithin).
        { rewrite Htake, <- (take_S_r _ _ _ Hpv). exact Hp. }
        exists a, b. split; [| exact Hwithin].
        replace ((f1 :: m1') ++ out2) with (out1 ++ (m2' ++ [l2])).
        -- apply segment_of_app_r. exact Hseg.
        -- rewrite Hout1', Hout2, <- app_assoc. reflexivity.
      * destruct (Hcov2 p) as (a & b & Hseg & Hwithin).
        { rewrite Hdrop. right. exact Hp. }
        exists a, b. split; [| exact Hwithin].
        apply segment_of_app_l. exact Hseg.
    + (* every inner point is close enough: only the ends are kept *)
      exists [first; final]. split; [reflexivity |].
      exists first, mid, final, []. split; [exact Hpts |].
      split; [reflexivity |]. split; [apply sublist_nil_l |].
      intros p Hp. exists first, final.
      split; [exists [], []; reflexivity |].
      apply list_elem_of_lookup in Hp as [i Hi].
      pose proof (lookup_lt_Some _ _ _ Hi) as Hilt.
      destruct (decide (i = 0%nat)) as [-> | Hi0].
      { rewrite H0 in Hi. injection Hi as <-.
        apply within_start; assumption. }
      destruct (decide (i = length points - 1)%nat) as [-> | Hin].
      { rewrite Hn in Hi. injection Hi as <-.
        apply within_end; assumption. }
      destruct (Hall i p ltac:(lia) Hi) as (d & Hd & Hdm).
      unfold within. rewrite Hd. unfold JS.le.
      apply bool_decide_true. lra.
Qed.

(** C7: for a curve of two or more points (with finite coordinates) and a
    tolerance of zero or more, [simplify] returns a subsequence of the
    points that starts with the first point and ends with the last, and
    every point of the curve, in particular every removed one, lies
    within the tolerance of a segment of the simplified polyline, in the
    program's own measure [_perpendicularDistance]. *)
Theorem simplify_keeps_ends_within_tolerance (fuel : nat) (cyclogon : Cyclogon.t)
    (tolerance : R) :
  let points := getPoints cyclogon in
  (2 <= length points)%nat ->
  Forall finite_sample points ->
  0 <= tolerance ->
  (length points <= fuel)%nat ->
  exists out,
    simplify fuel cyclogon (JS.Fin tolerance) = Some out
    /\ out `sublist_of` points
    /\ head out = head points
    /\ last out = last points
    /\ forall p, p ∈ points ->
         exists a b, segment_of a b out /\ within tolerance p a b.
Proof.
  intros points Hlen Hfin Htol Hfuel.
  destruct (_douglasPeucker_simplifies tolerance fuel points Htol Hfin
              ltac:(lia)) as (out & Hdp & Hs).
  exists out. split.
  - unfold simplify. fold points.
    destruct (decide (length points < 3)%nat) as [Hshort | _]; [| exact Hdp].
    destruct fuel as [| fuel]; [lia |]. cbn [_douglasPeucker] in Hdp.
    destruct (decide (length points < 3)%nat); [exact Hdp | lia].
  - destruct Hs as (first & mid & final & mid' & -> & -> & Hsub & Hcov).
    split; [| split; [reflexivity | split; [| exact Hcov]]].
    + apply sublist_skip, sublist_app; [exact Hsub | reflexivity].
    + rewrite !app_comm_cons, !last_snoc. reflexivity.
Qed.

Lemma simplify_keeps_ends_within_tolerance_witness :
  exists out,
    simplify 3
      (addPoints (Cyclogon.new 0 "cycloid" None)
         [mkSample (JS.Fin 0) (JS.Fin 0) PlainMeta;
          mkSample (JS.Fin 1) (JS.Fin 1) PlainMeta;
          mkSample (JS.Fin 2) (JS.Fin 0) PlainMeta])
      (JS.Fin (1 / 2)) = Some out
    /\ head out = Some (mkSample (JS.Fin 0) (JS.Fin 0) PlainMeta)
    /\ last out = Some (mkSample (JS.Fin 2) (JS.Fin 0) PlainMeta).
Proof.
  destruct (simplify_keeps_ends_within_tolerance 3
              (addPoints (Cyclogon.new 0 "cycloid" None)
                 [mkSample (JS.Fin 0) (JS.Fin 0) PlainMeta;
                  mkSample (JS.Fin 1) (JS.Fin 1) PlainMeta;
                  mkSample (JS.Fin 2) (JS.Fin 0) PlainMeta])
              (1 / 2))
    as (out & Hout & _ & Hhead & Hlast & _).
  - simpl. lia.
  - simpl. repeat constructor.
  - lra.
  - simpl. lia.
  - exists out. split; [exact Hout |]. split; [exact Hhead | exact Hlast].
Defined.

(** The tolerance has to be zero or more: on three points in a line and
    a negative tolerance the recursion calls itself on the same three
    points for ever, so no amount of fuel gives a result. *)
Lemma _douglasPeucker_negative_tolerance (fuel : nat) :
  _douglasPeucker fuel
    [mkSample (JS.Fin 0) (JS.Fin 0) PlainMeta;
     mkSample (JS.Fin 1) (JS.Fin 0) PlainMeta;
     mkSample (JS.Fin 2) (JS.Fin 0) PlainMeta]
    (JS.Fin (-1)) = None.
Proof.
  assert (Hmid : perpR 1 0 0 0 2 0 = 0).
  { unfold perpR. destruct (decide _) as [Hz | _]; [lra |].
    replace (((1 - 0) * (2 - 0) + (0 - 0) * (0 - 0))
             / ((2 - 0) * (2 - 0) + (0 - 0) * (0 - 0))) with (1 / 2) by field.
    replace (Rmax 0 (Rmin 1 (1 / 2))) with (1 / 2).
    - match goal with |- sqrt ?e = 0 => replace e with 0 by field end.
      apply sqrt_0.
    - unfold Rmax, Rmin. destruct (Rle_dec 1 (1 / 2)); [lra |].
      destruct (Rle_dec 0 (1 / 2)); [reflexivity | lra]. }
  induction fuel as [| fuel IH]; [reflexivity |].
  cbn [_douglasPeucker length].
  destruct (decide (3 < 3)%nat) as [Hlt | _]; [lia |].
  cbn [lookup list_lookup Nat.sub].
  unfold farthest. cbn [length Nat.sub seq fold_left lookup list_lookup fst].
  rewrite perp_fin, Hmid. unfold JS.gt, JS.lt.
  rewrite (bool_decide_false (0 < 0)) by lra.
  rewrite (bool_decide_true (-1 < 0)) by lra.
  cbn [Nat.add take drop]. rewrite IH. clear IH.
  destruct (_douglasPeucker fuel _ _); reflexivity.
Qed.

End Simplify.

(* ================================================================== *)
(** ** The measures of a stored curve *)

Section CurveMeasures.

Import Cyclogon CyclogonCalculator.

(** The bounding-box loop started on finite bounds ends on finite
    bounds that enclose the old ones and every point, and each of which
    is an old bound or a coordinate of some point. *)
Lemma bbox_fold_bounds (l : list Sample) (a b c d : R) :
  Forall finite_sample l ->
  exists a' b' c' d' : R,
    fold_left
      (fun (bx : JS.num * JS.num * JS.num * JS.num) p =>
         let '(minX, maxX, minY, maxY) := bx in
         (JS.min minX (x p), JS.max maxX (x p),
          JS.min minY (y p), JS.max maxY (y p)))
      l (JS.Fin a, JS.Fin b, JS.Fin c, JS.Fin d)
    = (JS.Fin a', JS.Fin b', JS.Fin c', JS.Fin d')
    /\ (a' <= a /\ b <= b' /\ c' <= c /\ d <= d')
    /\ (forall p, p ∈ l ->
          exists u v, x p = JS.Fin u /\ y p = JS.Fin v
                      /\ a' <= u <= b' /\ c' <= v <= d')
    /\ (a' = a \/ exists p, p ∈ l /\ x p = JS.Fin a')
    /\ (b' = b \/ exists p, p ∈ l /\ x p = JS.Fin b')
    /\ (c' = c \/ exists p, p ∈ l /\ y p = JS.Fin c')
    /\ (d' = d \/ exists p, p ∈ l /\ y p = JS.Fin d').
Proof.
  intros Hl. revert a b c d.
  induction Hl as [| p l Hp _ IH]; intros a b c d.
  - exists a, b, c, d. cbn [fold_left].
    split; [reflexivity |]. split; [lra |].
    split; [intros p Hp; inversion Hp |].
    repeat split; left; reflexivity.
  - destruct (finite_sample_inv p Hp) as (u & v & Ep).
    cbn [fold_left]. rewrite Ep. cbn [x y].
    rewrite !min_fin, !max_fin.
    destruct (IH (Rmin a u) (Rmax b u) (Rmin c v) (Rmax d v))
      as (a' & b' & c' & d' & Hfold & Hle & Hin & Ha & Hb & Hc & Hd).
    exists a', b', c', d'.
    split; [exact Hfold |].
    pose proof (Rmin_l a u). pose proof (Rmin_r a u).
    pose proof (Rmax_l b u). pose proof (Rmax_r b u).
    pose proof (Rmin_l c v). pose proof (Rmin_r c v).
    pose proof (Rmax_l d v). pose proof (Rmax_r d v).
    split; [lra |].
    split.
    { intros q Hq. apply elem_of_cons in Hq as [-> | Hq].
      - exists u, v. cbn [x y]. repeat split; lra.
      - apply Hin, Hq. }
    repeat split.
    + destruct Ha as [-> | (q & Hq & Eq)].
      * unfold Rmin. destruct (Rle_dec a u); [left; reflexivity |].
        right. eexists. split; [apply elem_of_cons; left; reflexivity | reflexivity].
      * right. exists q. split; [apply elem_of_cons; right; exact Hq | exact Eq].
    + destruct Hb as [-> | (q & Hq & Eq)].
      * unfold Rmax. destruct (Rle_dec b u); [| left; reflexivity].
        right. eexists. split; [apply elem_of_cons; left; reflexivity | reflexivity].
      * right. exists q. split; [apply elem_of_cons; right; exact Hq | exact Eq].
    + destruct Hc as [-> | (q & Hq & Eq)].
      * unfold Rmin. destruct (Rle_dec c v); [left; reflexivity |].
        right. eexists. split; [apply elem_of_cons; left; reflexivity | reflexivity].
      * right. exists q. split; [apply elem_of_cons; right; exact Hq | exact Eq].
    + destruct Hd as [-> | (q & Hq & Eq)].
      * unfold Rmax. destruct (Rle_dec d v); [| left; reflexivity].
        right. eexists. split; [apply elem_of_cons; left; reflexivity | reflexivity].
      * right. exists q. split; [apply elem_of_cons; right; exact Hq | exact Eq].
Qed.

(** The bounding box of a curve with finite points, spelled out. *)
Lemma getBoundingBox_bounds (c : Cyclogon.t) :
  _points c <> [] -> Forall finite_sample (_points c) ->
  exists a b c0 d : R,
    getBoundingBox c
    = Some (mkBoundingBox (JS.Fin a) (JS.Fin b) (JS.Fin c0) (JS.Fin d)
              (JS.Fin (b - a)) (JS.Fin (d - c0))
              (mkNPoint (JS.Fin ((a + b) / 2)) (JS.Fin ((c0 + d) / 2))))
    /\ (forall p, p ∈ _points c ->
          exists u v, x p = JS.Fin u /\ y p = JS.Fin v
                      /\ a <= u <= b /\ c0 <= v <= d)
    /\ (exists p, p ∈ _points c /\ x p = JS.Fin a)
    /\ (exists p, p ∈ _points c /\ x p = JS.Fin b)
    /\ (exists p, p ∈ _points c /\ y p = JS.Fin c0)
    /\ (exists p, p ∈ _points c /\ y p = JS.Fin d).
Proof.
  intros Hne Hfin. unfold getBoundingBox.
  destruct (_points c) as [| p l] eqn:E; [contradiction |].
  destruct (decide (length (p :: l) = 0%nat)) as [H0 | _]; [discriminate |].
  inversion Hfin as [| ? ? Hp Hl]; subst.
  destruct (finite_sample_inv p Hp) as (u & v & Ep).
  cbn [fold_left]. rewrite Ep. cbn [x y].
  replace (JS.min JS.PInf (JS.Fin u)) with (JS.Fin u) by reflexivity.
  replace (JS.max JS.NInf (JS.Fin u)) with (JS.Fin u) by reflexivity.
  replace (JS.min JS.PInf (JS.Fin v)) with (JS.Fin v) by reflexivity.
  replace (JS.max JS.NInf (JS.Fin v)) with (JS.Fin v) by reflexivity.
  destruct (bbox_fold_bounds l u u v v Hl)
    as (a' & b' & c' & d' & Hfold & Hle & Hin & Ha & Hb & Hc & Hd).
  rewrite Hfold. exists a', b', c', d'.
  split.
  { cbn [JS.sub JS.add JS.neg]. rewrite !div_fin by lra.
    do 2 f_equal; f_equal; lra. }
  split.
  { intros q Hq. apply elem_of_cons in Hq as [-> | Hq].
    - exists u, v. cbn [x y]. repeat split; lra.
    - apply Hin, Hq. }
  repeat split.
  - destruct Ha as [-> | (q & Hq & Eq)].
    + eexists. split; [apply elem_of_cons; left; reflexivity | reflexivity].
    + exists q. split; [apply elem_of_cons; right; exact Hq | exact Eq].
  - destruct Hb as [-> | (q & Hq & Eq)].
    + eexists. split; [apply elem_of_cons; left; reflexivity | reflexivity].
    + exists q. split; [apply elem_of_cons; right; exact Hq | exact Eq].
  - destruct Hc as [-> | (q & Hq & Eq)].
    + eexists. split; [apply elem_of_cons; left; reflexivity | reflexivity].
    + exists q. split; [apply elem_of_cons; right; exact Hq | exact Eq].
  - destruct Hd as [-> | (q & Hq & Eq)].
    + eexists. split; [apply elem_of_cons; left; reflexivity | reflexivity].
    + exists q. split; [apply elem_of_cons; right; exact Hq | exact Eq].
Qed.

(** X1: the bounding box of a curve with finite points encloses every
    point, by the program's own comparisons, each of its four sides
    passes through a point of the curve, and its width and height are
    the differences of its bounds. *)
Theorem getBoundingBox_encloses (c : Cyclogon.t) (bbox : BoundingBox) :
  Forall finite_sample (_points c) ->
  getBoundingBox c = Some bbox ->
  (forall p, p ∈ _points c ->
     JS.le (minX bbox) (x p) = true /\ JS.le (x p) (maxX bbox) = true
     /\ JS.le (minY bbox) (y p) = true /\ JS.le (y p) (maxY bbox) = true)
  /\ (exists p, p ∈ _points c /\ x p = minX bbox)
  /\ (exists p, p ∈ _points c /\ x p = maxX bbox)
  /\ (exists p, p ∈ _points c /\ y p = minY bbox)
  /\ (exists p, p ∈ _points c /\ y p = maxY bbox)
  /\ width bbox = maxX bbox -j minX bbox
  /\ height bbox = maxY bbox -j minY bbox
  /\ JS.le (JS.Fin 0) (width bbox) = true
  /\ JS.le (JS.Fin 0) (height bbox) = true.
Proof.
  intros Hfin Hbox.
  assert (_points c <> []) as Hne.
  { intros E. unfold getBoundingBox in Hbox. rewrite E in Hbox.
    cbn in Hbox. discriminate. }
  destruct (getBoundingBox_bounds c Hne Hfin)
    as (a & b & c0 & d & Hb & Hin & Ha' & Hb' & Hc' & Hd').
  rewrite Hb in Hbox. injection Hbox as <-.
  cbn [minX maxX minY maxY width height].
  split.
  { intros p Hp. destruct (Hin p Hp) as (u & v & -> & -> & Hu & Hv).
    cbn [JS.le]. rewrite !bool_decide_eq_true. lra. }
  do 4 (split; [assumption |]).
  split; [cbn; f_equal; lra |].
  split; [cbn; f_equal; lra |].
  destruct Ha' as (p & Hp & Ep).
  destruct (Hin p Hp) as (u & v & Eu & Ev & Hu & Hv).
  cbn [JS.le]. rewrite !bool_decide_eq_true. lra.
Qed.

Lemma getBoundingBox_encloses_witness :
  exists bbox,
    getBoundingBox twoPointCurve = Some bbox
    /\ (exists p, p ∈ _points twoPointCurve /\ x p = maxX bbox)
    /\ width bbox = maxX bbox -j minX bbox.
Proof.
  destruct (getBoundingBox twoPointCurve) as [bbox |] eqn:E.
  - exists bbox. split; [reflexivity |].
    assert (Forall finite_sample (_points twoPointCurve)) as Hfin.
    { repeat constructor. }
    pose proof (getBoundingBox_encloses twoPointCurve bbox Hfin E) as H.
    split; [apply H | apply H].
  - exfalso. unfold getBoundingBox in E. cbn in E.
    repeat match type of E with
           | context [decide ?P] => destruct (decide P)
           | context [bool_decide ?P] => destruct (bool_decide P)
           end; discriminate.
Defined.

Lemma twoPointCurve_normalize :
  exists f c', normalize twoPointCurve = (Some f, c') /\ scale_ f = JS.Fin 4.
Proof.
  unfold normalize, getBoundingBox.
  cbn [twoPointCurve addPoints fold_left addPoint Cyclogon.new _points
       with_points app length x y meta].
  destruct (decide (2%nat = 0%nat)); [discriminate |].
  cbn [JS.min JS.max JS.le].
  rewrite !(bool_decide_true (0 <= 3)) by lra.
  rewrite !(bool_decide_true (0 <= 4)) by lra.
  cbn [minX minY width height JS.sub JS.add JS.neg].
  rewrite max_fin.
  eexists _, _. split; [reflexivity |]. cbn [scale_]. f_equal.
  unfold Rmax. destruct (Rle_dec _ _); lra.
Qed.

(** X2: where the bounding box is not a single point, [normalize] moves
    every point of a curve with finite points into the unit square, with
    a point on its left side and a point on its bottom side. *)
Theorem normalize_fits_unit_square (c c' : Cyclogon.t) (f : Normalization) :
  Forall finite_sample (_points c) ->
  normalize c = (Some f, c') ->
  scale_ f <> JS.Fin 0 ->
  (forall p, p ∈ _points c' ->
     exists u v, x p = JS.Fin u /\ y p = JS.Fin v
                 /\ 0 <= u <= 1 /\ 0 <= v <= 1)
  /\ (exists p, p ∈ _points c' /\ x p = JS.Fin 0)
  /\ (exists p, p ∈ _points c' /\ y p = JS.Fin 0).
Proof.
  intros Hfin Hnorm Hscale.
  assert (_points c <> []) as Hne.
  { intros E. unfold normalize, getBoundingBox in Hnorm. rewrite E in Hnorm.
    cbn in Hnorm. discriminate. }
  destruct (getBoundingBox_bounds c Hne Hfin)
    as (a & b & c0 & d & Hb & Hin & Ha' & _ & Hc' & _).
  unfold normalize in Hnorm. rewrite Hb in Hnorm.
  cbn [minX maxX minY maxY width height] in Hnorm.
  rewrite max_fin in Hnorm.
  injection Hnorm as <- <-.
  cbn [scale_] in Hscale. cbn [_points with_points].
  set (s := Rmax (b - a) (d - c0)) in *.
  assert (s <> 0) as Hs by (intros E; apply Hscale; rewrite E; reflexivity).
  assert (b - a <= s) as Hw by apply Rmax_l.
  assert (d - c0 <= s) as Hh by apply Rmax_r.
  assert (0 < s) as Hpos.
  { destruct Ha' as (p & Hp & Ep).
    destruct (Hin p Hp) as (u & v & Eu & Ev & Hu & Hv). lra. }
  assert (forall q, q ∈ _points c ->
            exists u v,
              x q = JS.Fin u /\ y q = JS.Fin v
              /\ a <= u <= b /\ c0 <= v <= d
              /\ (x q -j JS.Fin a) /j JS.Fin s = JS.Fin ((u - a) / s)
              /\ (y q -j JS.Fin c0) /j JS.Fin s = JS.Fin ((v - c0) / s))
    as Hq.
  { intros q Hq. destruct (Hin q Hq) as (u & v & Eu & Ev & Hu & Hv).
    exists u, v. rewrite Eu, Ev. cbn [JS.sub JS.add JS.neg].
    rewrite !div_fin by exact Hs.
    repeat split; try lra; f_equal; lra. }
  split.
  { intros p Hp. apply list_elem_of_fmap in Hp as (q & -> & Hq0).
    destruct (Hq q Hq0) as (u & v & _ & _ & Hu & Hv & Ex & Ey).
    cbn [x y]. rewrite Ex, Ey.
    exists ((u - a) / s), ((v - c0) / s).
    split; [reflexivity |]. split; [reflexivity |].
    split; split.
    - apply Rmult_le_pos; [lra | left; apply Rinv_0_lt_compat, Hpos].
    - replace 1 with (s * / s) by (apply Rinv_r; lra). unfold Rdiv.
      apply Rmult_le_compat_r; [left; apply Rinv_0_lt_compat; lra | lra].
    - apply Rmult_le_pos; [lra | left; apply Rinv_0_lt_compat, Hpos].
    - replace 1 with (s * / s) by (apply Rinv_r; lra). unfold Rdiv.
      apply Rmult_le_compat_r; [left; apply Rinv_0_lt_compat; lra | lra]. }
  split.
  - destruct Ha' as (q & Hq0 & Eq).
    destruct (Hq q Hq0) as (u & v & Eu & _ & _ & _ & Ex & _).
    eexists. split; [apply list_elem_of_fmap; exists q; split; [reflexivity | exact Hq0] |].
    cbn [x]. rewrite Ex. rewrite Eq in Eu. injection Eu as <-.
    f_equal. unfold Rdiv. rewrite Rminus_diag. apply Rmult_0_l.
  - destruct Hc' as (q & Hq0 & Eq).
    destruct (Hq q Hq0) as (u & v & _ & Ev & _ & _ & _ & Ey).
    eexists. split; [apply list_elem_of_fmap; exists q; split; [reflexivity | exact Hq0] |].
    cbn [y]. rewrite Ey. rewrite Eq in Ev. injection Ev as <-.
    f_equal. unfold Rdiv. rewrite Rminus_diag. apply Rmult_0_l.
Qed.

Lemma normalize_fits_unit_square_witness :
  exists p, p ∈ _points (snd (normalize twoPointCurve)) /\ x p = JS.Fin 0.
Proof.
  destruct twoPointCurve_normalize as (f & c' & E & Hs).
  rewrite E.
  apply (normalize_fits_unit_square twoPointCurve c' f).
  - repeat constructor.
  - exact E.
  - rewrite Hs. intros H. injection H as H. lra.
Defined.

(** Names the coordinates of a sample known to be finite. *)
Ltac finite_coords p Hp u v :=
  let E := fresh "E" in
  destruct p as [? ? ?];
  destruct (finite_sample_inv _ Hp) as (u & v & E);
  cbn [meta] in E; injection E as -> ->.

(** The stretch between two samples with finite coordinates. *)
Lemma stretch_fin (u0 v0 u1 v1 : R) (m0 m1 : SampleMeta) :
  stretch (mkSample (JS.Fin u0) (JS.Fin v0) m0)
          (mkSample (JS.Fin u1) (JS.Fin v1) m1)
  = JS.Fin (sqrt ((u1 - u0) * (u1 - u0) + (v1 - v0) * (v1 - v0))).
Proof.
  unfold stretch, pow2. cbn [x y JS.sub JS.add JS.neg].
  exact (sqrt_sum_squares_fin (u1 + - u0) (v1 + - v0)).
Qed.

(** [getArcLength] is its loop, also on the short curves it answers
    ahead of the loop. *)
Lemma getArcLength_loop (c : Cyclogon.t) :
  getArcLength c = arcLength_loop (_points c) (JS.Fin 0).
Proof.
  unfold getArcLength.
  destruct (decide (length (_points c) < 2)%nat) as [H | _]; [| reflexivity].
  destruct (_points c) as [| p0 [| p1 l]]; cbn in H; try reflexivity; lia.
Qed.

Lemma arcLength_loop_cons2 (p0 p1 : Sample) (rest : list Sample)
    (acc : JS.num) :
  arcLength_loop (p0 :: p1 :: rest) acc
  = arcLength_loop (p1 :: rest) (acc +j stretch p0 p1).
Proof. reflexivity. Qed.

Lemma arcLength_loop_fin (l : list Sample) (acc : R) :
  Forall finite_sample l ->
  exists r : R, acc <= r /\ arcLength_loop l (JS.Fin acc) = JS.Fin r.
Proof.
  intros Hl. revert acc.
  induction Hl as [| p0 rest Hp0 Hrest IH]; intros acc.
  - exists acc. split; [lra | reflexivity].
  - destruct Hrest as [| p1 rest' Hp1 Hrest'].
    + exists acc. split; [lra | reflexivity].
    + finite_coords p0 Hp0 u0 v0. finite_coords p1 Hp1 u1 v1.
      rewrite arcLength_loop_cons2, stretch_fin.
      cbn [JS.add].
      destruct (IH (acc + sqrt ((u1 - u0) * (u1 - u0) + (v1 - v0) * (v1 - v0))))
        as (r & Hr & Er).
      exists r. split; [| exact Er].
      pose proof (sqrt_pos ((u1 - u0) * (u1 - u0) + (v1 - v0) * (v1 - v0))).
      lra.
Qed.

Lemma arcLength_loop_translate (l : list Sample) (dx dy : R) (acc : JS.num) :
  Forall finite_sample l ->
  arcLength_loop
    (map (fun p => mkSample (x p +j JS.Fin dx) (y p +j JS.Fin dy) (meta p)) l)
    acc
  = arcLength_loop l acc.
Proof.
  intros Hl. revert acc.
  induction Hl as [| p0 rest Hp0 Hrest IH]; intros acc; [reflexivity |].
  destruct Hrest as [| p1 rest' Hp1 Hrest']; [reflexivity |].
  finite_coords p0 Hp0 u0 v0. finite_coords p1 Hp1 u1 v1.
  cbn [map x y meta]. cbn [map x y meta] in IH.
  rewrite !arcLength_loop_cons2, IH.
  f_equal. f_equal.
  cbn [x y meta JS.add]. rewrite !stretch_fin.
  do 2 f_equal; ring.
Qed.

Lemma arcLength_loop_scale (l : list Sample) (k acc : R) :
  Forall finite_sample l ->
  arcLength_loop
    (map (fun p => mkSample (x p *j JS.Fin k) (y p *j JS.Fin k) (meta p)) l)
    (JS.Fin (Rabs k * acc))
  = JS.Fin (Rabs k) *j arcLength_loop l (JS.Fin acc).
Proof.
  intros Hl. revert acc.
  induction Hl as [| p0 rest Hp0 Hrest IH]; intros acc; [reflexivity |].
  destruct Hrest as [| p1 rest' Hp1 Hrest']; [reflexivity |].
  finite_coords p0 Hp0 u0 v0. finite_coords p1 Hp1 u1 v1.
  cbn [map x y meta JS.mul]. cbn [map x y meta JS.mul] in IH.
  rewrite !arcLength_loop_cons2, !stretch_fin.
  cbn [JS.add].
  rewrite <- IH. f_equal. f_equal.
  rewrite Rmult_plus_distr_l. f_equal.
  rewrite <- sqrt_Rsqr_abs, <- sqrt_mult_alt by apply Rle_0_sqr.
  f_equal. unfold Rsqr. ring.
Qed.

(** X3: the arc length of a curve with finite points does not change
    under [translate], and [scale] by [k] multiplies it by [|k|]. *)
Theorem getArcLength_translate_scale (c : Cyclogon.t) (k dx dy : R) :
  Forall finite_sample (_points c) ->
  getArcLength (translate c (JS.Fin dx) (JS.Fin dy)) = getArcLength c
  /\ getArcLength (scale c (JS.Fin k)) = JS.Fin (Rabs k) *j getArcLength c
  /\ exists r : R, 0 <= r /\ getArcLength c = JS.Fin r.
Proof.
  intros Hfin. rewrite !getArcLength_loop.
  cbn [translate scale _points with_points].
  split; [apply arcLength_loop_translate, Hfin |].
  split.
  - rewrite <- (arcLength_loop_scale _ k 0 Hfin).
    rewrite Rmult_0_r. reflexivity.
  - apply arcLength_loop_fin, Hfin.
Qed.

Lemma getArcLength_translate_scale_witness :
  getArcLength (scale twoPointCurve (JS.Fin (-2)))
  = JS.Fin (Rabs (-2)) *j getArcLength twoPointCurve.
Proof.
  apply (getArcLength_translate_scale twoPointCurve (-2) 0 0).
  repeat constructor.
Defined.

(** The loop of [analyzeShape] runs the loops of [getBoundingBox] and
    [getArcLength] side by side. *)
Lemma analyzeShape_loop_spec (l : list Sample) (prev : Sample)
    (bx : JS.num * JS.num * JS.num * JS.num) (acc : JS.num) :
  analyzeShape_loop l (Some prev) (bx, acc)
  = (fold_left
       (fun (b : JS.num * JS.num * JS.num * JS.num) p =>
          let '(minX, maxX, minY, maxY) := b in
          (JS.min minX (x p), JS.max maxX (x p),
           JS.min minY (y p), JS.max maxY (y p)))
       l bx,
     arcLength_loop (prev :: l) acc).
Proof.
  revert prev bx acc.
  induction l as [| p l IH]; intros prev [[[a b] c0] d] acc; [reflexivity |].
  rewrite arcLength_loop_cons2. cbn [analyzeShape_loop fold_left].
  rewrite IH. reflexivity.
Qed.

(** X4: on a curve of two points or more [analyzeShape] answers the
    bounds, width and height of [getBoundingBox], the length of
    [getArcLength] and the number of points; on a shorter curve it
    answers [null], also where the curve has one point and a bounding
    box. *)
Theorem analyzeShape_agrees (c : Cyclogon.t) :
  ((2 <= length (_points c))%nat ->
   exists a bbox,
     analyzeShape c = Some a
     /\ getBoundingBox c = Some bbox
     /\ a_minX (boundingBox a) = minX bbox
     /\ a_maxX (boundingBox a) = maxX bbox
     /\ a_minY (boundingBox a) = minY bbox
     /\ a_maxY (boundingBox a) = maxY bbox
     /\ a_width (boundingBox a) = width bbox
     /\ a_height (boundingBox a) = height bbox
     /\ arcLength a = getArcLength c
     /\ CyclogonCalculator.pointCount a = Cyclogon.pointCount c)
  /\ ((length (_points c) < 2)%nat -> analyzeShape c = None)
  /\ (length (_points c) = 1%nat ->
      analyzeShape c = None /\ is_Some (getBoundingBox c)).
Proof.
  split; [| split].
  - intros Hlen.
    unfold analyzeShape, getBoundingBox, getPoints, Cyclogon.pointCount.
    rewrite getArcLength_loop.
    destruct (decide (length (_points c) < 2)%nat) as [H | _]; [lia |].
    destruct (decide (length (_points c) = 0%nat)) as [H | _]; [lia |].
    destruct (_points c) as [| p l] eqn:E; [cbn in Hlen; lia |].
    cbn [analyzeShape_loop fold_left].
    rewrite analyzeShape_loop_spec.
    destruct (fold_left _ l _) as [[[a b] c0] d].
    eexists _, _. split; [reflexivity |]. split; [reflexivity |].
    cbn. repeat split; reflexivity.
  - intros Hlen. unfold analyzeShape, getPoints.
    destruct (decide (length (_points c) < 2)%nat) as [_ | H];
      [reflexivity | lia].
  - intros Hlen. unfold analyzeShape, getBoundingBox, getPoints.
    destruct (decide (length (_points c) < 2)%nat) as [_ | H]; [| lia].
    destruct (decide (length (_points c) = 0%nat)) as [H | _]; [lia |].
    split; [reflexivity |].
    destruct (fold_left _ _ _) as [[[a b] c0] d]. eexists. reflexivity.
Qed.

Lemma analyzeShape_agrees_witness :
  exists a,
    analyzeShape twoPointCurve = Some a
    /\ arcLength a = getArcLength twoPointCurve.
Proof.
  destruct (proj1 (analyzeShape_agrees twoPointCurve)) as (a & bbox & H).
  - cbn. lia.
  - exists a. split; apply H.
Defined.

Lemma fold_left_map {A B C : Type} (f : A -> B -> A) (g : C -> B)
    (l : list C) (a : A) :
  fold_left f (map g l) a = fold_left (fun a c => f a (g c)) l a.
Proof. revert a. induction l as [| c l IH]; intros a; [reflexivity | apply IH]. Qed.

(** The arc length reads the coordinates of the samples only. *)
Lemma arcLength_loop_strip (l : list Sample) (acc : JS.num) :
  arcLength_loop (map (fun p => mkSample (x p) (y p) PlainMeta) l) acc
  = arcLength_loop l acc.
Proof.
  revert acc. induction l as [| p0 [| p1 l] IH]; intros acc; try reflexivity.
  cbn [map] in *. rewrite !arcLength_loop_cons2, IH. reflexivity.
Qed.

(** X5: [fromJSON] of [toJSON] keeps the coordinates, the type and the
    metadata of the curve; it loses the source shape and what the samples
    carry besides their coordinates, and replaces a timestamp of zero by
    the clock reading.  With a timestamp other than zero, serialising the
    rebuilt curve gives the same object again. *)
Theorem toJSON_fromJSON_round_trip (now : Z) (c : Cyclogon.t) :
  let c' := fromJSON now (toJSON c) in
  getCoordinates c' = getCoordinates c
  /\ _type c' = _type c
  /\ _metadata c' = _metadata c
  /\ _sourceShape c' = None
  /\ (forall p, p ∈ _points c' -> meta p = PlainMeta)
  /\ _timestamp c'
     = (if decide (_timestamp c = 0)%Z then now else _timestamp c)
  /\ (_timestamp c <> 0%Z -> toJSON c' = toJSON c).
Proof.
  cbn zeta.
  assert (_points (fromJSON now (toJSON c))
          = map (fun p => mkSample (x p) (y p) PlainMeta) (_points c)) as Hpts.
  { unfold fromJSON, toJSON. cbn [_points j_points].
    rewrite map_map. reflexivity. }
  assert (getCoordinates (fromJSON now (toJSON c)) = getCoordinates c) as Hco.
  { unfold getCoordinates. rewrite Hpts, map_map. reflexivity. }
  split; [exact Hco |].
  split; [reflexivity |]. split; [reflexivity |]. split; [reflexivity |].
  split.
  { intros p Hp. rewrite Hpts in Hp.
    apply list_elem_of_fmap in Hp as (q & -> & _). reflexivity. }
  split; [reflexivity |].
  intros Hts. unfold toJSON at 1.
  fold (getCoordinates (fromJSON now (toJSON c))). rewrite Hco.
  rewrite Hpts, length_map.
  assert (getBoundingBox (fromJSON now (toJSON c)) = getBoundingBox c) as ->.
  { unfold getBoundingBox. rewrite Hpts, length_map, fold_left_map.
    reflexivity. }
  assert (getArcLength (fromJSON now (toJSON c)) = getArcLength c) as ->.
  { rewrite !getArcLength_loop, Hpts. apply arcLength_loop_strip. }
  unfold fromJSON, toJSON, getCoordinates.
  cbn [_type _metadata _timestamp j_type j_metadata j_timestamp].
  destruct (decide (_timestamp c = 0)%Z) as [H | _]; [contradiction |].
  reflexivity.
Qed.

Lemma toJSON_fromJSON_round_trip_witness :
  toJSON (fromJSON 7 (toJSON (Cyclogon.mk "cycloid" None [] ∅ 5)))
  = toJSON (Cyclogon.mk "cycloid" None [] ∅ 5).
Proof.
  apply (toJSON_fromJSON_round_trip 7 (Cyclogon.mk "cycloid" None [] ∅ 5)).
  cbn. lia.
Defined.

Lemma addPoints_points (c : Cyclogon.t) (points : list Sample) :
  addPoints c points = with_points c (_points c ++ points).
Proof.
  unfold addPoints.
  rewrite <- (map_id points) at 2.
  rewrite <- (fold_addPoint_skip (fun p : Sample => p) (fun _ => false)
               points c)
    by reflexivity.
  reflexivity.
Qed.

(** X6: [merge] strings the points of the curves together, in the order
    of the curves, under the type [merged]; the metadata and the source
    shapes of the curves are not carried over. *)
Theorem merge_concatenates (now : Z) (cyclogons : list Cyclogon.t) :
  merge now cyclogons
  = Cyclogon.mk "merged" None (concat (map getPoints cyclogons)) ∅ now.
Proof.
  unfold merge.
  destruct (decide (length cyclogons = 0%nat)) as [H | _].
  { destruct cyclogons; [reflexivity | discriminate]. }
  change (Cyclogon.mk "merged" None (concat (map getPoints cyclogons)) ∅ now)
    with (with_points (Cyclogon.new now "merged" None)
            (_points (Cyclogon.new now "merged" None)
             ++ concat (map getPoints cyclogons))).
  generalize (Cyclogon.new now "merged" None) as m.
  induction cyclogons as [| c cs IH]; intros m.
  - cbn [fold_left map concat]. rewrite app_nil_r.
    destruct m; reflexivity.
  - cbn [fold_left map concat]. rewrite IH, addPoints_points.
    cbn [_points with_points]. rewrite <- app_assoc. reflexivity.
Qed.

Lemma distanceTo_fin (p : Sample) (u0 v0 : R) :
  finite_sample p ->
  exists d : R, 0 <= d /\ distanceTo p (mkNPoint (JS.Fin u0) (JS.Fin v0)) = JS.Fin d.
Proof.
  intros Hp. finite_coords p Hp u v.
  unfold distanceTo, pow2. cbn [x y nx ny JS.sub JS.add JS.neg].
  exists (sqrt ((u + - u0) * (u + - u0) + (v + - v0) * (v + - v0))).
  split; [apply sqrt_pos | exact (sqrt_sum_squares_fin _ _)].
Qed.

(** The search loop of [findClosestPoint] from a finite best distance,
    over the points numbered from [n]. *)
Lemma closest_fold (position : NPoint) (l : list Sample) (n i0 : nat)
    (m0 : JS.num) :
  (forall p, p ∈ l -> JS.is_finite (distanceTo p position)) ->
  JS.is_finite m0 ->
  exists (i : nat) (m : JS.num),
    fold_left
      (fun (st : nat * JS.num) (ip : nat * Sample) =>
         let '(i, p) := ip in
         let distance :=
           JS.sqrt (pow2 (x p -j nx position) +j pow2 (y p -j ny position)) in
         if JS.lt distance (snd st) then (i, distance) else st)
      (imap (fun i p => ((n + i)%nat, p)) l) (i0, m0)
    = (i, m)
    /\ JS.is_finite m
    /\ JS.le m m0 = true
    /\ (forall j q, l !! j = Some q -> JS.le m (distanceTo q position) = true)
    /\ ((i = i0 /\ m = m0)
        \/ exists j q,
             i = (n + j)%nat /\ l !! j = Some q /\ m = distanceTo q position
             /\ JS.lt m m0 = true
             /\ forall j' q', (j' < j)%nat -> l !! j' = Some q' ->
                  JS.lt m (distanceTo q' position) = true).
Proof.
  revert n i0 m0.
  induction l as [| p l IH]; intros n i0 m0 Hl Hm0.
  - exists i0, m0. cbn [imap fold_left].
    split; [reflexivity |]. split; [exact Hm0 |].
    split; [destruct m0; try contradiction; cbn; apply bool_decide_eq_true; lra |].
    split; [intros j q H; rewrite lookup_nil in H; discriminate |].
    left. split; reflexivity.
  - cbn [imap fold_left].
    change (JS.sqrt (pow2 (x p -j nx position) +j pow2 (y p -j ny position)))
      with (distanceTo p position).
    assert (JS.is_finite (distanceTo p position)) as Hp
      by (apply Hl, elem_of_cons; left; reflexivity).
    assert (forall q, q ∈ l -> JS.is_finite (distanceTo q position)) as Hl'
      by (intros q Hq; apply Hl, elem_of_cons; right; exact Hq).
    destruct (distanceTo p position) as [dp | | |] eqn:Edp; try contradiction.
    destruct m0 as [r0 | | |]; try contradiction.
    cbn [snd].
    assert (imap ((fun (i : nat) (p : Sample) => ((n + i)%nat, p)) ∘ S) l
            = imap (fun i p => ((S n + i)%nat, p)) l) as ->.
    { apply imap_ext. intros i q _. cbn. f_equal. lia. }
    destruct (JS.lt (JS.Fin dp) (JS.Fin r0)) eqn:Elt.
    + cbn [JS.lt] in Elt. apply bool_decide_eq_true in Elt.
      destruct (IH (S n) (n + 0)%nat (JS.Fin dp) Hl' I)
        as (i & m & Hfold & Hfin & Hle & Hall & Hcase).
      exists i, m. split; [exact Hfold |]. split; [exact Hfin |].
      destruct m as [r | | |]; try contradiction.
      cbn [JS.le] in Hle. apply bool_decide_eq_true in Hle.
      split; [cbn [JS.le]; apply bool_decide_eq_true; lra |].
      split.
      { intros [| j] q Hq; cbn in Hq.
        - injection Hq as <-. rewrite Edp. cbn [JS.le].
          apply bool_decide_eq_true. lra.
        - apply (Hall j q Hq). }
      right. destruct Hcase as [[-> Em] | (j & q & -> & Hq & Em & Hlt & Hfirst)].
      * exists 0%nat, p. injection Em as ->.
        split; [reflexivity |]. split; [reflexivity |].
        split; [symmetry; exact Edp |].
        split; [cbn [JS.lt]; apply bool_decide_eq_true; lra |].
        intros j' q' Hj'. lia.
      * exists (S j), q. split; [lia |]. split; [exact Hq |].
        split; [exact Em |].
        cbn [JS.lt] in Hlt. apply bool_decide_eq_true in Hlt.
        split; [cbn [JS.lt]; apply bool_decide_eq_true; lra |].
        intros [| j'] q' Hj' Hq'; cbn in Hq'.
        -- injection Hq' as <-. rewrite Edp. cbn [JS.lt].
           apply bool_decide_eq_true. lra.
        -- apply (Hfirst j' q'); [lia | exact Hq'].
    + cbn [JS.lt] in Elt. apply bool_decide_eq_false in Elt.
      destruct (IH (S n) i0 (JS.Fin r0) Hl' I)
        as (i & m & Hfold & Hfin & Hle & Hall & Hcase).
      exists i, m. split; [exact Hfold |]. split; [exact Hfin |].
      destruct m as [r | | |]; try contradiction.
      cbn [JS.le] in Hle. apply bool_decide_eq_true in Hle.
      split; [cbn [JS.le]; apply bool_decide_eq_true; lra |].
      split.
      { intros [| j] q Hq; cbn in Hq.
        - injection Hq as <-. rewrite Edp. cbn [JS.le].
          apply bool_decide_eq_true. lra.
        - apply (Hall j q Hq). }
      destruct Hcase as [[-> Em] | (j & q & -> & Hq & Em & Hlt & Hfirst)].
      * left. split; [reflexivity | exact Em].
      * right. exists (S j), q. split; [lia |]. split; [exact Hq |].
        split; [exact Em |]. split; [exact Hlt |].
        cbn [JS.lt] in Hlt. apply bool_decide_eq_true in Hlt.
        intros [| j'] q' Hj' Hq'; cbn in Hq'.
        -- injection Hq' as <-. rewrite Edp. cbn [JS.lt].
           apply bool_decide_eq_true. lra.
        -- apply (Hfirst j' q'); [lia | exact Hq'].
Qed.

(** X7: on a curve with points at a finite distance of [position],
    [findClosestPoint] answers a point of the curve with its index and
    its distance; no point of the curve is nearer, and every point before
    it is farther.  It answers [null] on the empty curve only. *)
Theorem findClosestPoint_nearest (c : Cyclogon.t) (position : NPoint) :
  (findClosestPoint c position = None <-> _points c = [])
  /\ (_points c <> [] ->
      (forall p, p ∈ _points c -> JS.is_finite (distanceTo p position)) ->
      exists r,
        findClosestPoint c position = Some r
        /\ _points c !! cl_index r = Some (cl_point r)
        /\ cl_distance r = distanceTo (cl_point r) position
        /\ forall j q, _points c !! j = Some q ->
             JS.le (cl_distance r) (distanceTo q position) = true
             /\ ((j < cl_index r)%nat ->
                 JS.lt (cl_distance r) (distanceTo q position) = true)).
Proof.
  assert (forall l (st : nat * JS.num) (n : nat),
            let r :=
              fold_left
                (fun (st : nat * JS.num) (ip : nat * Sample) =>
                   let '(i, p) := ip in
                   let distance :=
                     JS.sqrt (pow2 (x p -j nx position)
                              +j pow2 (y p -j ny position)) in
                   if JS.lt distance (snd st) then (i, distance) else st)
                (imap (fun i p => ((n + i)%nat, p)) l) st in
            r.1 = st.1 \/ (n <= r.1 < n + length l)%nat) as Hrange.
  { induction l as [| p l IH]; intros st n; [left; reflexivity |].
    cbn [imap fold_left].
    assert (imap ((fun (i : nat) (p : Sample) => ((n + i)%nat, p)) ∘ S) l
            = imap (fun i p => ((S n + i)%nat, p)) l) as ->.
    { apply imap_ext. intros i q _. cbn. f_equal. lia. }
    cbn [length]. destruct (JS.lt _ st.2).
    - destruct (IH ((n + 0)%nat,
                    JS.sqrt (pow2 (x p -j nx position)
                             +j pow2 (y p -j ny position))) (S n))
        as [H | H]; cbn [fst] in H; right; cbn zeta in *; lia.
    - destruct (IH st (S n)) as [H | H]; [left; exact H | right; cbn zeta in *; lia]. }
  split.
  - unfold findClosestPoint.
    destruct (decide (length (_points c) = 0%nat)) as [H0 | Hne].
    { split; [intros _; destruct (_points c); [reflexivity | discriminate]
             | reflexivity]. }
    split; [| intros E; rewrite E in Hne; contradiction].
    intros Hnone. exfalso.
    pose proof (Hrange (_points c) (0%nat, JS.PInf) 0%nat) as H.
    cbn zeta in H. cbn [fst] in H.
    change (fun (i : nat) (p : Sample) => ((0 + i)%nat, p))
      with (fun (i : nat) (p : Sample) => (i, p)) in H.
    destruct (fold_left _ _ _) as [closestIndex minDistance] eqn:Efold.
    cbn [fst] in H.
    destruct (_points c !! closestIndex) as [pt |] eqn:Elook;
      [discriminate |].
    apply lookup_ge_None in Elook. lia.
  - intros Hne Hfin. unfold findClosestPoint.
    destruct (_points c) as [| p l] eqn:E; [contradiction |].
    destruct (decide (length (p :: l) = 0%nat)) as [H0 | _]; [discriminate |].
    cbn [imap fold_left snd].
    assert (imap ((fun (i : nat) (p : Sample) => (i, p)) ∘ S) l
            = imap (fun i p => ((1 + i)%nat, p)) l) as ->.
    { apply imap_ext. intros i q _. reflexivity. }
    change (JS.sqrt (pow2 (x p -j nx position) +j pow2 (y p -j ny position)))
      with (distanceTo p position).
    assert (JS.is_finite (distanceTo p position)) as Hp
      by (apply Hfin, elem_of_cons; left; reflexivity).
    assert (forall q, q ∈ l -> JS.is_finite (distanceTo q position)) as Hl
      by (intros q Hq; apply Hfin, elem_of_cons; right; exact Hq).
    destruct (distanceTo p position) as [dp | | |] eqn:Edp; try contradiction.
    cbn [JS.lt].
    destruct (closest_fold position l 1 0 (JS.Fin dp) Hl I)
      as (i & m & Hfold & Hm & Hle & Hall & Hcase).
    cbn zeta in Hfold. rewrite Hfold.
    destruct m as [r | | |]; try contradiction.
    cbn [JS.le] in Hle. apply bool_decide_eq_true in Hle.
    destruct Hcase as [[-> Em] | (j & q & -> & Hq & Em & Hlt & Hfirst)].
    + injection Em as ->. cbn [lookup list_lookup mbind option_bind].
      eexists. split; [reflexivity |]. cbn [cl_index cl_point cl_distance].
      split; [reflexivity |]. split; [symmetry; exact Edp |].
      intros [| j] q Hq; cbn in Hq.
      * injection Hq as <-. rewrite Edp. split; [| lia].
        cbn [JS.le]. apply bool_decide_eq_true. lra.
      * split; [apply (Hall j q Hq) | lia].
    + change ((p :: l) !! (1 + j)%nat) with (l !! j). rewrite Hq.
      cbn [mbind option_bind].
      eexists. split; [reflexivity |]. cbn [cl_index cl_point cl_distance].
      split; [exact Hq |]. split; [exact Em |].
      cbn [JS.lt] in Hlt. apply bool_decide_eq_true in Hlt.
      intros [| j'] q' Hq'; cbn in Hq'.
      * injection Hq' as <-. rewrite Edp. split.
        -- cbn [JS.le]. apply bool_decide_eq_true. lra.
        -- intros _. cbn [JS.lt]. apply bool_decide_eq_true. lra.
      * split; [apply (Hall j' q' Hq') |].
        intros Hj'. apply (Hfirst j' q'); [lia | exact Hq'].
Qed.

Lemma findClosestPoint_nearest_witness :
  exists r,
    findClosestPoint twoPointCurve (mkNPoint (JS.Fin 3) (JS.Fin 3)) = Some r
    /\ _points twoPointCurve !! cl_index r = Some (cl_point r).
Proof.
  destruct
    (proj2 (findClosestPoint_nearest twoPointCurve
              (mkNPoint (JS.Fin 3) (JS.Fin 3))))
    as (r & H1 & H2 & _).
  - discriminate.
  - intros p Hp.
    destruct (distanceTo_fin p 3 3) as (d & _ & ->); [| exact I].
    cbn in Hp. repeat (apply elem_of_cons in Hp as [-> | Hp]);
      [split; exact I | split; exact I | inversion Hp].
  - exists r. split; assumption.
Defined.

(** The loop of [subsample] with a step of one or more, from index [a]:
    it picks the points at [a], [a + s], ... up to the last such index
    [m] inside the curve. *)
Lemma subsample_loop_spec (points : list Sample) (s : nat) :
  (1 <= s)%nat ->
  forall (fuel a : nat) (result : list (option Sample)),
    (length points <= a + fuel)%nat ->
    ((length points <= a)%nat ->
     subsample_loop fuel points (Z.of_nat s) (Z.of_nat a) result = Some result)
    /\ ((a < length points)%nat ->
        exists (picked : list Sample) (m k : nat),
          subsample_loop fuel points (Z.of_nat s) (Z.of_nat a) result
          = Some (result ++ map Some picked)
          /\ m = (a + k * s)%nat
          /\ (m < length points <= m + s)%nat
          /\ head picked = points !! a
          /\ last picked = points !! m
          /\ picked `sublist_of` take (m + 1 - a) (drop a points)).
Proof.
  intros Hs fuel.
  induction fuel as [| fuel IH]; intros a result Hfuel.
  - split; [| lia]. intros _. cbn [subsample_loop].
    destruct (decide (Z.of_nat a < Z.of_nat (length points))%Z); [lia |].
    reflexivity.
  - split.
    + intros Ha. cbn [subsample_loop].
      destruct (decide (Z.of_nat a < Z.of_nat (length points))%Z); [lia |].
      reflexivity.
    + intros Ha. cbn [subsample_loop].
      destruct (decide (Z.of_nat a < Z.of_nat (length points))%Z); [| lia].
      destruct (lookup_lt_is_Some_2 points a Ha) as [p Ep].
      assert (copy_at points (Z.of_nat a) = Some p) as ->.
      { unfold copy_at. destruct (decide (Z.of_nat a < 0)%Z); [lia |].
        rewrite Nat2Z.id. exact Ep. }
      replace (Z.of_nat a + Z.of_nat s)%Z with (Z.of_nat (a + s)) by lia.
      destruct (IH (a + s)%nat (result ++ [Some p])) as [Hout Hin]; [lia |].
      destruct (decide (length points <= a + s)%nat) as [Hend | Hmore].
      * exists [p], a, 0%nat. rewrite (Hout Hend).
        split; [reflexivity |]. split; [lia |]. split; [lia |].
        split; [symmetry; exact Ep |]. split; [symmetry; exact Ep |].
        replace (a + 1 - a)%nat with 1%nat by lia.
        rewrite (drop_S _ _ _ Ep). cbn [take]. reflexivity.
      * destruct Hin as (picked & m & k & Hloop & Hm & Hbound & Hhead & Hlast
                         & Hsub); [lia |].
        exists (p :: picked), m, (S k). rewrite Hloop.
        split; [rewrite <- app_assoc; reflexivity |].
        split; [lia |]. split; [lia |].
        split; [symmetry; exact Ep |].
        split.
        { destruct picked as [| q picked'].
          - cbn in Hhead. symmetry in Hhead.
            apply lookup_ge_None in Hhead. lia.
          - exact Hlast. }
        rewrite (drop_S _ _ _ Ep).
        replace (m + 1 - a)%nat with (S (m - a)) by lia. cbn [take].
        apply sublist_skip.
        etransitivity; [exact Hsub |].
        replace (drop (a + s) points)
          with (drop (s - 1) (drop (S a) points))
          by (rewrite drop_drop; f_equal; lia).
        rewrite take_drop_commute.
        replace (s - 1 + (m + 1 - (a + s)))%nat with (m - a)%nat by lia.
        apply sublist_drop.
Qed.

(** X8: with a step of one or more, and passes enough for the length of
    the curve, [subsample] of a curve with points answers points of the
    curve in their order, the first point first and the last point
    last. *)
Theorem subsample_keeps_ends (fuel : nat) (c : Cyclogon.t) (step : Z) :
  (1 <= step)%Z ->
  _points c <> [] ->
  (length (_points c) <= fuel)%nat ->
  exists out,
    subsample fuel c step = Some (map Some out)
    /\ out `sublist_of` _points c
    /\ head out = head (_points c)
    /\ last out = last (_points c).
Proof.
  intros Hstep Hne Hfuel.
  assert (0 < length (_points c))%nat as Hlen
    by (destruct (_points c); [contradiction | cbn; lia]).
  set (s := Z.to_nat step).
  assert (1 <= s)%nat as Hs by lia.
  assert (step = Z.of_nat s) as Estep by lia.
  unfold subsample. rewrite Estep.
  destruct (subsample_loop_spec (_points c) s Hs fuel 0 []) as [_ H]; [lia |].
  destruct (H Hlen) as (picked & m & k & Hloop & Hm & Hbound & Hhead & Hlast
                        & Hsub).
  change (Z.of_nat 0) with 0%Z in Hloop. rewrite Hloop.
  cbn [app mbind option_bind].
  rewrite drop_0 in Hsub. replace (m + 1 - 0)%nat with (m + 1)%nat in Hsub by lia.
  assert (head (_points c) = _points c !! 0%nat) as Ehead
    by (destruct (_points c); reflexivity).
  destruct (decide (Z.of_nat s = 0
                    \/ Z.rem (Z.of_nat (length (_points c)) - 1) (Z.of_nat s)
                       <> 0)%Z) as [[H0 | Hrem] | Hrem].
  - lia.
  - assert (m <> length (_points c) - 1)%nat as Hm'.
    { intros E. apply Hrem.
      replace (Z.of_nat (length (_points c)) - 1)%Z
        with (Z.of_nat k * Z.of_nat s)%Z by lia.
      apply Z.rem_mul. lia. }
    destruct (lookup_lt_is_Some_2 (_points c) (length (_points c) - 1))
      as [final Efinal]; [lia |].
    assert (copy_at (_points c) (Z.of_nat (length (_points c)) - 1)
            = Some final) as ->.
    { unfold copy_at. destruct (decide (_ < 0)%Z); [lia |].
      replace (Z.to_nat (Z.of_nat (length (_points c)) - 1))
        with (length (_points c) - 1)%nat by lia.
      exact Efinal. }
    exists (picked ++ [final]).
    split; [rewrite map_app; reflexivity |].
    split.
    { rewrite <- (take_drop (m + 1) (_points c)) at 1.
      apply sublist_app; [exact Hsub |].
      replace (drop (m + 1) (_points c))
        with (take (length (_points c) - 1 - (m + 1))
                (drop (m + 1) (_points c))
              ++ drop (length (_points c) - 1 - (m + 1))
                   (drop (m + 1) (_points c)))
        by apply take_drop.
      apply sublist_inserts_l.
      rewrite drop_drop.
      replace (m + 1 + (length (_points c) - 1 - (m + 1)))%nat
        with (length (_points c) - 1)%nat by lia.
      rewrite (drop_S _ _ _ Efinal), drop_ge by lia. reflexivity. }
    split.
    { destruct picked as [| q picked'].
      - cbn in Hhead. symmetry in Hhead. apply lookup_ge_None in Hhead. lia.
      - cbn [app head]. rewrite Ehead. exact Hhead. }
    rewrite last_snoc, last_lookup.
    replace (pred (length (_points c))) with (length (_points c) - 1)%nat
      by lia.
    symmetry. exact Efinal.
  - exists picked. split; [reflexivity |].
    split.
    { etransitivity; [exact Hsub | apply sublist_take]. }
    split; [rewrite Ehead; exact Hhead |].
    rewrite Hlast, last_lookup.
    f_equal.
    assert (Z.rem (Z.of_nat (length (_points c)) - 1) (Z.of_nat s) = 0)%Z
      as Hzero by lia.
    rewrite Z.rem_mod_nonneg in Hzero by lia.
    apply Z.mod_divide in Hzero; [| lia].
    destruct Hzero as [q Hq].
    assert (0 <= q)%Z by nia.
    assert (Z.of_nat k = q) by nia.
    nia.
Qed.

Lemma subsample_keeps_ends_witness :
  exists out,
    subsample 2 twoPointCurve 2 = Some (map Some out)
    /\ head out = head (_points twoPointCurve)
    /\ last out = last (_points twoPointCurve).
Proof.
  destruct (subsample_keeps_ends 2 twoPointCurve 2) as (out & H1 & _ & H2).
  - lia.
  - discriminate.
  - cbn. lia.
  - exists out. split; [exact H1 | exact H2].
Defined.

(** X9: outside that range [subsample] misbehaves: on the empty curve
    with a step of two or more, the default among them, it answers one
    empty object; on a curve with points and a step of zero or less its
    loop does not end. *)
Theorem subsample_degenerate (c : Cyclogon.t) (step : Z) :
  (_points c = [] -> (2 <= step)%Z ->
   forall fuel, subsample fuel c step = Some [None])
  /\ (_points c <> [] -> (step <= 0)%Z ->
      forall fuel, subsample fuel c step = None).
Proof.
  split.
  - intros E Hstep fuel. unfold subsample. rewrite E.
    assert (subsample_loop fuel [] step 0 [] = Some []) as ->.
    { destruct fuel; reflexivity. }
    cbn [mbind option_bind length app].
    destruct (decide (step = 0 \/ Z.rem (Z.of_nat 0 - 1) step <> 0)%Z)
      as [_ | H].
    + reflexivity.
    + exfalso. apply H. right.
      change (Z.of_nat 0 - 1)%Z with (Z.opp 1).
      rewrite Z.rem_opp_l by lia. rewrite Z.rem_small by lia. lia.
  - intros Hne Hstep fuel. unfold subsample.
    assert (0 < length (_points c))%nat as Hlen
      by (destruct (_points c); [contradiction | cbn; lia]).
    assert (forall i result, (i <= 0)%Z ->
              subsample_loop fuel (_points c) step i result = None) as Hloop.
    { induction fuel as [| fuel IH]; intros i result Hi; cbn [subsample_loop];
        (destruct (decide (i < Z.of_nat (length (_points c)))%Z); [| lia]).
      - reflexivity.
      - apply IH. lia. }
    rewrite Hloop by lia. reflexivity.
Qed.

Lemma subsample_degenerate_witness :
  subsample 5 (Cyclogon.new 0 "cycloid" None) 2 = Some [None]
  /\ subsample 5 twoPointCurve 0 = None.
Proof.
  split.
  - apply (subsample_degenerate (Cyclogon.new 0 "cycloid" None) 2);
      [reflexivity | lia].
  - apply (subsample_degenerate twoPointCurve 0); [discriminate | lia].
Defined.

End CurveMeasures.

(* ================================================================== *)
(** ** The geometry of a constructed polygon *)

Section RegularPolygon.

Import Polygon.

Lemma omap_Some_map {A B : Type} (f : A -> option B) (g : A -> B)
    (l : list A) :
  (forall a, a ∈ l -> f a = Some (g a)) -> omap f l = map g l.
Proof.
  induction l as [| a l IH]; intros Hall; [reflexivity |].
  cbn [omap list_omap map]. rewrite (Hall a (list_elem_of_here a l)).
  f_equal. apply IH. intros a' Ha'. apply Hall, list_elem_of_further, Ha'.
Qed.

(** What the constructor stores: the arguments, the vertices at equal
    steps around the circle, and an edge from each vertex to the next,
    the last edge back to vertex 0. *)
Lemma new_geometry (n : Z) (r off : R) (p : Polygon.t) :
  Polygon.new n r off = JS.Ok p ->
  (3 <= n)%Z /\ 0 < r
  /\ p = _calculateGeometry (Polygon.mk n r off [] [])
  /\ vertices p = map (fun i : Z => vertexAt n r off i)
                    (JS.range 0 (Z.to_nat n))
  /\ edges p = map (fun i : Z =>
                      mkEdge (vertexAt n r off i)
                             (vertexAt n r off (Z.rem (i + 1) n)) i)
                 (JS.range 0 (Z.to_nat n)).
Proof.
  unfold Polygon.new.
  destruct (decide (n < 3)%Z) as [| Hn]; [discriminate |].
  destruct (decide (r <= 0)) as [| Hr]; [discriminate |].
  intros [= <-].
  split; [lia |]. split; [lra |]. split; [reflexivity |].
  split; [reflexivity |].
  unfold _calculateGeometry. cbn [edges sides radius rotationOffset].
  apply omap_Some_map. intros i Hi. apply range_elem_of in Hi.
  pose proof (Z.rem_bound_pos (i + 1) n ltac:(lia) ltac:(lia)) as Hrem.
  rewrite !list_lookup_fmap.
  rewrite (range_lookup 0 (Z.to_nat n) (Z.to_nat i)) by lia.
  rewrite (range_lookup 0 (Z.to_nat n) (Z.to_nat (Z.rem (i + 1) n))) by lia.
  cbn [fmap option_fmap option_map mbind option_bind].
  rewrite !Z.add_0_l, !Z2Nat.id by lia. reflexivity.
Qed.

Lemma sin_PI_over_sides (n : Z) :
  (3 <= n)%Z -> 0 < sin (PI / IZR n) /\ 0 < cos (PI / IZR n).
Proof.
  intros Hn. pose proof PI_RGT_0 as Hpi.
  assert (3 <= IZR n) as Hn' by (apply IZR_le in Hn; exact Hn).
  assert (0 < PI / IZR n) as H0 by (apply Rdiv_lt_0_compat; lra).
  assert (PI / IZR n <= PI / 3) as H3.
  { unfold Rdiv. apply Rmult_le_compat_l; [lra |].
    apply Rinv_le_contravar; lra. }
  split.
  - apply sin_gt_0; lra.
  - apply cos_gt_0; lra.
Qed.

(** The end of edge [i] sits one step after its start, also on the last
    edge, which ends at vertex 0: a full turn later. *)
Lemma edge_end_coords (n : Z) (r off : R) (i : Z) :
  (3 <= n)%Z -> (0 <= i < n)%Z ->
  let a := off + IZR i * (MATH.TWO_PI / IZR n) in
  let v := vertexAt n r off (Z.rem (i + 1) n) in
  vx v = cos (a + 2 * (PI / IZR n)) * r
  /\ vy v = sin (a + 2 * (PI / IZR n)) * r.
Proof.
  intros Hn Hi. cbn zeta. unfold vertexAt. cbn [vx vy].
  assert (IZR n <> 0) as Hn0 by (apply not_0_IZR; lia).
  destruct (decide (i + 1 < n)%Z) as [Hlt | Hge].
  - rewrite Z.rem_small by lia. rewrite plus_IZR.
    unfold MATH.TWO_PI.
    replace (off + (IZR i + 1) * (PI * 2 / IZR n))
      with (off + IZR i * (PI * 2 / IZR n) + 2 * (PI / IZR n))
      by (field; exact Hn0).
    split; reflexivity.
  - assert (i + 1 = n)%Z as -> by lia.
    rewrite Z.rem_same by lia.
    assert (IZR i = IZR n - 1) as -> by (rewrite <- minus_IZR; f_equal; lia).
    unfold MATH.TWO_PI.
    replace (off + (IZR n - 1) * (PI * 2 / IZR n) + 2 * (PI / IZR n))
      with (off + 0 * (PI * 2 / IZR n) + 2 * INR 1 * PI)
      by (cbn [INR]; field; exact Hn0).
    rewrite cos_period, sin_period. split; reflexivity.
Qed.

(** The chord of one step on the circle of radius [r]. *)
Lemma chord_length (r a h : R) :
  0 < r -> 0 < sin h ->
  sqrt ((cos (a + 2 * h) * r - cos a * r) * (cos (a + 2 * h) * r - cos a * r)
        + (sin (a + 2 * h) * r - sin a * r) * (sin (a + 2 * h) * r - sin a * r))
  = 2 * r * sin h.
Proof.
  intros Hr Hs.
  pose proof (sin2_cos2 a) as H0. pose proof (sin2_cos2 (a + 2 * h)) as H1.
  unfold Rsqr in H0, H1.
  assert (cos (a + 2 * h) * cos a + sin (a + 2 * h) * sin a
          = 1 - 2 * sin h * sin h) as H2.
  { rewrite <- cos_minus, <- cos_2a_sin. f_equal. ring. }
  rewrite <- (sqrt_square (2 * r * sin h)) by nra.
  f_equal.
  transitivity
    (r * r * ((sin (a + 2 * h) * sin (a + 2 * h)
               + cos (a + 2 * h) * cos (a + 2 * h))
              + (sin a * sin a + cos a * cos a)
              - 2 * (cos (a + 2 * h) * cos a + sin (a + 2 * h) * sin a)));
    [ring |].
  rewrite H0, H1, H2. ring.
Qed.

Lemma edge_length (n : Z) (r off : R) (i : Z) :
  (3 <= n)%Z -> 0 < r -> (0 <= i < n)%Z ->
  getLength (mkEdge (vertexAt n r off i)
                    (vertexAt n r off (Z.rem (i + 1) n)) i)
  = 2 * r * sin (PI / IZR n).
Proof.
  intros Hn Hr Hi. unfold getLength. cbn [start end_].
  destruct (edge_end_coords n r off i Hn Hi) as [-> ->].
  unfold vertexAt. cbn [vx vy].
  apply chord_length; [exact Hr | apply (proj1 (sin_PI_over_sides n Hn))].
Qed.

Lemma sum_constant {A : Type} (f : A -> R) (l : list A) (v : R) :
  (forall a, a ∈ l -> f a = v) ->
  fold_right Rplus 0 (map f l) = INR (length l) * v.
Proof.
  induction l as [| a l IH]; intros Hall; [cbn; ring |].
  cbn [map fold_right length]. rewrite S_INR.
  rewrite IH by (intros a' Ha'; apply Hall, list_elem_of_further, Ha').
  rewrite (Hall a (list_elem_of_here a l)). ring.
Qed.

(** X10: every edge of a constructed polygon, the closing one among
    them, has the length [getSideLength] answers, which is positive; the
    lengths of the edges add up to [getPerimeter]. *)
Theorem edges_have_side_length (n : Z) (r off : R) (p : Polygon.t) :
  Polygon.new n r off = JS.Ok p ->
  (forall e, e ∈ edges p -> getLength e = getSideLength p)
  /\ 0 < getSideLength p
  /\ fold_right Rplus 0 (map getLength (edges p)) = getPerimeter p.
Proof.
  intros Hnew.
  destruct (new_geometry n r off p Hnew) as (Hn & Hr & Hp & Hvs & Hes).
  assert (sides p = n /\ radius p = r) as [Hsides Hradius]
    by (rewrite Hp; split; reflexivity).
  assert (forall e, e ∈ edges p -> getLength e = getSideLength p) as Hall.
  { intros e He. rewrite Hes in He.
    apply list_elem_of_fmap in He as (i & -> & Hi).
    apply range_elem_of in Hi.
    unfold getSideLength. rewrite Hsides, Hradius.
    apply edge_length; [exact Hn | exact Hr | lia]. }
  split; [exact Hall |].
  split.
  { unfold getSideLength. rewrite Hsides, Hradius.
    pose proof (sin_PI_over_sides n Hn) as [Hs _]. nra. }
  unfold getPerimeter.
  assert (length (edges p) = Z.to_nat (sides p)) as Hlen
    by (rewrite Hes, length_map, range_length, Hsides; reflexivity).
  replace (IZR (sides p)) with (INR (length (edges p)))
    by (rewrite Hlen, INR_IZR_INZ, Z2Nat.id by lia; reflexivity).
  apply sum_constant, Hall.
Qed.

Lemma edges_have_side_length_witness :
  0 < getSideLength unitSquare.
Proof.
  apply (edges_have_side_length 4 1 (- MATH.HALF_PI) unitSquare square_new).
Defined.

(** [((index % n) + n) % n] with the truncating remainder is the
    remainder of the floored division. *)
Lemma double_rem_mod (index n : Z) :
  (0 < n)%Z -> Z.rem (Z.rem index n + n) n = (index mod n)%Z.
Proof.
  intros Hn.
  pose proof (Z.rem_bound_abs index n ltac:(lia)) as Habs.
  rewrite Z.rem_mod_nonneg by lia.
  pose proof (Z.quot_rem' index n) as Hq.
  replace (Z.rem index n + n)%Z with (index + (1 - index ÷ n) * n)%Z by lia.
  apply Z.mod_add. lia.
Qed.

(** On a constructed polygon [getEdge] reads the edge at the remainder
    of the index by the floored division, which starts at the vertex of
    that number. *)
Lemma getEdge_mod (n : Z) (r off : R) (p : Polygon.t) (index : Z) :
  Polygon.new n r off = JS.Ok p ->
  normalizedIndex p index = (index mod n)%Z
  /\ getEdge p index
     = Some (mkEdge (vertexAt n r off (index mod n))
                    (vertexAt n r off (Z.rem (index mod n + 1) n))
                    (index mod n)).
Proof.
  intros Hnew.
  destruct (new_geometry n r off p Hnew) as (Hn & Hr & Hp & Hvs & Hes).
  assert (sides p = n) as Hsides by (rewrite Hp; reflexivity).
  assert (normalizedIndex p index = (index mod n)%Z) as Hnorm.
  { unfold normalizedIndex. rewrite Hsides. apply double_rem_mod. lia. }
  split; [exact Hnorm |].
  pose proof (Z.mod_pos_bound index n ltac:(lia)) as Hmod.
  unfold getEdge. rewrite Hnorm.
  rewrite Hes, list_lookup_fmap, range_lookup by lia.
  cbn [fmap option_fmap option_map].
  rewrite Z.add_0_l, Z2Nat.id by lia. reflexivity.
Qed.

(** X11: on a constructed polygon [getEdge] and [getVertex] take any
    integer index, also a negative one, to the edge and the vertex at its
    remainder by the floored division, so that every index answers and
    indices a multiple of [sides] apart answer alike. *)
Theorem getEdge_wraps (n : Z) (r off : R) (p : Polygon.t) (index : Z) :
  Polygon.new n r off = JS.Ok p ->
  getEdge p index = edges p !! Z.to_nat (index mod n)
  /\ getVertex p index = vertices p !! Z.to_nat (index mod n)
  /\ is_Some (getEdge p index) /\ is_Some (getVertex p index)
  /\ (forall k : Z, getEdge p (index + k * n) = getEdge p index)
  /\ (forall e, getEdge p index = Some e -> Polygon.index e = (index mod n)%Z).
Proof.
  intros Hnew.
  destruct (new_geometry n r off p Hnew) as (Hn & Hr & Hp & Hvs & Hes).
  destruct (getEdge_mod n r off p index Hnew) as [Hnorm He].
  pose proof (Z.mod_pos_bound index n ltac:(lia)) as Hmod.
  split; [unfold getEdge; rewrite Hnorm; reflexivity |].
  split; [unfold getVertex; rewrite Hnorm; reflexivity |].
  split; [rewrite He; eexists; reflexivity |].
  split.
  { unfold getVertex. rewrite Hnorm.
    rewrite Hvs, list_lookup_fmap, range_lookup by lia.
    eexists. reflexivity. }
  split.
  { intros k.
    destruct (getEdge_mod n r off p (index + k * n) Hnew) as [_ He'].
    rewrite He', He, Z.mod_add by lia. reflexivity. }
  intros e. rewrite He. intros [= <-]. reflexivity.
Qed.

Lemma getEdge_wraps_witness :
  getEdge unitSquare (-1) = edges unitSquare !! Z.to_nat (-1 mod 4).
Proof.
  apply (getEdge_wraps 4 1 (- MATH.HALF_PI) unitSquare (-1) square_new).
Defined.

(** The search loop of [getTopVertex]. *)
Lemma topVertex_fold (l : list Vertex) (v0 : Vertex) :
  let v :=
    fold_left
      (fun topVertex vertex =>
         if decide (vy topVertex < vy vertex) then vertex else topVertex)
      l v0 in
  (v = v0 \/ v ∈ l) /\ vy v0 <= vy v /\ forall w, w ∈ l -> vy w <= vy v.
Proof.
  revert v0. induction l as [| a l IH]; intros v0; cbn zeta.
  - cbn [fold_left]. split; [left; reflexivity |].
    split; [lra |]. intros w Hw. inversion Hw.
  - cbn [fold_left].
    destruct (decide (vy v0 < vy a)) as [Hlt | Hge].
    + destruct (IH a) as (Hin & Hle & Hall).
      split; [right; destruct Hin as [-> | Hin];
              [apply list_elem_of_here | apply list_elem_of_further, Hin] |].
      split; [lra |].
      intros w Hw. apply elem_of_cons in Hw as [-> | Hw];
        [exact Hle | apply Hall, Hw].
    + destruct (IH v0) as (Hin & Hle & Hall).
      split; [destruct Hin as [-> | Hin];
              [left; reflexivity | right; apply list_elem_of_further, Hin] |].
      split; [lra |].
      intros w Hw. apply elem_of_cons in Hw as [-> | Hw];
        [lra | apply Hall, Hw].
Qed.

Lemma getTopVertex_elem_of (p : Polygon.t) (v : Vertex) :
  getTopVertex p = Some v ->
  v ∈ vertices p /\ forall w, w ∈ vertices p -> vy w <= vy v.
Proof.
  unfold getTopVertex.
  destruct (vertices p) as [| v0 l]; [discriminate |].
  intros Ev. cbn [lookup list_lookup mbind option_bind] in Ev.
  injection Ev as Ev. subst v.
  pose proof (topVertex_fold (v0 :: l) v0) as H. cbn zeta in H.
  destruct H as (Hin & _ & Hall).
  split; [| exact Hall].
  assert (forall y : Vertex, y = v0 -> y ∈ v0 :: l) as Hhere
    by (intros ? ->; apply list_elem_of_here).
  destruct Hin as [Hin | Hin]; [exact (Hhere _ Hin) | exact Hin].
Qed.

(** X12: [getTopVertex] of a constructed polygon answers one of its
    vertices, on the circumscribed circle, and no vertex lies higher. *)
Theorem getTopVertex_highest (n : Z) (r off : R) (p : Polygon.t) :
  Polygon.new n r off = JS.Ok p ->
  exists v,
    getTopVertex p = Some v
    /\ v ∈ vertices p
    /\ (forall w, w ∈ vertices p -> vy w <= vy v)
    /\ vx v * vx v + vy v * vy v = r * r.
Proof.
  intros Hnew.
  destruct (new_geometry n r off p Hnew) as (Hn & Hr & Hp & Hvs & Hes).
  destruct (getTopVertex p) as [v |] eqn:Ev.
  - destruct (getTopVertex_elem_of p v Ev) as [Hmem Hall].
    exists v. split; [reflexivity |]. split; [exact Hmem |].
    split; [exact Hall |].
    rewrite Hvs in Hmem. apply list_elem_of_fmap in Hmem as (i & -> & _).
    unfold vertexAt. cbn [vx vy].
    pose proof (sin2_cos2 (off + IZR i * (MATH.TWO_PI / IZR n))) as H.
    unfold Rsqr in H. nra.
  - exfalso. unfold getTopVertex in Ev.
    destruct (vertices p) as [| v0 l]; [| discriminate].
    apply (f_equal length) in Hvs.
    rewrite length_map, range_length in Hvs. cbn [length] in Hvs. lia.
Qed.

Lemma getTopVertex_highest_witness :
  exists v, getTopVertex unitSquare = Some v /\ v ∈ vertices unitSquare.
Proof.
  destruct (getTopVertex_highest 4 1 (- MATH.HALF_PI) unitSquare square_new)
    as (v & H1 & H2 & _).
  exists v. split; assumption.
Defined.

Lemma clamp_cases (t : R) :
  (t < 0 /\ Rmax 0 (Rmin 1 t) = 0)
  \/ (0 <= t <= 1 /\ Rmax 0 (Rmin 1 t) = t)
  \/ (1 < t /\ Rmax 0 (Rmin 1 t) = 1).
Proof.
  unfold Rmax, Rmin.
  destruct (Rle_dec 1 t), (Rle_dec 0 1), (Rle_dec 0 t); lra.
Qed.

(** The point of the segment from [(ax, ay)] along [(dx, dy)] at the
    clamped projection parameter is nearest to [(u, v)] among the points
    of the segment. *)
Lemma clamped_projection_nearest (ax ay dx dy u v t0 s : R) :
  t0 * (dx * dx + dy * dy) = (u - ax) * dx + (v - ay) * dy ->
  let t := Rmax 0 (Rmin 1 t0) in
  let s' := Rmax 0 (Rmin 1 s) in
  (u - (ax + t * dx)) ^ 2 + (v - (ay + t * dy)) ^ 2
  <= (u - (ax + s' * dx)) ^ 2 + (v - (ay + s' * dy)) ^ 2.
Proof.
  intros Ht0. cbn zeta.
  set (L := dx * dx + dy * dy) in *.
  assert (0 <= L) as HL by (unfold L; nra).
  set (s' := Rmax 0 (Rmin 1 s)).
  assert (0 <= s' <= 1) as Hs'.
  { unfold s'. destruct (clamp_cases s) as [[_ ->] | [[? ->] | [_ ->]]]; lra. }
  set (t := Rmax 0 (Rmin 1 t0)).
  assert ((u - (ax + s' * dx)) ^ 2 + (v - (ay + s' * dy)) ^ 2
          - ((u - (ax + t * dx)) ^ 2 + (v - (ay + t * dy)) ^ 2)
          = L * ((s' - t) * (s' + t - 2 * t0))) as Hdiff.
  { transitivity
      ((s' * s' - t * t) * L
       - 2 * (s' - t) * ((u - ax) * dx + (v - ay) * dy));
      [unfold L; ring | rewrite <- Ht0; ring]. }
  assert (0 <= (s' - t) * (s' + t - 2 * t0)) as Hsign.
  { unfold t. destruct (clamp_cases t0) as [[? ->] | [[? ->] | [? ->]]].
    - apply Rmult_le_pos; lra.
    - replace ((s' - t0) * (s' + t0 - 2 * t0)) with ((s' - t0) * (s' - t0))
        by ring.
      apply Rle_0_sqr.
    - replace ((s' - 1) * (s' + 1 - 2 * t0))
        with ((1 - s') * (2 * t0 - 1 - s')) by ring.
      apply Rmult_le_pos; lra. }
  pose proof (Rmult_le_pos _ _ HL Hsign). lra.
Qed.

(** What [Edge.distanceToPoint] answers. *)
Lemma distanceToPoint_spec (e : Edge) (point : Point) :
  let r := distanceToPoint e point in
  0 <= t_ r <= 1
  /\ closestPoint r = getPointAt e (t_ r)
  /\ distance r = dist point (closestPoint r)
  /\ forall s, distance r <= dist point (getPointAt e s).
Proof.
  cbn zeta. unfold distanceToPoint.
  set (dx := vx (end_ e) - vx (start e)).
  set (dy := vy (end_ e) - vy (start e)).
  destruct (decide (dx * dx + dy * dy = 0)) as [H0 | Hne].
  - assert (dx = 0 /\ dy = 0) as [Hdx Hdy] by (split; nra).
    cbn [t_ closestPoint distance].
    split; [lra |].
    assert (forall s, getPointAt e s = mkPoint (vx (start e)) (vy (start e)))
      as Hat.
    { intros s. unfold getPointAt. fold dx dy. rewrite Hdx, Hdy.
      rewrite !Rmult_0_r, !Rplus_0_r. reflexivity. }
    split; [rewrite Hat; reflexivity |].
    split; [reflexivity |].
    intros s. rewrite Hat. apply Rle_refl.
  - set (t0 := ((px point - vx (start e)) * dx + (py point - vy (start e)) * dy)
               / (dx * dx + dy * dy)).
    cbn [t_ closestPoint distance].
    assert (0 <= Rmax 0 (Rmin 1 t0) <= 1) as Ht.
    { destruct (clamp_cases t0) as [[_ ->] | [[? ->] | [_ ->]]]; lra. }
    split; [exact Ht |].
    assert (Rmax 0 (Rmin 1 (Rmax 0 (Rmin 1 t0))) = Rmax 0 (Rmin 1 t0)) as Hid.
    { destruct (clamp_cases (Rmax 0 (Rmin 1 t0))) as [[? _] | [[_ E] | [? _]]];
        [lra | exact E | lra]. }
    split.
    { unfold getPointAt. fold dx dy. rewrite Hid. reflexivity. }
    split; [reflexivity |].
    intros s. unfold dist, getPointAt. fold dx dy. cbn [px py].
    apply sqrt_le_1_alt.
    apply (clamped_projection_nearest (vx (start e)) (vy (start e)) dx dy
             (px point) (py point) t0 s).
    unfold t0. field. exact Hne.
Qed.

(** X13: [Edge.distanceToPoint] answers a point of the edge, at a
    parameter between 0 and 1, and its distance from the given point; no
    point of the edge is nearer. *)
Theorem distanceToPoint_nearest (e : Edge) (point : Point) (s : R) :
  let r := distanceToPoint e point in
  0 <= t_ r <= 1
  /\ closestPoint r = getPointAt e (t_ r)
  /\ distance r = dist point (closestPoint r)
  /\ distance r <= dist point (getPointAt e s).
Proof.
  destruct (distanceToPoint_spec e point) as (H1 & H2 & H3 & H4).
  cbn zeta. split; [exact H1 |]. split; [exact H2 |].
  split; [exact H3 | apply H4].
Qed.

(** The search loop of [findClosestEdge] from a finite best distance,
    over the edges numbered from [k]. *)
Lemma closestEdge_fold (point : Point) (l : list Edge) (k : nat) (m0 : R)
    (r0 : option ClosestEdge) :
  exists (m : R) (res : option ClosestEdge),
    fold_left
      (fun (st : JS.num * option ClosestEdge) (ie : nat * Edge) =>
         let '(i, edge) := ie in
         let distResult := distanceToPoint edge point in
         if JS.lt (JS.Fin (distance distResult)) (fst st) then
           (JS.Fin (distance distResult),
            Some (mkClosestEdge edge (distance distResult)
                    (closestPoint distResult) (t_ distResult) (Z.of_nat i)))
         else st)
      (imap (fun i e => ((k + i)%nat, e)) l) (JS.Fin m0, r0)
    = (JS.Fin m, res)
    /\ m <= m0
    /\ (forall e, e ∈ l -> m <= distance (distanceToPoint e point))
    /\ ((m = m0 /\ res = r0)
        \/ exists j e,
             l !! j = Some e
             /\ m = distance (distanceToPoint e point)
             /\ res = Some (mkClosestEdge e (distance (distanceToPoint e point))
                              (closestPoint (distanceToPoint e point))
                              (t_ (distanceToPoint e point))
                              (Z.of_nat (k + j)))).
Proof.
  revert k m0 r0. induction l as [| a l IH]; intros k m0 r0.
  - exists m0, r0. cbn [imap fold_left]. split; [reflexivity |].
    split; [lra |]. split; [intros e He; inversion He |].
    left. split; reflexivity.
  - cbn [imap fold_left fst].
    assert (imap ((fun (i : nat) (e : Edge) => ((k + i)%nat, e)) ∘ S) l
            = imap (fun i e => ((S k + i)%nat, e)) l) as ->.
    { apply imap_ext. intros i q _. cbn. f_equal. lia. }
    cbn zeta. cbn [JS.lt].
    destruct (bool_decide (distance (distanceToPoint a point) < m0)) eqn:Elt.
    + apply bool_decide_eq_true in Elt.
      destruct (IH (S k) (distance (distanceToPoint a point))
                  (Some (mkClosestEdge a (distance (distanceToPoint a point))
                           (closestPoint (distanceToPoint a point))
                           (t_ (distanceToPoint a point))
                           (Z.of_nat (k + 0)))))
        as (m & res & Hfold & Hle & Hall & Hcase).
      exists m, res. cbn zeta in Hfold. split; [exact Hfold |].
      split; [lra |].
      split.
      { intros e He. apply elem_of_cons in He as [-> | He];
          [exact Hle | apply Hall, He]. }
      right. destruct Hcase as [[-> ->] | (j & e & Hj & Em & Eres)].
      * exists 0%nat, a. split; [reflexivity |]. split; reflexivity.
      * exists (S j), e. split; [exact Hj |]. split; [exact Em |].
        rewrite Eres. do 3 f_equal. lia.
    + apply bool_decide_eq_false in Elt.
      destruct (IH (S k) m0 r0) as (m & res & Hfold & Hle & Hall & Hcase).
      exists m, res. cbn zeta in Hfold. split; [exact Hfold |].
      split; [lra |].
      split.
      { intros e He. apply elem_of_cons in He as [-> | He];
          [lra | apply Hall, He]. }
      destruct Hcase as [[-> ->] | (j & e & Hj & Em & Eres)].
      * left. split; reflexivity.
      * right. exists (S j), e. split; [exact Hj |]. split; [exact Em |].
        rewrite Eres. do 3 f_equal. lia.
Qed.

(** What [findClosestEdge] answers on a polygon with edges. *)
Lemma findClosestEdge_spec (p : Polygon.t) (point : Point) :
  edges p <> [] ->
  exists j e,
    edges p !! j = Some e
    /\ findClosestEdge p point
       = Some (mkClosestEdge e (distance (distanceToPoint e point))
                 (closestPoint (distanceToPoint e point))
                 (t_ (distanceToPoint e point)) (Z.of_nat j))
    /\ forall e', e' ∈ edges p ->
         distance (distanceToPoint e point)
         <= distance (distanceToPoint e' point).
Proof.
  intros Hne. unfold findClosestEdge.
  destruct (edges p) as [| a l] eqn:E; [contradiction |].
  cbn [imap fold_left fst].
  assert (imap ((fun (i : nat) (e : Edge) => (i, e)) ∘ S) l
          = imap (fun i e => ((1 + i)%nat, e)) l) as ->.
  { apply imap_ext. intros i q _. reflexivity. }
  cbn zeta.
  change (JS.lt (JS.Fin (distance (distanceToPoint a point))) JS.PInf)
    with true.
  cbv iota.
  destruct (closestEdge_fold point l 1 (distance (distanceToPoint a point))
              (Some (mkClosestEdge a (distance (distanceToPoint a point))
                       (closestPoint (distanceToPoint a point))
                       (t_ (distanceToPoint a point))
                       (Z.of_nat 0))))
    as (m & res & Hfold & Hle & Hall & Hcase).
  cbn zeta in Hfold. rewrite Hfold. cbn [snd].
  assert (exists j e,
            (a :: l) !! j = Some e
            /\ m = distance (distanceToPoint e point)
            /\ res = Some (mkClosestEdge e (distance (distanceToPoint e point))
                             (closestPoint (distanceToPoint e point))
                             (t_ (distanceToPoint e point))
                             (Z.of_nat j))) as (j & e & Hj & Em & ->).
  { destruct Hcase as [[-> ->] | (j & e & Hj & Em & Eres)].
    - exists 0%nat, a. repeat split; reflexivity.
    - exists (S j), e. split; [exact Hj |]. split; [exact Em | exact Eres]. }
  exists j, e. split; [exact Hj |]. split; [reflexivity |].
  intros e' He'. rewrite <- Em.
  apply elem_of_cons in He' as [-> | He']; [exact Hle | apply Hall, He'].
Qed.

(** X14: on a polygon with edges, so on every constructed one,
    [findClosestEdge] answers an edge of the polygon under its index,
    with what [distanceToPoint] says of that edge; no point of any edge
    is nearer to the given point than the distance it answers, which is
    also what [distanceToBorder] answers. *)
Theorem findClosestEdge_nearest (p : Polygon.t) (point : Point) :
  edges p <> [] ->
  exists res,
    findClosestEdge p point = Some res
    /\ edges p !! Z.to_nat (edgeIndex res) = Some (edge res)
    /\ (0 <= edgeIndex res < Z.of_nat (length (edges p)))%Z
    /\ ce_distance res = distance (distanceToPoint (edge res) point)
    /\ ce_closestPoint res = getPointAt (edge res) (ce_t res)
    /\ ce_distance res = dist point (ce_closestPoint res)
    /\ (forall e s, e ∈ edges p ->
          ce_distance res <= dist point (getPointAt e s))
    /\ distanceToBorder p point = JS.Ok (ce_distance res).
Proof.
  intros Hne. unfold distanceToBorder.
  destruct (findClosestEdge_spec p point Hne) as (j & e & Hj & -> & Hmin).
  eexists. split; [reflexivity |].
  cbn [edgeIndex edge ce_distance ce_closestPoint ce_t].
  destruct (distanceToPoint_spec e point) as (Ht & Hcp & Hd & _).
  rewrite Nat2Z.id.
  split; [exact Hj |].
  split; [apply lookup_lt_Some in Hj; lia |].
  split; [reflexivity |]. split; [exact Hcp |]. split; [exact Hd |].
  split; [| reflexivity].
  intros e' s He'.
  destruct (distanceToPoint_spec e' point) as (_ & _ & _ & Hmin').
  apply Rle_trans with (distance (distanceToPoint e' point));
    [apply Hmin, He' | apply Hmin'].
Qed.

Lemma findClosestEdge_nearest_witness :
  exists res,
    findClosestEdge unitSquare (mkPoint 2 0) = Some res
    /\ distanceToBorder unitSquare (mkPoint 2 0) = JS.Ok (ce_distance res).
Proof.
  destruct (findClosestEdge_nearest unitSquare (mkPoint 2 0)) as (res & H).
  - intros E. apply (f_equal length) in E.
    destruct (Polygon_new_inv _ _ _ _ square_new) as (_ & _ & _ & _ & _ & _ & H).
    rewrite H in E. discriminate.
  - exists res. split; apply H.
Defined.

(** X15: the normal [getNormal] answers for an edge of a constructed
    polygon is finite, of length one and perpendicular to the edge, and
    it points outwards: its product with the midpoint of the edge is the
    apothem, which is positive. *)
Theorem getNormal_outward (n : Z) (r off : R) (p : Polygon.t) (e : Edge) :
  Polygon.new n r off = JS.Ok p ->
  e ∈ edges p ->
  exists a b : R,
    getNormal e = mkNPoint (JS.Fin a) (JS.Fin b)
    /\ a * a + b * b = 1
    /\ a * (vx (end_ e) - vx (start e)) + b * (vy (end_ e) - vy (start e)) = 0
    /\ a * px (getMidpoint e) + b * py (getMidpoint e) = getApothem p
    /\ 0 < getApothem p.
Proof.
  intros Hnew He.
  destruct (new_geometry n r off p Hnew) as (Hn & Hr & Hp & Hvs & Hes).
  assert (sides p = n /\ radius p = r) as [Hsides Hradius]
    by (rewrite Hp; split; reflexivity).
  rewrite Hes in He. apply list_elem_of_fmap in He as (i & -> & Hi).
  apply range_elem_of in Hi.
  assert (0 <= i < n)%Z as Hi' by lia.
  destruct (sin_PI_over_sides n Hn) as [Hsin Hcos].
  pose proof (edge_length n r off i Hn Hr Hi') as Hlen.
  unfold getApothem. rewrite Hsides, Hradius.
  unfold getNormal, getMidpoint. unfold getLength in Hlen.
  cbn [start end_] in *.
  destruct (edge_end_coords n r off i Hn Hi') as [Ex Ey].
  rewrite Ex, Ey in *. unfold vertexAt in *. cbn [vx vy px py] in *.
  set (a0 := off + IZR i * (MATH.TWO_PI / IZR n)) in *.
  set (h := PI / IZR n) in *.
  rewrite Hlen.
  assert (2 * r * sin h <> 0) as Hne by nra.
  rewrite !div_fin by exact Hne.
  eexists _, _. split; [reflexivity |].
  pose proof (sin2_cos2 a0) as H0. pose proof (sin2_cos2 (a0 + 2 * h)) as H1.
  unfold Rsqr in H0, H1.
  assert (cos (a0 + 2 * h) * cos a0 + sin (a0 + 2 * h) * sin a0
          = 1 - 2 * sin h * sin h) as H2.
  { rewrite <- cos_minus, <- cos_2a_sin. f_equal. ring. }
  assert (sin (a0 + 2 * h) * cos a0 - cos (a0 + 2 * h) * sin a0
          = 2 * sin h * cos h) as H3.
  { rewrite <- sin_minus, <- sin_2a. f_equal. ring. }
  split.
  { apply Rmult_eq_reg_r with ((2 * r * sin h) * (2 * r * sin h));
      [| nra].
    transitivity
      (r * r * ((sin (a0 + 2 * h) * sin (a0 + 2 * h)
                 + cos (a0 + 2 * h) * cos (a0 + 2 * h))
                + (sin a0 * sin a0 + cos a0 * cos a0)
                - 2 * (cos (a0 + 2 * h) * cos a0 + sin (a0 + 2 * h) * sin a0)));
      [field; repeat split; lra |].
    rewrite H0, H1, H2. ring. }
  split; [field; repeat split; lra |].
  split; [| nra].
  apply Rmult_eq_reg_r with (2 * r * sin h); [| exact Hne].
  transitivity
    (r * r * (sin (a0 + 2 * h) * cos a0 - cos (a0 + 2 * h) * sin a0));
    [field; repeat split; lra |].
  rewrite H3. ring.
Qed.

Lemma getNormal_outward_witness :
  0 < getApothem unitSquare.
Proof.
  destruct (getEdge_is_Some 4 1 (- MATH.HALF_PI) unitSquare 0 square_new)
    as [e He].
  destruct (getNormal_outward 4 1 (- MATH.HALF_PI) unitSquare e square_new)
    as (a & b & H).
  - unfold getEdge in He. apply list_elem_of_lookup. eexists. exact He.
  - apply H.
Defined.

(** X16: the geometry of a polygon is never stale: on a constructed
    polygon each setter and [rotate] leave what the constructor builds
    from the new arguments, and [clone] and [fromJSON] of [toJSON] build
    the polygon again. *)
Theorem setters_rebuild_geometry (n : Z) (r off : R) (p : Polygon.t) :
  Polygon.new n r off = JS.Ok p ->
  (forall newSides, set_sides p newSides = Polygon.new newSides r off)
  /\ (forall newRadius, set_radius p newRadius = Polygon.new n newRadius off)
  /\ (forall angle, JS.Ok (rotate p angle) = Polygon.new n r (off + angle))
  /\ clone p = JS.Ok p
  /\ fromJSON (toJSON p) = JS.Ok p.
Proof.
  intros Hnew.
  destruct (new_geometry n r off p Hnew) as (Hn & Hr & Hp & _ & _).
  assert (sides p = n /\ radius p = r /\ rotationOffset p = off)
    as (Hsides & Hradius & Hoff)
    by (rewrite Hp; repeat split; reflexivity).
  split; [| split; [| split; [| split]]].
  - intros newSides. unfold set_sides, Polygon.new.
    rewrite Hradius, Hoff.
    destruct (decide (newSides < 3)%Z); [reflexivity |].
    destruct (decide (r <= 0)); [lra | reflexivity].
  - intros newRadius. unfold set_radius, Polygon.new.
    rewrite Hsides, Hoff.
    destruct (decide (n < 3)%Z); [lia |].
    destruct (decide (newRadius <= 0)); reflexivity.
  - intros angle. unfold rotate, Polygon.new.
    rewrite Hsides, Hradius, Hoff.
    destruct (decide (n < 3)%Z); [lia |].
    destruct (decide (r <= 0)); [lra | reflexivity].
  - unfold clone. rewrite Hsides, Hradius, Hoff. exact Hnew.
  - unfold fromJSON, toJSON. cbn [j_sides j_radius j_rotationOffset].
    rewrite Hsides, Hradius, Hoff. exact Hnew.
Qed.

Lemma setters_rebuild_geometry_witness :
  clone unitSquare = JS.Ok unitSquare.
Proof.
  apply (setters_rebuild_geometry 4 1 (- MATH.HALF_PI) unitSquare square_new).
Defined.

(** X17: the measures of a constructed polygon agree with each other:
    the area is [n / 2 * r^2 * sin (2 PI / n)], the apothem and half a
    side are the legs of a right triangle under the radius, and the
    interior and the exterior angle add up to a half turn. *)
Theorem polygon_measures_agree (n : Z) (r off : R) (p : Polygon.t) :
  Polygon.new n r off = JS.Ok p ->
  getArea p = IZR n / 2 * (r * r) * sin (2 * PI / IZR n)
  /\ getApothem p * getApothem p
     + (getSideLength p / 2) * (getSideLength p / 2) = r * r
  /\ getInteriorAngle p + getExteriorAngle p = PI.
Proof.
  intros Hnew.
  destruct (new_geometry n r off p Hnew) as (Hn & Hr & Hp & _ & _).
  assert (sides p = n /\ radius p = r) as [Hsides Hradius]
    by (rewrite Hp; split; reflexivity).
  assert (IZR n <> 0) as Hn0 by (apply not_0_IZR; lia).
  unfold getArea, getPerimeter, getApothem, getSideLength, getInteriorAngle,
    getExteriorAngle, MATH.TWO_PI.
  rewrite Hsides, Hradius.
  split; [| split].
  - replace (2 * PI / IZR n) with (2 * (PI / IZR n)) by (field; exact Hn0).
    rewrite sin_2a. field.
  - pose proof (sin2_cos2 (PI / IZR n)) as H. unfold Rsqr in H. nra.
  - rewrite minus_IZR. field. exact Hn0.
Qed.

Lemma polygon_measures_agree_witness :
  getInteriorAngle unitSquare + getExteriorAngle unitSquare = PI.
Proof.
  apply (polygon_measures_agree 4 1 (- MATH.HALF_PI) unitSquare square_new).
Defined.

End RegularPolygon.

(* ================================================================== *)
(** ** The circle and the draw point *)

Section CircleAndDrawPoint.

Import DrawPoint.

(** [Math.atan2] and the distance from the origin are the polar
    coordinates of a point. *)
Lemma atan2_polar (x y : R) :
  sqrt (x * x + y * y) * cos (JS.Ratan2 y x) = x
  /\ sqrt (x * x + y * y) * sin (JS.Ratan2 y x) = y.
Proof.
  assert (forall z, 0 < sqrt (1 + z²)) as Hw.
  { intros z. apply sqrt_lt_R0. pose proof (Rle_0_sqr z). lra. }
  assert (x <> 0 ->
          sqrt (x * x + y * y) = Rabs x * sqrt (1 + (y / x)²)) as Hd.
  { intros Hx. rewrite <- sqrt_Rsqr_abs, <- sqrt_mult_alt by apply Rle_0_sqr.
    f_equal. unfold Rsqr. field. exact Hx. }
  unfold JS.Ratan2.
  destruct (decide (0 < x)) as [Hpos | Hnpos].
  - rewrite Hd by lra. rewrite cos_atan, sin_atan, Rabs_right by lra.
    pose proof (Hw (y / x)) as H.
    split; field; lra.
  - destruct (decide (x < 0)) as [Hneg | Hnneg].
    + rewrite Hd by lra. rewrite Rabs_left by lra.
      pose proof (Hw (y / x)) as H.
      destruct (decide (y < 0)).
      * rewrite cos_minus, sin_minus, cos_PI, sin_PI, cos_atan, sin_atan.
        split; field; lra.
      * rewrite neg_cos, neg_sin, cos_atan, sin_atan.
        split; field; lra.
    + assert (x = 0) as -> by lra.
      replace (0 * 0 + y * y) with (y²) by (unfold Rsqr; ring).
      rewrite sqrt_Rsqr_abs.
      destruct (decide (0 < y)) as [Hy | Hy'].
      * rewrite cos_PI2, sin_PI2, Rabs_right by lra. split; ring.
      * destruct (decide (y < 0)) as [Hy | Hy''].
        -- rewrite cos_neg, sin_neg, cos_PI2, sin_PI2, Rabs_left by lra.
           split; ring.
        -- assert (y = 0) as -> by lra.
           rewrite Rabs_R0. split; ring.
Qed.

Lemma Circle_new_inv (r : R) (ctr : Point) (c : Circle.t) :
  Circle.new r ctr = JS.Ok c -> 0 < r /\ c = Circle.mk r ctr.
Proof.
  unfold Circle.new. destruct (decide (r <= 0)); [discriminate |].
  intros [= <-]. split; [lra | reflexivity].
Qed.





Lemma getPointAt_0 (e : Polygon.Edge) :
  Polygon.getPointAt e 0
  = mkPoint (Polygon.vx (Polygon.start e)) (Polygon.vy (Polygon.start e)).
Proof.
  unfold Polygon.getPointAt.
  replace (Rmax 0 (Rmin 1 0)) with 0
    by (unfold Rmax, Rmin; repeat destruct (Rle_dec _ _); lra).
  f_equal; ring.
Qed.

(** X19: a snap operation that returns on a circle or on a constructed
    polygon leaves the point marked as snapped, at the place of the shape
    its snap fields name: at the stored angle of the circle, or on the
    stored edge of the polygon at the stored parameter. *)
Theorem snap_fields_name_position (op : Op) (shape : Shape)
    (d d' : DrawPoint.t) :
  is_snap_op op = true ->
  op_shape op = Some shape ->
  (forall polygon, shape = IsPolygon polygon ->
     exists n r off, Polygon.new n r off = JS.Ok polygon) ->
  step op d = JS.Ok d' ->
  snapped_on shape d'.
Proof.
  intros Hop Hshape Hpoly Hstep.
  assert (forall polygon res,
            (exists n r off, Polygon.new n r off = JS.Ok polygon) ->
            snapToNearestPolygonEdge d polygon = JS.Ok res ->
            snapped_on (IsPolygon polygon) (fst res)) as Hnearest.
  { intros polygon res (n & r & off & Hnew) Hres.
    unfold snapToNearestPolygonEdge in Hres.
    destruct (Polygon_new_inv n r off polygon Hnew)
      as (Hn & _ & _ & _ & _ & _ & Hlen).
    assert (Polygon.edges polygon <> []) as Hne.
    { intros E. rewrite E in Hlen. cbn in Hlen. lia. }
    destruct (findClosestEdge_spec polygon (_position d) Hne)
      as (j & e & Hj & Hfind & _).
    rewrite Hfind in Hres. injection Hres as <-.
    split; [reflexivity |]. cbn.
    exists (Z.of_nat j), e.
    split; [reflexivity |]. split; [reflexivity |].
    split.
    - destruct (getEdge_mod n r off polygon (Z.of_nat j) Hnew) as [Hnorm _].
      unfold Polygon.getEdge. rewrite Hnorm.
      pose proof (lookup_lt_Some _ _ _ Hj) as Hlt.
      rewrite Z.mod_small, Nat2Z.id by lia. exact Hj.
    - apply (distanceToPoint_spec e (_position d)). }
  assert (forall polygon d'',
            (exists n r off, Polygon.new n r off = JS.Ok polygon) ->
            resetToPolygonTop d polygon = JS.Ok d'' ->
            snapped_on (IsPolygon polygon) d'') as Htop.
  { intros polygon d'' (n & r & off & Hnew) Hres.
    unfold resetToPolygonTop in Hres.
    destruct (Polygon.getTopVertex polygon) as [v |] eqn:Ev; [| discriminate].
    injection Hres as <-.
    destruct (new_geometry n r off polygon Hnew) as (Hn & Hr & Hp & Hvs & Hes).
    destruct (getTopVertex_elem_of polygon v Ev) as [Hv _].
    rewrite Hvs in Hv. apply list_elem_of_fmap in Hv as (i & -> & Hi).
    apply range_elem_of in Hi.
    destruct (getEdge_mod n r off polygon i Hnew) as [_ He].
    rewrite Z.mod_small in He by lia.
    split; [reflexivity |]. cbn.
    eexists i, _.
    split; [reflexivity |]. split; [reflexivity |].
    split; [exact He |].
    rewrite getPointAt_0. reflexivity. }
  destruct op; try discriminate Hop; cbn in Hshape; injection Hshape as <-;
    cbn [step] in Hstep.
  - (* snapToPolygonEdge *)
    unfold snapToPolygonEdge in Hstep.
    destruct (Polygon.getEdge polygon edgeIndex) as [e |] eqn:Ee;
      [| discriminate].
    injection Hstep as <-. split; [reflexivity |]. cbn.
    exists edgeIndex, e. repeat split; [exact Ee].
  - (* snapToCircleBorder *)
    injection Hstep as <-. split; [reflexivity |]. cbn.
    exists angle. repeat split.
  - (* snapToNearestPolygonEdge *)
    destruct (snapToNearestPolygonEdge d polygon) as [res | msg] eqn:Eres;
      [| discriminate].
    cbn in Hstep. injection Hstep as <-.
    apply Hnearest; [apply Hpoly; reflexivity | exact Eres].
  - (* snapToCircle *)
    injection Hstep as <-. split; [reflexivity |]. cbn.
    eexists. repeat split.
  - (* snapToShape *)
    destruct shape0 as [circle | polygon |]; cbn [snapToShape] in Hstep.
    + injection Hstep as <-. split; [reflexivity |]. cbn.
      eexists. repeat split.
    + destruct (snapToNearestPolygonEdge d polygon) as [res | msg] eqn:Eres;
        [| discriminate].
      cbn in Hstep. injection Hstep as <-.
      apply Hnearest; [apply Hpoly; reflexivity | exact Eres].
    + discriminate.
  - (* resetToCircleTop *)
    injection Hstep as <-. split; [reflexivity |]. cbn.
    exists (PI / 2). repeat split.
  - (* resetToPolygonTop *)
    apply Htop; [apply Hpoly; reflexivity | exact Hstep].
  - (* resetToShapeTop *)
    destruct shape0 as [circle | polygon |]; cbn [resetToShapeTop] in Hstep.
    + injection Hstep as <-. split; [reflexivity |]. cbn.
      exists (PI / 2). repeat split.
    + apply Htop; [apply Hpoly; reflexivity | exact Hstep].
    + discriminate.
Qed.

Lemma snap_fields_name_position_witness :
  snapped_on (IsCircle unitCircle)
    (fst (snapToCircle (DrawPoint.new 3 4) unitCircle)).
Proof.
  apply (snap_fields_name_position (OpSnapToCircle unitCircle)
           (IsCircle unitCircle) (DrawPoint.new 3 4));
    [reflexivity | reflexivity | intros polygon H; discriminate H
     | reflexivity].
Defined.

(** Every method keeps the trail within its maximum, keeps it empty
    while the point is not dragged, and leaves the maximum alone. *)
Lemma step_keeps_trail (op : Op) (d d' : DrawPoint.t) :
  step op d = JS.Ok d' ->
  (length (_trailPoints d) <= _maxTrailPoints d)%nat ->
  (_isDragging d = false -> _trailPoints d = []) ->
  (length (_trailPoints d') <= _maxTrailPoints d')%nat
  /\ (_isDragging d' = false -> _trailPoints d' = [])
  /\ _maxTrailPoints d' = _maxTrailPoints d.
Proof.
  intros Hstep Hlen Hidle.
  assert (forall d0 : DrawPoint.t,
            (length (_trailPoints d0) <= _maxTrailPoints d0)%nat ->
            (_isDragging d0 = false -> _trailPoints d0 = []) ->
            let d1 := if _isDragging d0 then _addTrailPoint d0 else d0 in
            (length (_trailPoints d1) <= _maxTrailPoints d1)%nat
            /\ (_isDragging d1 = false -> _trailPoints d1 = [])
            /\ _maxTrailPoints d1 = _maxTrailPoints d0) as Hadd.
  { intros d0 Hl Hi. cbn zeta.
    destruct (_isDragging d0) eqn:Edrag; [| auto].
    unfold _addTrailPoint. rewrite Edrag.
    destruct (decide (_maxTrailPoints d0 < length _)%nat) as [Hover | Hfit];
      cbn [with_trailPoints _trailPoints _maxTrailPoints _isDragging].
    - assert (forall l : list TrailPoint, length (tail l) = pred (length l))
        as -> by (intros [| ? ?]; reflexivity).
      rewrite length_app in *. cbn [length] in *.
      split; [lia |]. split; [rewrite Edrag; discriminate | reflexivity].
    - split; [lia |]. split; [rewrite Edrag; discriminate | reflexivity]. }
  destruct op; cbn [step] in Hstep;
    try (injection Hstep as <-).
  - (* isHovered *) cbn. auto.
  - (* isDragging *)
    unfold set_isDragging. destruct value; cbn.
    + split; [exact Hlen |]. split; [discriminate | reflexivity].
    + split; [lia |]. split; reflexivity.
  - (* snapIndicatorVisible *) cbn. auto.
  - (* updateAnimation *) cbn. auto.
  - (* updateTrail *)
    cbn [updateTrail with_trailPoints _trailPoints _maxTrailPoints _isDragging].
    split.
    { etransitivity; [apply length_filter |]. rewrite length_map. exact Hlen. }
    split; [| reflexivity].
    intros Hd. rewrite (Hidle Hd). reflexivity.
  - (* setPosition *)
    unfold setPosition.
    set (d0 := if immediate then _ else _).
    assert (_trailPoints d0 = _trailPoints d
            /\ _maxTrailPoints d0 = _maxTrailPoints d
            /\ _isDragging d0 = _isDragging d) as (E1 & E2 & E3)
      by (unfold d0; destruct immediate; repeat split; reflexivity).
    destruct (Hadd d0) as (H1 & H2 & H3);
      [rewrite E1, E2; exact Hlen | rewrite E1, E3; exact Hidle |].
    cbn zeta in H1, H2, H3.
    cbn [_clearSnap with_snap _trailPoints _maxTrailPoints _isDragging].
    split; [exact H1 |]. split; [exact H2 | rewrite H3; exact E2].
  - (* moveBy *)
    unfold moveBy.
    set (d0 := if immediate then _ else _).
    assert (_trailPoints d0 = _trailPoints d
            /\ _maxTrailPoints d0 = _maxTrailPoints d
            /\ _isDragging d0 = _isDragging d) as (E1 & E2 & E3)
      by (unfold d0; destruct immediate; repeat split; reflexivity).
    destruct (Hadd d0) as (H1 & H2 & H3);
      [rewrite E1, E2; exact Hlen | rewrite E1, E3; exact Hidle |].
    cbn zeta in H1, H2, H3.
    cbn [_clearSnap with_snap _trailPoints _maxTrailPoints _isDragging].
    split; [exact H1 |]. split; [exact H2 | rewrite H3; exact E2].
  - (* snapToPolygonEdge *)
    unfold snapToPolygonEdge in Hstep.
    destruct (Polygon.getEdge polygon edgeIndex); [| discriminate].
    injection Hstep as <-. cbn. auto.
  - cbn. auto.
  - (* snapToNearestPolygonEdge *)
    unfold snapToNearestPolygonEdge in Hstep.
    destruct (Polygon.findClosestEdge polygon (_position d));
      [| discriminate].
    cbn in Hstep. injection Hstep as <-. cbn. auto.
  - cbn. auto.
  - (* snapToShape *)
    destruct shape as [circle | polygon |]; cbn [snapToShape] in Hstep.
    + injection Hstep as <-. cbn. auto.
    + unfold snapToNearestPolygonEdge in Hstep.
      destruct (Polygon.findClosestEdge polygon (_position d));
        [| discriminate].
      cbn in Hstep. injection Hstep as <-. cbn. auto.
    + discriminate.
  - cbn. auto.
  - (* resetToPolygonTop *)
    unfold resetToPolygonTop in Hstep.
    destruct (Polygon.getTopVertex polygon); [| discriminate].
    injection Hstep as <-. cbn. auto.
  - (* resetToShapeTop *)
    destruct shape as [circle | polygon |]; cbn [resetToShapeTop] in Hstep.
    + injection Hstep as <-. cbn. auto.
    + unfold resetToPolygonTop in Hstep.
      destruct (Polygon.getTopVertex polygon); [| discriminate].
      injection Hstep as <-. cbn. auto.
    + discriminate.
Qed.

(** X20: whatever methods are called on a new draw point, and in
    whatever order, the drag trail never holds more than ten entries,
    and it is empty whenever the point is not being dragged. *)
Theorem trail_stays_bounded (ops : list Op) (x y : R) (d : DrawPoint.t) :
  run ops (DrawPoint.new x y) = JS.Ok d ->
  (length (_trailPoints d) <= 10)%nat
  /\ (_isDragging d = false -> _trailPoints d = []).
Proof.
  assert (forall ops d0 d1,
            run ops d0 = JS.Ok d1 ->
            (length (_trailPoints d0) <= _maxTrailPoints d0)%nat ->
            (_isDragging d0 = false -> _trailPoints d0 = []) ->
            (length (_trailPoints d1) <= _maxTrailPoints d1)%nat
            /\ (_isDragging d1 = false -> _trailPoints d1 = [])
            /\ _maxTrailPoints d1 = _maxTrailPoints d0) as Hrun.
  { clear. induction ops as [| op ops IH]; intros d0 d1 Hrun Hlen Hidle.
    - cbn in Hrun. injection Hrun as <-. auto.
    - cbn [run] in Hrun.
      destruct (step op d0) as [d0' | msg] eqn:Estep; [| discriminate].
      cbn in Hrun.
      destruct (step_keeps_trail op d0 d0' Estep Hlen Hidle) as (H1 & H2 & H3).
      destruct (IH d0' d1 Hrun H1 H2) as (H4 & H5 & H6).
      split; [exact H4 |]. split; [exact H5 | congruence]. }
  intros Hops.
  destruct (Hrun ops (DrawPoint.new x y) d Hops) as (H1 & H2 & H3).
  - cbn. lia.
  - reflexivity.
  - change (_maxTrailPoints (DrawPoint.new x y)) with 10%nat in H3.
    rewrite H3 in H1. split; [exact H1 | exact H2].
Qed.

Lemma trail_stays_bounded_witness :
  (length (_trailPoints
             (setPosition (set_isDragging (DrawPoint.new 0 0) true) 1 1 true))
   <= 10)%nat.
Proof.
  apply (trail_stays_bounded [OpSetIsDragging true; OpSetPosition 1 1 true]
           0 0).
  reflexivity.
Defined.

(** X21: one frame of [updateAnimation] leaves the target and the snap
    fields alone and moves the position towards the target: the gap
    shrinks by the factor [1 - min(1, 15 deltaTime)] on each axis, so a
    frame of a fifteenth of a second or more lands on the target, and a
    point at its target stays there. *)
Theorem updateAnimation_approaches_target (d : DrawPoint.t) (deltaTime : R) :
  let d' := updateAnimation d deltaTime in
  _targetPosition d' = _targetPosition d
  /\ snapState d' = snapState d
  /\ px (_position d') - px (_targetPosition d)
     = (1 - Rmin 1 (deltaTime * 15))
       * (px (_position d) - px (_targetPosition d))
  /\ py (_position d') - py (_targetPosition d)
     = (1 - Rmin 1 (deltaTime * 15))
       * (py (_position d) - py (_targetPosition d))
  /\ (1 / 15 <= deltaTime -> _position d' = _targetPosition d)
  /\ (_position d = _targetPosition d -> _position d' = _position d).
Proof.
  cbn zeta. unfold updateAnimation.
  cbn [with_position with_visual _position _targetPosition].
  split; [reflexivity |]. split; [reflexivity |].
  cbn [px py].
  split; [ring |]. split; [ring |].
  split.
  - intros Hdt. rewrite Rmin_left by lra.
    destruct (_targetPosition d) as [tx ty]. cbn [px py]. f_equal; ring.
  - intros E. rewrite <- E.
    destruct (_position d) as [x0 y0]. cbn [px py]. f_equal; ring.
Qed.

Lemma updateAnimation_approaches_target_witness :
  _position (updateAnimation (setPosition (DrawPoint.new 0 0) 3 4 false) 1)
  = _targetPosition (setPosition (DrawPoint.new 0 0) 3 4 false).
Proof.
  apply (updateAnimation_approaches_target
           (setPosition (DrawPoint.new 0 0) 3 4 false) 1).
  lra.
Defined.

(** X22: the snap operations write the position and the snap fields but
    not the target, so the next long frame of [updateAnimation] carries a
    point that was just snapped to wherever its target was before, while
    its snap fields still name the place on the shape. *)
Theorem snap_leaves_target (op : Op) (d d' : DrawPoint.t) (deltaTime : R) :
  is_snap_op op = true ->
  step op d = JS.Ok d' ->
  1 / 15 <= deltaTime ->
  _targetPosition d' = _targetPosition d
  /\ _isSnappedToEdge d' = true
  /\ _position (updateAnimation d' deltaTime) = _targetPosition d
  /\ snapState (updateAnimation d' deltaTime) = snapState d'.
Proof.
  intros Hop Hstep Hdt.
  assert (_targetPosition d' = _targetPosition d /\ _isSnappedToEdge d' = true)
    as [Htarget Hsnapped].
  { destruct op; try discriminate Hop; cbn [step] in Hstep.
    - unfold snapToPolygonEdge in Hstep.
      destruct (Polygon.getEdge polygon edgeIndex); [| discriminate].
      injection Hstep as <-. split; reflexivity.
    - injection Hstep as <-. split; reflexivity.
    - unfold snapToNearestPolygonEdge in Hstep.
      destruct (Polygon.findClosestEdge polygon (_position d));
        [| discriminate].
      cbn in Hstep. injection Hstep as <-. split; reflexivity.
    - injection Hstep as <-. split; reflexivity.
    - destruct shape as [circle | polygon |]; cbn [snapToShape] in Hstep.
      + injection Hstep as <-. split; reflexivity.
      + unfold snapToNearestPolygonEdge in Hstep.
        destruct (Polygon.findClosestEdge polygon (_position d));
          [| discriminate].
        cbn in Hstep. injection Hstep as <-. split; reflexivity.
      + discriminate.
    - injection Hstep as <-. split; reflexivity.
    - unfold resetToPolygonTop in Hstep.
      destruct (Polygon.getTopVertex polygon); [| discriminate].
      injection Hstep as <-. split; reflexivity.
    - destruct shape as [circle | polygon |]; cbn [resetToShapeTop] in Hstep.
      + injection Hstep as <-. split; reflexivity.
      + unfold resetToPolygonTop in Hstep.
        destruct (Polygon.getTopVertex polygon); [| discriminate].
        injection Hstep as <-. split; reflexivity.
      + discriminate. }
  split; [exact Htarget |]. split; [exact Hsnapped |].
  rewrite <- Htarget.
  unfold updateAnimation.
  cbn [with_position with_visual _position _targetPosition].
  split; [| reflexivity].
  rewrite Rmin_left by lra.
  destruct (_targetPosition d') as [tx ty]. cbn [px py]. f_equal; ring.
Qed.

Lemma snap_leaves_target_witness :
  _position (updateAnimation (resetToCircleTop (DrawPoint.new 3 4) unitCircle) 1)
  = mkPoint 3 4.
Proof.
  apply (snap_leaves_target (OpResetToCircleTop unitCircle)
           (DrawPoint.new 3 4)
           (resetToCircleTop (DrawPoint.new 3 4) unitCircle) 1);
    [reflexivity | reflexivity | lra].
Defined.

(** X23: [fromJSON] of [toJSON] is [clone]: the copy keeps the position
    and the four snap fields, and is otherwise a new point, at rest at
    its position; serialising the copy gives the same object again. *)
Theorem DrawPoint_toJSON_round_trip (d : DrawPoint.t) :
  fromJSON (toJSON d) = clone d
  /\ toJSON (fromJSON (toJSON d)) = toJSON d
  /\ _position (clone d) = _position d
  /\ snapState (clone d) = snapState d
  /\ _targetPosition (clone d) = _position d
  /\ _isDragging (clone d) = false
  /\ _isHovered (clone d) = false
  /\ _trailPoints (clone d) = [].
Proof.
  assert (_position (clone d) = _position d) as Hpos.
  { unfold clone. cbn. destruct (_position d); reflexivity. }
  split; [reflexivity |].
  split.
  { change (fromJSON (toJSON d)) with (clone d).
    unfold toJSON, getDistanceFromOrigin, getAngleFromOrigin.
    rewrite Hpos. reflexivity. }
  split; [exact Hpos |].
  split; [reflexivity |].
  split; [unfold clone; cbn; destruct (_position d); reflexivity |].
  repeat split; reflexivity.
Qed.

End CircleAndDrawPoint.

(* ================================================================== *)
(** ** The cycloid, by the calculator and by the circle *)

Section CycloidByCircle.

Import Cyclogon CyclogonCalculator.

(** [Circle.getCycloidPoint] at a finite angle. *)
Lemma getCycloidPoint_fin (circle : Circle.t) (theta : R) (drawPoint : Point) :
  0 < Circle.radius circle ->
  Circle.getCycloidPoint circle (JS.Fin theta) drawPoint
  = mkNPoint
      (JS.Fin (Circle.radius circle * theta
               + sqrt (px drawPoint ^ 2 + py drawPoint ^ 2)
                 * cos (JS.Ratan2 (py drawPoint) (px drawPoint) - theta)))
      (JS.Fin (Circle.radius circle
               + sqrt (px drawPoint ^ 2 + py drawPoint ^ 2)
                 * sin (JS.Ratan2 (py drawPoint) (px drawPoint) - theta))).
Proof.
  intros Hr. unfold Circle.getCycloidPoint.
  cbn [JS.mul JS.sub JS.add JS.neg JS.cos JS.sin].
  f_equal; f_equal; unfold Rminus; f_equal; f_equal; field; lra.
Qed.

(** X24: on a constructed circle every sample of [generateCycloid] is
    the point [Circle.getCycloidPoint] answers at the angle the sample
    carries. *)
Theorem getCycloidPoint_agrees (calc : CyclogonCalculator.t) (now : Z)
    (r : R) (ctr : Point) (circle : Circle.t) (drawPoint : Point)
    (cycles : R) (s : Sample) :
  Circle.new r ctr = JS.Ok circle ->
  0 < cycles -> 0 < pointsPerRadian calc ->
  s ∈ _points (generateCycloid calc now circle drawPoint cycles) ->
  exists theta : R,
    parameter s = Some (JS.Fin theta)
    /\ Circle.getCycloidPoint circle (JS.Fin theta) drawPoint
       = mkNPoint (x s) (y s).
Proof.
  intros Hnew Hc Hp Hs.
  destruct (Circle_new_inv r ctr circle Hnew) as [Hr ->].
  rewrite generateCycloid_points in Hs.
  apply list_elem_of_fmap in Hs as (i & -> & _).
  pose proof (numPoints_pos calc cycles Hc Hp) as Hn.
  rewrite cycloidSample_fin by lia. cbn zeta.
  eexists. split; [reflexivity |].
  rewrite getCycloidPoint_fin by exact Hr. reflexivity.
Qed.

Lemma unitCircle_new : Circle.new 1 (mkPoint 0 0) = JS.Ok unitCircle.
Proof.
  unfold Circle.new. destruct (decide (1 <= 0)); [lra | reflexivity].
Qed.

(** The first and the last sample of a cycloid. *)
Lemma generateCycloid_ends (calc : CyclogonCalculator.t) (now : Z)
    (circle : Circle.t) (drawPoint : Point) (cycles : R) :
  0 < cycles -> 0 < pointsPerRadian calc ->
  let radius := Circle.radius circle in
  let d := sqrt (px drawPoint ^ 2 + py drawPoint ^ 2) in
  let alpha := JS.Ratan2 (py drawPoint) (px drawPoint) in
  let curve := generateCycloid calc now circle drawPoint cycles in
  let sample theta :=
    mkSample (JS.Fin (radius * theta + d * cos (alpha - theta)))
             (JS.Fin (radius + d * sin (alpha - theta)))
             (CycloidMeta (JS.Fin theta)
                (mkNPoint (JS.Fin (radius * theta)) (JS.Fin radius))) in
  getFirstPoint curve = Some (sample 0)
  /\ getLastPoint curve = Some (sample (cycles * MATH.TWO_PI)).
Proof.
  intros Hc Hp. cbn zeta.
  pose proof (numPoints_pos calc cycles Hc Hp) as Hn.
  set (N := Zceil (cycles * MATH.TWO_PI * pointsPerRadian calc)) in *.
  assert (IZR N <> 0) as HN by (apply not_0_IZR; lia).
  unfold getFirstPoint, getLastPoint, getPoint.
  rewrite generateCycloid_length, generateCycloid_points. fold N.
  split.
  - destruct (decide (0 < 0 \/ 0 >= Z.of_nat (Z.to_nat (N + 1)))%Z);
      [lia |].
    rewrite list_lookup_fmap, range_lookup by lia.
    cbn [fmap option_fmap option_map]. rewrite cycloidSample_fin by lia.
    cbn zeta. f_equal.
    replace (0 + Z.of_nat (Z.to_nat 0))%Z with 0%Z by lia.
    replace (IZR 0 / IZR N * (cycles * MATH.TWO_PI))
      with 0 by (field; exact HN).
    reflexivity.
  - destruct (decide (Z.of_nat (Z.to_nat (N + 1)) - 1 < 0
                      \/ Z.of_nat (Z.to_nat (N + 1)) - 1
                         >= Z.of_nat (Z.to_nat (N + 1)))%Z); [lia |].
    rewrite list_lookup_fmap, range_lookup by lia.
    cbn [fmap option_fmap option_map]. rewrite cycloidSample_fin by lia.
    cbn zeta. f_equal.
    replace (0 + Z.of_nat (Z.to_nat (Z.of_nat (Z.to_nat (N + 1)) - 1)))%Z
      with N by lia.
    replace (IZR N / IZR N * (cycles * MATH.TWO_PI))
      with (cycles * MATH.TWO_PI) by (field; exact HN).
    reflexivity.
Qed.

Lemma getCycloidPoint_agrees_witness :
  exists s theta,
    s ∈ _points (generateCycloid CyclogonCalculator.default 0 unitCircle
                   (mkPoint 0 1) 1)
    /\ parameter s = Some (JS.Fin theta)
    /\ Circle.getCycloidPoint unitCircle (JS.Fin theta) (mkPoint 0 1)
       = mkNPoint (x s) (y s).
Proof.
  assert (0 < pointsPerRadian CyclogonCalculator.default) as Hp
    by (rewrite default_pointsPerRadian; lra).
  destruct (generateCycloid_ends CyclogonCalculator.default 0 unitCircle
              (mkPoint 0 1) 1 Rlt_0_1 Hp) as [Hfirst _].
  unfold getFirstPoint, getPoint in Hfirst.
  destruct (decide _) in Hfirst; [discriminate |].
  apply list_elem_of_lookup_2 in Hfirst.
  eexists. 
  destruct (getCycloidPoint_agrees CyclogonCalculator.default 0 1 (mkPoint 0 0)
              unitCircle (mkPoint 0 1) 1 _ unitCircle_new Rlt_0_1 Hp Hfirst)
    as (theta & H1 & H2).
  exists theta. split; [exact Hfirst |]. split; [exact H1 | exact H2].
Defined.

(** X25: on a constructed circle the cycloid starts where the draw
    point sits on the circle resting on the line, at
    [(x, radius + y)]; after a whole number of cycles it ends at the
    same height, that number of circumferences further along. *)
Theorem generateCycloid_whole_cycles (calc : CyclogonCalculator.t) (now : Z)
    (r : R) (ctr : Point) (circle : Circle.t) (drawPoint : Point) (k : nat) :
  Circle.new r ctr = JS.Ok circle ->
  (1 <= k)%nat -> 0 < pointsPerRadian calc ->
  let curve := generateCycloid calc now circle drawPoint (INR k) in
  exists first final,
    getFirstPoint curve = Some first
    /\ getLastPoint curve = Some final
    /\ x first = JS.Fin (px drawPoint)
    /\ y first = JS.Fin (r + py drawPoint)
    /\ x final = JS.Fin (px drawPoint + INR k * Circle.circumference circle)
    /\ y final = JS.Fin (r + py drawPoint)
    /\ parameter final = Some (JS.Fin (INR k * MATH.TWO_PI)).
Proof.
  intros Hnew Hk Hp. cbn zeta.
  destruct (Circle_new_inv r ctr circle Hnew) as [Hr ->].
  assert (0 < INR k) as Hc by (apply lt_0_INR; lia).
  destruct (generateCycloid_ends calc now (Circle.mk r ctr) drawPoint (INR k)
              Hc Hp) as [Hfirst Hlast].
  cbn zeta in Hfirst, Hlast. cbn [Circle.radius] in Hfirst, Hlast.
  eexists _, _. split; [exact Hfirst |]. split; [exact Hlast |].
  cbn [x y meta parameter].
  destruct (atan2_polar (px drawPoint) (py drawPoint)) as [Hcos Hsin].
  replace (px drawPoint * px drawPoint + py drawPoint * py drawPoint)
    with (px drawPoint ^ 2 + py drawPoint ^ 2) in Hcos, Hsin by ring.
  set (alpha := JS.Ratan2 (py drawPoint) (px drawPoint)) in *.
  set (d := sqrt (px drawPoint ^ 2 + py drawPoint ^ 2)) in *.
  assert (cos (alpha - INR k * MATH.TWO_PI) = cos alpha
          /\ sin (alpha - INR k * MATH.TWO_PI) = sin alpha) as [Ec Es].
  { rewrite <- (cos_period (alpha - INR k * MATH.TWO_PI) k).
    rewrite <- (sin_period (alpha - INR k * MATH.TWO_PI) k).
    unfold MATH.TWO_PI. split; f_equal; ring. }
  rewrite Rminus_0_r, Ec, Es, Hcos, Hsin.
  unfold Circle.circumference, MATH.TWO_PI. cbn [Circle.radius].
  repeat split; f_equal; ring.
Qed.

Lemma generateCycloid_whole_cycles_witness :
  exists first,
    getFirstPoint (generateCycloid CyclogonCalculator.default 0 unitCircle
                     (mkPoint 0 1) (INR 1)) = Some first
    /\ x first = JS.Fin 0 /\ y first = JS.Fin (1 + 1).
Proof.
  assert (0 < pointsPerRadian CyclogonCalculator.default) as Hp
    by (rewrite default_pointsPerRadian; lra).
  destruct (generateCycloid_whole_cycles CyclogonCalculator.default 0 1
              (mkPoint 0 0) unitCircle (mkPoint 0 1) 1 unitCircle_new
              (le_n 1) Hp)
    as (first & final & H1 & _ & H2 & H3 & _).
  exists first. split; [exact H1 |]. split; [exact H2 | exact H3].
Defined.



End CycloidByCircle.

(* ================================================================== *)
(** ** The rolling polygon *)

Section RollingPolygon.

Import Cyclogon CyclogonCalculator.

(** [_rotatePoint] on finite numbers keeps the distance to the
    pivot. *)
Lemma _rotatePoint_fin (u v a b theta : R) :
  exists u' v',
    _rotatePoint (mkNPoint (JS.Fin u) (JS.Fin v))
      (mkNPoint (JS.Fin a) (JS.Fin b)) (JS.Fin theta)
    = mkNPoint (JS.Fin u') (JS.Fin v')
    /\ (u' - a) * (u' - a) + (v' - b) * (v' - b)
       = (u - a) * (u - a) + (v - b) * (v - b).
Proof.
  unfold _rotatePoint.
  cbn [nx ny JS.cos JS.sin JS.sub JS.add JS.mul JS.neg].
  eexists _, _. split; [reflexivity |].
  pose proof (sin2_cos2 theta) as H. unfold Rsqr in H.
  transitivity (((u - a) * (u - a) + (v - b) * (v - b))
                * (sin theta * sin theta + cos theta * cos theta));
    [ring | rewrite H; ring].
Qed.

(** X27: [_rotatePoint] on finite numbers is a rotation about the
    pivot: it keeps the distance to the pivot, the angle zero leaves the
    point in place, and two rotations in a row are the rotation by the
    sum of the angles. *)
Theorem rotatePoint_rigid (u v a b theta phi : R) :
  let point := mkNPoint (JS.Fin u) (JS.Fin v) in
  let pivot := mkNPoint (JS.Fin a) (JS.Fin b) in
  (exists u' v',
      _rotatePoint point pivot (JS.Fin theta)
      = mkNPoint (JS.Fin u') (JS.Fin v')
      /\ (u' - a) * (u' - a) + (v' - b) * (v' - b)
         = (u - a) * (u - a) + (v - b) * (v - b))
  /\ _rotatePoint point pivot (JS.Fin 0) = point
  /\ _rotatePoint (_rotatePoint point pivot (JS.Fin theta)) pivot (JS.Fin phi)
     = _rotatePoint point pivot (JS.Fin (theta + phi)).
Proof.
  cbn zeta. split; [apply _rotatePoint_fin |].
  unfold _rotatePoint.
  cbn [nx ny JS.cos JS.sin JS.sub JS.add JS.mul JS.neg].
  split.
  - rewrite cos_0, sin_0. f_equal; f_equal; ring.
  - rewrite cos_plus, sin_plus. f_equal; f_equal; ring.
Qed.

(** The samples a run of [generateCyclogon] stores, with the draw point
    it traces: the given one turned about the origin so that the bottom
    side of the polygon faces down. *)
Lemma generateCyclogon_points (calc : CyclogonCalculator.t) (now : Z) (n : Z)
    (r off : R) (polygon : Polygon.t) (drawPoint : Point) (cycles : R) :
  Polygon.new n r off = JS.Ok polygon ->
  exists bottom edge curve,
    _findBottomSideIndex polygon = JS.Ok bottom
    /\ Polygon.getEdge polygon bottom = Some edge
    /\ generateCyclogon calc now polygon drawPoint cycles = JS.Ok curve
    /\ _points curve
       = flat_map
           (sideSamples calc polygon
              (_rotatePoint
                 (mkNPoint (JS.Fin (px drawPoint)) (JS.Fin (py drawPoint)))
                 (mkNPoint (JS.Fin 0) (JS.Fin 0))
                 (JS.Fin (- PI / 2)
                  -j JS.atan2 (ny (Polygon.getNormal edge))
                       (nx (Polygon.getNormal edge))))
              cycles (Zceil (cycles * IZR n)))
           (JS.range 0 (Z.to_nat (Zceil (cycles * IZR n)))).
Proof.
  intros Hnew.
  assert (Hedges : forall i, is_Some (Polygon.getEdge polygon i))
    by (intros i; exact (getEdge_is_Some n r off polygon i Hnew)).
  destruct (Polygon_new_inv n r off polygon Hnew) as (_ & _ & Hsides & _).
  unfold generateCyclogon, _findBottomSideIndex, _getEdgeNormalAngle.
  destruct (_findBottomSideIndex_loop_ok polygon
              (JS.range 0 (Z.to_nat (Polygon.sides polygon))) 0 JS.NInf Hedges)
    as [bottom Hbottom].
  rewrite Hbottom. cbn [mbind result_bind JS.bind].
  destruct (Hedges bottom) as [edge Hedge]. rewrite Hedge.
  cbn [mbind result_bind JS.bind].
  rewrite sides_fold.
  exists bottom, edge. eexists.
  split; [reflexivity |]. split; [exact Hedge |]. split; [reflexivity |].
  unfold setMetadata, Cyclogon.new, with_points. cbn [_points app].
  rewrite Hsides. reflexivity.
Qed.





(** The normal of an edge of a constructed polygon is finite. *)
Lemma getNormal_fin (n : Z) (r off : R) (polygon : Polygon.t)
    (e : Polygon.Edge) :
  Polygon.new n r off = JS.Ok polygon ->
  e ∈ Polygon.edges polygon ->
  exists a b : R, Polygon.getNormal e = mkNPoint (JS.Fin a) (JS.Fin b).
Proof.
  intros Hnew He.
  destruct (new_geometry n r off polygon Hnew) as (Hn & Hr & _ & _ & Hes).
  rewrite Hes in He. apply list_elem_of_fmap in He as (i & -> & Hi).
  apply range_elem_of in Hi.
  pose proof (edge_length n r off i Hn Hr ltac:(lia)) as Hlen.
  destruct (sin_PI_over_sides n Hn) as [Hsin _].
  unfold Polygon.getNormal. unfold Polygon.getLength in Hlen.
  rewrite Hlen, !div_fin by nra.
  eexists _, _. reflexivity.
Qed.

(** A pass of the inner loop of [generateCyclogon] on a finite draw
    point: the centre is [radius] from the pivot, and the sample is as far
    from the centre as the draw point from the origin. *)
Lemma cyclogonSample_rigid (calc : CyclogonCalculator.t) (polygon : Polygon.t)
    (ax ay exteriorAngle pivotX polygonRotation : R) (sideIndex p : Z) :
  pointsPerSide calc <> 0 ->
  exists rotation cx cy u v : R,
    cyclogonSample calc polygon (mkNPoint (JS.Fin ax) (JS.Fin ay))
      exteriorAngle pivotX polygonRotation sideIndex p
    = mkSample (JS.Fin u) (JS.Fin v)
        (CyclogonMeta sideIndex (JS.Fin rotation)
           (mkNPoint (JS.Fin pivotX) (JS.Fin 0))
           (mkNPoint (JS.Fin cx) (JS.Fin cy)))
    /\ (cx - pivotX) * (cx - pivotX) + cy * cy
       = Polygon.radius polygon * Polygon.radius polygon
    /\ (u - cx) * (u - cx) + (v - cy) * (v - cy) = ax * ax + ay * ay.
Proof.
  intros Hpps. unfold cyclogonSample. cbn [nx ny].
  rewrite div_fin by exact Hpps. rewrite sqrt_sum_squares_fin.
  unfold _getDistancePivotToCenter.
  cbn [JS.mul JS.add JS.sub JS.neg JS.cos JS.sin JS.atan2].
  eexists _, _, _, _, _. split; [reflexivity |].
  split.
  - match goal with
    | |- context [cos ?A] =>
        pose proof (sin2_cos2 A) as H; unfold Rsqr in H;
        transitivity (Polygon.radius polygon * Polygon.radius polygon
                      * (sin A * sin A + cos A * cos A));
        [ring | rewrite H; ring]
    end.
  - assert (0 <= ax * ax + ay * ay) as Hnn by nra.
    pose proof (sqrt_sqrt _ Hnn) as Hd.
    match goal with
    | |- context [sqrt (ax * ax + ay * ay) * cos ?B] =>
        pose proof (sin2_cos2 B) as H; unfold Rsqr in H;
        transitivity (sqrt (ax * ax + ay * ay) * sqrt (ax * ax + ay * ay)
                      * (sin B * sin B + cos B * cos B));
        [ring | rewrite H, Hd; ring]
    end.
Qed.

(** X29: the polygon of a cyclogon moves as a rigid body.  On a
    constructed polygon every sample carries finite numbers; the centre it
    records is [radius] away from the pivot, which lies on the line at the
    end of the side being rolled over, and the sample itself is as far
    from that centre as the draw point is from the centre of the
    polygon. *)
Theorem generateCyclogon_rigid (calc : CyclogonCalculator.t) (now : Z)
    (n : Z) (r off : R) (polygon : Polygon.t) (drawPoint : Point)
    (cycles : R) (curve : Cyclogon.t) (s : Sample) :
  Polygon.new n r off = JS.Ok polygon ->
  pointsPerSide calc <> 0 ->
  generateCyclogon calc now polygon drawPoint cycles = JS.Ok curve ->
  s ∈ _points curve ->
  exists (sideIndex : Z) (rotation cx cy u v : R),
    s = mkSample (JS.Fin u) (JS.Fin v)
          (CyclogonMeta sideIndex (JS.Fin rotation)
             (mkNPoint
                (JS.Fin ((IZR sideIndex + 1) * Polygon.getSideLength polygon))
                (JS.Fin 0))
             (mkNPoint (JS.Fin cx) (JS.Fin cy)))
    /\ (0 <= sideIndex < Zceil (cycles * IZR n))%Z
    /\ (cx - (IZR sideIndex + 1) * Polygon.getSideLength polygon)
       * (cx - (IZR sideIndex + 1) * Polygon.getSideLength polygon)
       + cy * cy = r * r
    /\ (u - cx) * (u - cx) + (v - cy) * (v - cy)
       = px drawPoint * px drawPoint + py drawPoint * py drawPoint.
Proof.
  intros Hnew Hpps Hgen Hs.
  destruct (Polygon_new_inv n r off polygon Hnew) as (_ & _ & _ & Hradius & _).
  destruct (generateCyclogon_points calc now n r off polygon drawPoint cycles
              Hnew) as (bottom & edge & curve' & _ & Hedge & Hgen' & Hpts).
  rewrite Hgen in Hgen'. injection Hgen' as <-.
  assert (edge ∈ Polygon.edges polygon) as Hin.
  { unfold Polygon.getEdge in Hedge. apply list_elem_of_lookup.
    eexists. exact Hedge. }
  destruct (getNormal_fin n r off polygon edge Hnew Hin) as (a & b & Hnormal).
  rewrite Hnormal in Hpts. cbn [nx ny JS.atan2 JS.sub JS.add JS.neg] in Hpts.
  destruct (_rotatePoint_fin (px drawPoint) (py drawPoint) 0 0
              (- PI / 2 + - JS.Ratan2 b a)) as (ax & ay & Hadj & Hnorm).
  rewrite Hadj in Hpts.
  rewrite Hpts in Hs. apply list_elem_of_In, in_flat_map in Hs.
  destruct Hs as (sideIndex & Hside & Hs).
  apply list_elem_of_In, range_elem_of in Hside.
  apply list_elem_of_In in Hs. unfold sideSamples in Hs.
  apply list_elem_of_fmap in Hs as (p & -> & _).
  destruct (cyclogonSample_rigid calc polygon ax ay
              (Polygon.getExteriorAngle polygon)
              ((IZR sideIndex + 1) * Polygon.getSideLength polygon)
              (IZR sideIndex * Polygon.getExteriorAngle polygon)
              sideIndex p Hpps)
    as (rotation & cx & cy & u & v & -> & Hc & Hd).
  exists sideIndex, rotation, cx, cy, u, v.
  split; [reflexivity |]. split; [lia |].
  split; [rewrite <- Hradius; exact Hc |].
  rewrite Hd.
  transitivity ((ax - 0) * (ax - 0) + (ay - 0) * (ay - 0));
    [ring | rewrite Hnorm; ring].
Qed.

Lemma generateCyclogon_rigid_witness :
  exists curve,
    generateCyclogon CyclogonCalculator.default 0 unitSquare (mkPoint 0 1) 1
    = JS.Ok curve
    /\ forall s, s ∈ _points curve ->
         exists u v, x s = JS.Fin u /\ y s = JS.Fin v.
Proof.
  destruct (generateCyclogon_ok CyclogonCalculator.default 0 4 1
              (- MATH.HALF_PI) unitSquare (mkPoint 0 1) 1 square_new)
    as (adj & rot & Hgen).
  match type of Hgen with
  | _ = JS.Ok ?c =>
      exists c; split; [exact Hgen |]; intros s Hs;
      destruct (generateCyclogon_rigid CyclogonCalculator.default 0 4 1
                  (- MATH.HALF_PI) unitSquare (mkPoint 0 1) 1 c s square_new)
        as (sideIndex & rotation & cx & cy & u & v & -> & _);
      [rewrite default_pointsPerSide; lra | exact Hgen | exact Hs |];
      exists u, v; split; reflexivity
  end.
Defined.

(** The search loop of [_findBottomSideIndex] from a finite best
    product, over indices whose edges have finite normals. *)
Lemma bottom_loop (polygon : Polygon.t) (indices : list Z) (bestIndex : Z)
    (m : R) :
  (forall i, i ∈ indices ->
     exists e b, Polygon.getEdge polygon i = Some e
                 /\ ny (Polygon.getNormal e) = JS.Fin b) ->
  exists k,
    _findBottomSideIndex_loop polygon indices bestIndex (JS.Fin m) = JS.Ok k
    /\ ((k = bestIndex
         /\ forall i e b, i ∈ indices -> Polygon.getEdge polygon i = Some e ->
              ny (Polygon.getNormal e) = JS.Fin b -> - b <= m)
        \/ (k ∈ indices
            /\ exists ek bk,
                 Polygon.getEdge polygon k = Some ek
                 /\ ny (Polygon.getNormal ek) = JS.Fin bk
                 /\ m < - bk
                 /\ forall i e b, i ∈ indices ->
                      Polygon.getEdge polygon i = Some e ->
                      ny (Polygon.getNormal e) = JS.Fin b -> bk <= b)).
Proof.
  revert bestIndex m.
  induction indices as [| i rest IH]; intros bestIndex m Hall.
  - exists bestIndex. split; [reflexivity |]. left.
    split; [reflexivity |]. intros i e b Hi. inversion Hi.
  - destruct (Hall i (list_elem_of_here i rest)) as (e & b & He & Hb).
    assert (forall j, j ∈ rest ->
              exists e b, Polygon.getEdge polygon j = Some e
                          /\ ny (Polygon.getNormal e) = JS.Fin b) as Hrest
      by (intros j Hj; apply Hall, list_elem_of_further, Hj).
    cbn [_findBottomSideIndex_loop]. rewrite He, Hb.
    cbn [JS.neg JS.gt JS.lt].
    destruct (bool_decide (m < - b)) eqn:Elt.
    + apply bool_decide_eq_true in Elt.
      destruct (IH i (- b) Hrest) as (k & Hloop & Hcase).
      exists k. split; [exact Hloop |]. right.
      destruct Hcase as [[-> Hle] | (Hk & ek & bk & Hek & Hbk & Hlt & Hle)].
      * split; [apply list_elem_of_here |].
        exists e, b. split; [exact He |]. split; [exact Hb |].
        split; [exact Elt |].
        intros j e' b' Hj He' Hb'.
        apply elem_of_cons in Hj as [-> | Hj].
        -- rewrite He in He'. injection He' as <-.
           rewrite Hb in Hb'. injection Hb' as <-. lra.
        -- pose proof (Hle j e' b' Hj He' Hb'). lra.
      * split; [apply list_elem_of_further, Hk |].
        exists ek, bk. split; [exact Hek |]. split; [exact Hbk |].
        split; [lra |].
        intros j e' b' Hj He' Hb'.
        apply elem_of_cons in Hj as [-> | Hj].
        -- rewrite He in He'. injection He' as <-.
           rewrite Hb in Hb'. injection Hb' as <-. lra.
        -- apply (Hle j e' b' Hj He' Hb').
    + apply bool_decide_eq_false in Elt.
      destruct (IH bestIndex m Hrest) as (k & Hloop & Hcase).
      exists k. split; [exact Hloop |].
      destruct Hcase as [[-> Hle] | (Hk & ek & bk & Hek & Hbk & Hlt & Hle)].
      * left. split; [reflexivity |].
        intros j e' b' Hj He' Hb'.
        apply elem_of_cons in Hj as [-> | Hj].
        -- rewrite He in He'. injection He' as <-.
           rewrite Hb in Hb'. injection Hb' as <-. lra.
        -- apply (Hle j e' b' Hj He' Hb').
      * right. split; [apply list_elem_of_further, Hk |].
        exists ek, bk. split; [exact Hek |]. split; [exact Hbk |].
        split; [exact Hlt |].
        intros j e' b' Hj He' Hb'.
        apply elem_of_cons in Hj as [-> | Hj].
        -- rewrite He in He'. injection He' as <-.
           rewrite Hb in Hb'. injection Hb' as <-. lra.
        -- apply (Hle j e' b' Hj He' Hb').
Qed.

(** X30: on a constructed polygon [_findBottomSideIndex] answers the
    index of an edge of the polygon, and no edge of the polygon has a
    normal that points further down. *)
Theorem findBottomSideIndex_lowest (n : Z) (r off : R)
    (polygon : Polygon.t) :
  Polygon.new n r off = JS.Ok polygon ->
  exists k e,
    _findBottomSideIndex polygon = JS.Ok k
    /\ (0 <= k < n)%Z
    /\ Polygon.getEdge polygon k = Some e
    /\ forall e', e' ∈ Polygon.edges polygon ->
         JS.le (ny (Polygon.getNormal e)) (ny (Polygon.getNormal e')) = true.
Proof.
  intros Hnew.
  destruct (new_geometry n r off polygon Hnew) as (Hn & Hr & Hp & Hvs & Hes).
  assert (Polygon.sides polygon = n) as Hsides by (rewrite Hp; reflexivity).
  assert (forall i, (0 <= i < n)%Z ->
            exists e b, Polygon.getEdge polygon i = Some e
                        /\ e ∈ Polygon.edges polygon
                        /\ ny (Polygon.getNormal e) = JS.Fin b) as Hedge.
  { intros i Hi.
    destruct (getEdge_is_Some n r off polygon i Hnew) as [e He].
    assert (e ∈ Polygon.edges polygon) as Hin.
    { unfold Polygon.getEdge in He. apply list_elem_of_lookup.
      eexists. exact He. }
    destruct (getNormal_fin n r off polygon e Hnew Hin) as (a & b & Hnormal).
    exists e, b. split; [exact He |]. split; [exact Hin |].
    rewrite Hnormal. reflexivity. }
  assert (forall e', e' ∈ Polygon.edges polygon ->
            exists i, (0 <= i < n)%Z /\ Polygon.getEdge polygon i = Some e')
    as Hindex.
  { intros e' He'. pose proof He' as Hmem. rewrite Hes in He'.
    apply list_elem_of_fmap in He' as (i & -> & Hi).
    apply range_elem_of in Hi. exists i. split; [lia |].
    destruct (getEdge_mod n r off polygon i Hnew) as [_ He].
    rewrite Z.mod_small in He by lia. exact He. }
  unfold _findBottomSideIndex. rewrite Hsides.
  destruct (JS.range 0 (Z.to_nat n)) as [| i0 rest] eqn:Erange.
  { apply (f_equal length) in Erange. rewrite range_length in Erange.
    cbn [length] in Erange. lia. }
  assert (forall i, i ∈ i0 :: rest <-> (0 <= i < n)%Z) as Hrange.
  { intros i. rewrite <- Erange, range_elem_of. lia. }
  destruct (Hedge i0 (proj1 (Hrange i0) (list_elem_of_here i0 rest)))
    as (e0 & b0 & He0 & _ & Hb0).
  cbn [_findBottomSideIndex_loop]. rewrite He0, Hb0.
  cbn [JS.neg JS.gt JS.lt].
  destruct (bottom_loop polygon rest i0 (- b0)) as (k & Hloop & Hcase).
  { intros i Hi.
    assert (i ∈ i0 :: rest) as Hi' by (apply list_elem_of_further, Hi).
    destruct (Hedge i (proj1 (Hrange i) Hi')) as (e & b & He & _ & Hb).
    exists e, b. split; assumption. }
  exists k.
  assert (forall e' b', e' ∈ Polygon.edges polygon ->
            ny (Polygon.getNormal e') = JS.Fin b' ->
            exists i, i ∈ i0 :: rest /\ Polygon.getEdge polygon i = Some e')
    as Hback.
  { intros e' b' He' _. destruct (Hindex e' He') as (i & Hi & He).
    exists i. split; [apply Hrange, Hi | exact He]. }
  destruct Hcase as [[-> Hle] | (Hk & ek & bk & Hek & Hbk & Hlt & Hle)].
  - exists e0. split; [exact Hloop |].
    split; [apply Hrange, list_elem_of_here |]. split; [exact He0 |].
    intros e' He'. destruct (Hindex e' He') as (i & Hi & He).
    destruct (Hedge i Hi) as (e'' & b' & He'' & _ & Hb').
    rewrite He in He''. injection He'' as <-.
    rewrite Hb0, Hb'. cbn [JS.le]. apply bool_decide_eq_true.
    apply Hrange, elem_of_cons in Hi as [-> | Hi].
    + rewrite He0 in He. injection He as <-.
      rewrite Hb0 in Hb'. injection Hb' as <-. lra.
    + pose proof (Hle i e' b' Hi He Hb'). lra.
  - exists ek. split; [exact Hloop |].
    split; [apply Hrange, list_elem_of_further, Hk |]. split; [exact Hek |].
    intros e' He'. destruct (Hindex e' He') as (i & Hi & He).
    destruct (Hedge i Hi) as (e'' & b' & He'' & _ & Hb').
    rewrite He in He''. injection He'' as <-.
    rewrite Hbk, Hb'. cbn [JS.le]. apply bool_decide_eq_true.
    apply Hrange, elem_of_cons in Hi as [-> | Hi].
    + rewrite He0 in He. injection He as <-.
      rewrite Hb0 in Hb'. injection Hb' as <-. lra.
    + apply (Hle i e' b' Hi He Hb').
Qed.

Lemma findBottomSideIndex_lowest_witness :
  exists k, _findBottomSideIndex unitSquare = JS.Ok k /\ (0 <= k < 4)%Z.
Proof.
  destruct (findBottomSideIndex_lowest 4 1 (- MATH.HALF_PI) unitSquare
              square_new) as (k & e & H1 & H2 & _).
  exists k. split; [exact H1 | exact H2].
Defined.

End RollingPolygon.
